(** * Burr-hole detection pipeline: shallow embedding of
    register.py, subtract.py and binarize.py.

    Volumes are SimpleITK images: a geometry (size, spacing, origin and
    a direction matrix flattened row-major, as [GetDirection] returns it)
    and a pixel buffer in SimpleITK order (x fastest, then y, then z).
    Float32 intensities are modelled as rationals [Q], UInt8 / UInt32
    masks and label images as [Z].

    The last part of the definitions embeds the file-system side of the
    scripts: the case search of the three drivers and
    export_for_nnunet.py. *)

From Stdlib Require Import List Bool Arith ZArith QArith Qabs Qround Lia Lqa.
From Stdlib Require Import Sorting.Sorted Sorting.Permutation.
From Stdlib Require Strings.String.
Import ListNotations.
Import String.StringSyntax.

(* ================================================================= *)
(** ** Data model *)

Record Geometry := mkGeometry {
  size : list nat;
  spacing : list Q;
  origin : list Q;
  direction : list Q
}.

Record Image (V : Type) := mkImage {
  geom : Geometry;
  pixels : list V
}.
Arguments mkImage {V} _ _.
Arguments geom {V} _.
Arguments pixels {V} _.

(** Number of voxels of a grid: the product of its extents. *)
Definition npix (g : Geometry) : nat := fold_right Nat.mul 1%nat (size g).

(** Building a pixel buffer voxel by voxel. *)
Definition tabulate {A} (n : nat) (f : nat -> A) : list A := map f (seq 0 n).

(** Voxel [p] of a buffer (linear SimpleITK index). *)
Definition px {V} (d : V) (img : Image V) (p : nat) : V := nth p (pixels img) d.

(** The (i, j, k) index of linear voxel [p]: x fastest. *)
Definition index_of (g : Geometry) (p : nat) : list nat :=
  let nx := nth 0 (size g) 0%nat in
  let ny := nth 1 (size g) 0%nat in
  [p mod nx; (p / nx) mod ny; p / (nx * ny)]%nat.

(** [CopyInformation]: same geometry, pixels untouched. *)
Definition CopyInformation {V W} (img : Image V) (ref : Image W) : Image V :=
  mkImage (geom ref) (pixels img).

(** Strict comparison on [Q] as a boolean, [Python]'s [>]. *)
Definition Qgtb (x y : Q) : bool :=
  match Qcompare x y with Gt => true | _ => false end.

(** [int(x)] of Python: truncation toward zero. *)
Definition py_int (q : Q) : Z := Z.quot (Qnum q) (Zpos (Qden q)).

(* ================================================================= *)
(** ** binarize.py: [compute_head_cap_mask] *)

Definition HEAD_CAP_DEPTH_MM : Q := 100.

(** [axes = [direction[0:3], direction[3:6], direction[6:9]]] *)
Definition axes (direction : list Q) : list (list Q) :=
  [firstn 3 direction; firstn 3 (skipn 3 direction); firstn 3 (skipn 6 direction)].

(** [max(range(3), key=key)]: the first index of maximal key (Python's
    [max] only replaces its candidate on a strictly greater key). *)
Definition py_max_range3 (key : nat -> Q) : nat :=
  let b1 := if Qgtb (key 1%nat) (key 0%nat) then 1%nat else 0%nat in
  if Qgtb (key 2%nat) (key b1) then 2%nat else b1.

(** [si_axis = max(range(3), key=lambda j: abs(axes[j][2]))] *)
Definition si_axis_of (direction : list Q) : nat :=
  py_max_range3 (fun j => Qabs (nth 2 (nth j (axes direction) []) 0)).

(** [si_dir = axes[si_axis][2]] *)
Definition si_dir_of (direction : list Q) : Q :=
  nth 2 (nth (si_axis_of direction) (axes direction) []) 0.

(** The clamped slice count [depth_slices]. *)
Definition depth_slices_of (depth_mm : Q) (g : Geometry) : Z :=
  let si_axis := si_axis_of (direction g) in
  let n_slices := Z.of_nat (nth si_axis (size g) 0%nat) in
  let d0 := py_int (depth_mm / nth si_axis (spacing g) 0) in
  let d1 := if (d0 <? 1)%Z then 1%Z else d0 in
  if (n_slices <? d1)%Z then n_slices else d1.

(** [(start_slice, end_slice)] *)
Definition head_cap_range (depth_mm : Q) (g : Geometry) : Z * Z :=
  let si_axis := si_axis_of (direction g) in
  let n_slices := Z.of_nat (nth si_axis (size g) 0%nat) in
  let depth_slices := depth_slices_of depth_mm g in
  if Qgtb (si_dir_of (direction g)) 0
  then (Z.max 0 (n_slices - depth_slices), n_slices - 1)%Z
  else (0, Z.min (depth_slices - 1) (n_slices - 1))%Z.

(** [axis_map = {0: 2, 1: 1, 2: 0}] *)
Definition axis_map (a : nat) : nat :=
  match a with 0 => 2 | 1 => 1 | _ => 0 end%nat.

(** Membership of a (non-negative) index in [slice(start, stop)];
    both bounds are non-negative here, so no wrap-around occurs. *)
Definition in_slice (start stop : Z) (a : nat) : bool :=
  (start <=? Z.of_nat a)%Z && (Z.of_nat a <? stop)%Z.

(** [compute_head_cap_mask], with the depth [HEAD_CAP_DEPTH_MM] as an
    argument.  The numpy array [arr] is indexed [(k, j, i)]; the slab
    [arr[slicer] = 1] is taken along [np_axis = axis_map[si_axis]]. *)
Definition compute_head_cap_mask_depth (depth_mm : Q) {V} (reference_image : Image V)
  : Image Z :=
  let g := geom reference_image in
  let '(start_slice, end_slice) := head_cap_range depth_mm g in
  let np_axis := axis_map (si_axis_of (direction g)) in
  let arr := fun p =>
    match index_of g p with
    | [i; j; k] => if in_slice start_slice (end_slice + 1)%Z (nth np_axis [k; j; i] 0%nat)
                   then 1%Z else 0%Z
    | _ => 0%Z
    end in
  mkImage g (tabulate (npix g) arr).

Definition compute_head_cap_mask {V} (reference_image : Image V) : Image Z :=
  compute_head_cap_mask_depth HEAD_CAP_DEPTH_MM reference_image.

(** *** Readings of the spec, to compare with the code *)

(** The spec's superior–inferior axis: with the row-major flattening
    of SimpleITK, the column of index axis [j] is
    [(d[j], d[3+j], d[6+j])], whose third component is [d[6+j]]. *)
Definition si_axis_by_columns (direction : list Q) : nat :=
  py_max_range3 (fun j => Qabs (nth (6 + j) direction 0)).

Definition si_dir_by_columns (direction : list Q) : Q :=
  nth (6 + si_axis_by_columns direction) direction 0.

(** Row-major 3x3 matrix product [A * B]. *)
Definition mat3_mul (a b : list Q) : list Q :=
  map (fun rc => let r := (rc / 3)%nat in let c := (rc mod 3)%nat in
         nth (3 * r) a 0 * nth c b 0 + nth (3 * r + 1) a 0 * nth (3 + c) b 0
         + nth (3 * r + 2) a 0 * nth (6 + c) b 0) (seq 0 9).

Definition mat3_transpose (a : list Q) : list Q :=
  map (fun rc => nth (3 * (rc mod 3) + rc / 3) a 0) (seq 0 9).

Definition identity_direction : list Q := [1; 0; 0; 0; 1; 0; 0; 0; 1].

(** Orthonormality of a flattened direction matrix: [D * D^T = I]. *)
Definition orthonormalb (d : list Q) : bool :=
  forallb (fun xy => Qeq_bool (fst xy) (snd xy))
    (combine (mat3_mul d (mat3_transpose d)) identity_direction).

(** Slice count following the spec's words: [round(depthMm/spacing)]
    clamped to [1, extent] (half-way cases do not occur below). *)
Definition spec_round (q : Q) : Z := Qfloor (q + (1 # 2)).

Definition head_cap_round_value (depth_mm : Q) {V} (img : Image V) (p : nat) : Z :=
  let g := geom img in
  let a := si_axis_of (direction g) in
  let n := Z.of_nat (nth a (size g) 0%nat) in
  let d := Z.min n (Z.max 1 (spec_round (depth_mm / nth a (spacing g) 0))) in
  let idx := Z.of_nat (nth a (index_of g p) 0%nat) in
  if Qgtb (si_dir_of (direction g)) 0
  then (if (n - d <=? idx)%Z then 1%Z else 0%Z)
  else (if (idx <? d)%Z then 1%Z else 0%Z).

(** A 1 x 1 x 200 CT column with 0.7 mm slices, identity direction. *)
Definition column_geometry : Geometry :=
  mkGeometry [1; 1; 200]%nat [1; 1; 7 # 10] [0; 0; 0] identity_direction.

Definition column_image : Image Q := mkImage column_geometry (repeat 0 200).

(** A permuted but orthonormal direction: index axis 0 runs along
    physical y, axis 1 along physical z (superior), axis 2 along x. *)
Definition permuted_direction : list Q := [0; 0; 1; 1; 0; 0; 0; 1; 0].

(* ================================================================= *)
(** ** SimpleITK filters used by the scripts *)

(** The two SimpleITK algorithms whose internals the scripts do not
    spell out: the voxel buffer computed by [BinaryMorphologicalClosing]
    for a radius vector (the geometry is kept, as every ITK filter
    does) and the threshold value chosen by [OtsuThreshold]. *)
Class SitkFilters := {
  closing_buffer : list nat -> Geometry -> list Z -> list Z;
  otsu_threshold_value : list Q -> Q
}.

Definition zipWith {A B C} (f : A -> B -> C) : list A -> list B -> list C :=
  fix go la lb := match la, lb with
                  | a :: la', b :: lb' => f a b :: go la' lb'
                  | _, _ => []
                  end.

(** [BinaryThreshold(image, lower, upper, inside, outside)]: [inside]
    where [lower <= v <= upper], [outside] elsewhere; [val] reads a
    pixel of the input type as a number. *)
Definition BinaryThreshold {V} (val : V -> Q) (image : Image V)
    (lowerThreshold upperThreshold : Q) (insideValue outsideValue : Z) : Image Z :=
  mkImage (geom image)
    (map (fun v => if Qle_bool lowerThreshold (val v) && Qle_bool (val v) upperThreshold
                   then insideValue else outsideValue) (pixels image)).

Definition BinaryMorphologicalClosing `{SitkFilters} (image : Image Z) (radius : list nat)
  : Image Z :=
  mkImage (geom image) (closing_buffer radius (geom image) (pixels image)).

(** [OtsuThreshold(image, insideValue, outsideValue)]: [insideValue] at
    or below the selected threshold, [outsideValue] above it. *)
Definition OtsuThreshold `{SitkFilters} (image : Image Q) (insideValue outsideValue : Z)
  : Image Z :=
  let t := otsu_threshold_value (pixels image) in
  mkImage (geom image)
    (map (fun v => if Qle_bool v t then insideValue else outsideValue) (pixels image)).

(** [sitk.Cast(mask, sitkFloat32)] *)
Definition CastToFloat (image : Image Z) : Image Q :=
  mkImage (geom image) (map inject_Z (pixels image)).

(** [image == c] on a label image: a 0/1 UInt8 image. *)
Definition EqualTo (image : Image Z) (c : Z) : Image Z :=
  mkImage (geom image) (map (fun v => if Z.eqb v c then 1%Z else 0%Z) (pixels image)).

(** [a | b] on two UInt8 images on the same grid. *)
Definition OrImages (a b : Image Z) : Image Z :=
  mkImage (geom a) (zipWith Z.lor (pixels a) (pixels b)).

(** [sitk.Image(size, sitkUInt8)] followed by [CopyInformation(ref)]:
    a zero image on the grid of [ref]. *)
Definition zero_image_like {V} (ref : Image V) : Image Z :=
  mkImage (geom ref) (repeat 0%Z (npix (geom ref))).

(** *** [ConnectedComponent] *)

(** Foreground voxel of a mask: inside the grid and nonzero. *)
Definition is_foreground (image : Image Z) (p : nat) : bool :=
  (p <? npix (geom image))%nat && negb (Z.eqb (px 0%Z image p) 0).

(** Face neighbours (the default [fullyConnected=False]) of voxel [p]. *)
Definition face_neighbours (g : Geometry) (p : nat) : list nat :=
  let nx := nth 0 (size g) 0%nat in
  let ny := nth 1 (size g) 0%nat in
  let nz := nth 2 (size g) 0%nat in
  let i := (p mod nx)%nat in
  let j := ((p / nx) mod ny)%nat in
  let k := (p / (nx * ny))%nat in
  ((if (0 <? i)%nat then [p - 1] else []) ++
   (if (i + 1 <? nx)%nat then [p + 1] else []) ++
   (if (0 <? j)%nat then [p - nx] else []) ++
   (if (j + 1 <? ny)%nat then [p + nx] else []) ++
   (if (0 <? k)%nat then [p - nx * ny] else []) ++
   (if (k + 1 <? nz)%nat then [p + nx * ny] else []))%nat.

(** One propagation round: every foreground voxel takes the least label
    among itself and its foreground neighbours. *)
Definition cc_step (g : Geometry) (fg : nat -> bool) (lab : list Z) : list Z :=
  tabulate (npix g) (fun p =>
    if fg p
    then fold_left (fun m q => if fg q then Z.min m (nth q lab 0%Z) else m)
                   (face_neighbours g p) (nth p lab 0%Z)
    else 0%Z).

(** Connected-component labelling: background 0, each foreground voxel
    starts with label [1 + its linear index], and [npix] propagation
    rounds (more than any path length) give every component the label
    [1 + its first voxel].  SimpleITK numbers the same components
    consecutively; only the partition matters to the scripts. *)
Definition ConnectedComponent (image : Image Z) : Image Z :=
  let g := geom image in
  let fg := is_foreground image in
  let init := tabulate (npix g) (fun p => if fg p then (Z.of_nat p + 1)%Z else 0%Z) in
  mkImage g (Nat.iter (npix g) (cc_step g fg) init).

(** [LabelShapeStatisticsImageFilter]: the labels present, and the
    number of voxels of a label. *)
Definition GetLabels (cc : Image Z) : list Z :=
  nodup Z.eq_dec (filter (fun v => negb (Z.eqb v 0)) (pixels cc)).

Definition GetNumberOfPixels (cc : Image Z) (label : Z) : nat :=
  count_occ Z.eq_dec (pixels cc) label.

(** The component filter written out in both [create_skull_mask] and
    [create_burrhole_mask]:
<<
    cc = sitk.ConnectedComponent(mask)
    ...
    for label in stats.GetLabels():
        size = stats.GetNumberOfPixels(label)
        if size >= MIN:
            cleaned = cleaned | sitk.Cast(cc == label, sitk.sitkUInt8)
    cleaned = sitk.BinaryThreshold(cleaned, 1, 255, 1, 0)
>> *)
Definition keep_large_components (min_size : nat) (mask : Image Z) : Image Z :=
  let cc := ConnectedComponent mask in
  let cleaned := zero_image_like mask in
  let cleaned :=
    fold_left (fun cleaned label =>
                 if (min_size <=? GetNumberOfPixels cc label)%nat
                 then OrImages cleaned (EqualTo cc label) else cleaned)
              (GetLabels cc) cleaned in
  BinaryThreshold inject_Z cleaned 1 255 1 0.

(* ================================================================= *)
(** ** register.py: [create_skull_mask] *)

(** The module constants of register.py, as a configuration value. *)
Record SkullMaskConfig := mkSkullMaskConfig {
  BONE_LOWER_HU : Q;
  BONE_UPPER_HU : Q;
  MASK_CLOSING_RADIUS : nat;
  MIN_SKULL_COMPONENT_SIZE : nat
}.

Definition register_config : SkullMaskConfig := mkSkullMaskConfig 300 3000 1 500.

Definition create_skull_mask `{SitkFilters} (cfg : SkullMaskConfig) (image : Image Q)
  : Image Z :=
  let mask := BinaryThreshold (fun v => v) image (BONE_LOWER_HU cfg) (BONE_UPPER_HU cfg) 1 0 in
  let mask :=
    if (0 <? MASK_CLOSING_RADIUS cfg)%nat
    then BinaryMorphologicalClosing mask
           (repeat (MASK_CLOSING_RADIUS cfg) (length (size (geom image))))
    else mask in
  keep_large_components (MIN_SKULL_COMPONENT_SIZE cfg) mask.

(** Number of foreground voxels of a mask. *)
Definition foreground_count (mask : Image Z) : nat :=
  length (filter (fun v => negb (Z.eqb v 0)) (pixels mask)).

(** A stand-in for the two SimpleITK algorithms, to run the scripts on
    concrete volumes: the closing leaves a mask as it is (a mask that is
    already closed), the Otsu threshold is 0. *)
#[local] Instance identity_filters : SitkFilters := {
  closing_buffer := fun _ _ buf => buf;
  otsu_threshold_value := fun _ => 0
}.

(** A single bone voxel, given as an already binary volume. *)
Definition single_voxel_mask : Image Q :=
  mkImage (mkGeometry [1; 1; 1]%nat [1; 1; 1] [0; 0; 0] identity_direction) [1].

(** A 3 x 1 x 1 binary volume [1, 0, 1]: two components of one voxel. *)
Definition two_voxel_mask : Image Q :=
  mkImage (mkGeometry [3; 1; 1]%nat [1; 1; 1] [0; 0; 0] identity_direction) [1; 0; 1].

(** A 4 x 1 x 1 binary volume [1, 1, 0, 1]: components of two and one voxels. *)
Definition pair_and_single_mask : Image Q :=
  mkImage (mkGeometry [4; 1; 1]%nat [1; 1; 1] [0; 0; 0] identity_direction) [1; 1; 0; 1].

(** The labelling invariant: the buffer covers the grid, foreground
    voxels carry a positive label and background voxels label 0. *)
Definition label_inv (g : Geometry) (fg : nat -> bool) (lab : list Z) : Prop :=
  length lab = npix g /\
  (forall q, fg q = true -> (0 < nth q lab 0%Z)%Z) /\
  (forall p, (p < npix g)%nat -> fg p = false -> nth p lab 0%Z = 0%Z).

(* ================================================================= *)
(** ** Voxel-wise arithmetic of SimpleITK images *)

Fixpoint list_eqb {A} (eqb : A -> A -> bool) (l1 l2 : list A) : bool :=
  match l1, l2 with
  | [], [] => true
  | a :: l1', b :: l2' => eqb a b && list_eqb eqb l1' l2'
  | _, _ => false
  end.

(** Grid-compatibility in the sense of the spec: equal extents and
    exactly equal spacing, origin and direction. *)
Definition same_physical_space (a b : Geometry) : bool :=
  list_eqb Nat.eqb (size a) (size b) && list_eqb Qeq_bool (spacing a) (spacing b)
  && list_eqb Qeq_bool (origin a) (origin b) && list_eqb Qeq_bool (direction a) (direction b).

(** The default tolerances of ITK's [ImageToImageFilter]
    ([GlobalDefaultCoordinateTolerance], [GlobalDefaultDirectionTolerance]). *)
Definition CoordinateTolerance : Q := 1 # 1000000.

Definition DirectionTolerance : Q := 1 # 1000000.

(** [vnl_vector::is_equal(rhs, tol)] (and [vnl_matrix::is_equal] on the
    flattened matrix): the same length, and no entry differing by more
    than [tol]. *)
Definition vnl_is_equal (a b : list Q) (tol : Q) : bool :=
  list_eqb (fun x y => Qle_bool (Qabs (x - y)) tol) a b.

(** [ImageToImageFilter::VerifyInputInformation] for the second input [b]
    of a filter whose first input is [a]: origin and spacing equal up to
    [|CoordinateTolerance * spacing[0]|] (the first input's spacing),
    direction up to [DirectionTolerance]. The sizes are not compared. *)
Definition VerifyInputInformation (a b : Geometry) : bool :=
  let coordinateTol := Qabs (CoordinateTolerance * nth 0 (spacing a) 0) in
  vnl_is_equal (origin a) (origin b) coordinateTol
  && vnl_is_equal (spacing a) (spacing b) coordinateTol
  && vnl_is_equal (direction a) (direction b) DirectionTolerance.

(** The requested region of the second input is the output's, i.e. the
    first input's whole region (index 0, size [size a]); ITK throws
    ([InvalidRequestedRegionError]) unless it lies in the second input's
    largest possible region (index 0, size [size b]). SimpleITK first
    requires the same dimension: pointwise [<=] on lists of one length. *)
Definition RequestedRegionInside (a b : Geometry) : bool :=
  list_eqb Nat.leb (size a) (size b).

(** The grid index of linear voxel [p] of a grid of extents [sz], x fastest. *)
Fixpoint grid_index (sz : list nat) (p : nat) : list nat :=
  match sz with
  | [] => []
  | n :: sz' => (p mod n)%nat :: grid_index sz' (p / n)
  end.

(** [ComputeOffset]: the position of a grid index in a buffer of extents [sz]. *)
Fixpoint ComputeOffset (sz idx : list nat) : nat :=
  match sz, idx with
  | n :: sz', i :: idx' => (i + n * ComputeOffset sz' idx')%nat
  | _, _ => 0%nat
  end.

(** The values of a buffer at a list of offsets; [None] past its end
    (which a SimpleITK image, whose buffer covers its grid, never meets). *)
Fixpoint read_offsets {V} (buf : list V) (offs : list nat) : option (list V) :=
  match offs with
  | [] => Some []
  | o :: offs' =>
      match nth_error buf o, read_offsets buf offs' with
      | Some v, Some vs => Some (v :: vs)
      | _, _ => None
      end
  end.

(** The values of the second input [b] read at the grid indices of the
    first input's region (grid [ga]), in the first input's voxel order.
    On equal extents this is [b]'s buffer itself, read in order. *)
Definition second_input_values {V} (ga : Geometry) (b : Image V) : option (list V) :=
  if list_eqb Nat.eqb (size ga) (size (geom b))
  then Some (pixels b)
  else read_offsets (pixels b)
         (map (fun p => ComputeOffset (size (geom b)) (grid_index (size ga) p))
              (seq 0 (npix ga))).

(** [a * b], [a - b] and the like: ITK's [BinaryGeneratorImageFilter]
    behind SimpleITK's operators. The output has the first input's
    geometry; it walks the first input's region and reads both inputs at
    the same grid index, so the output voxel at index [idx] is
    [f a[idx] b[idx]]. [None] where ITK throws: geometries differing
    beyond the tolerances, or a second input not covering the first's
    region. *)
Definition binary_op {V} (f : V -> V -> V) (a b : Image V) : option (Image V) :=
  if VerifyInputInformation (geom a) (geom b) && RequestedRegionInside (geom a) (geom b)
  then
    match second_input_values (geom a) b with
    | Some vb => Some (mkImage (geom a) (zipWith f (pixels a) vb))
    | None => None
    end
  else None.

(** [sitk.Clamp(image, lowerBound=lb)] (the upper bound defaults to
    the largest value of the pixel type, never reached here). *)
Definition Clamp (image : Image Q) (lowerBound : Q) : Image Q :=
  mkImage (geom image)
    (map (fun v => if Qle_bool lowerBound v then v else lowerBound) (pixels image)).

(* ================================================================= *)
(** ** binarize.py: [create_burrhole_mask] *)

(** The module constants of binarize.py, as a configuration value. *)
Record BinarizeConfig := mkBinarizeConfig {
  BONE_THRESHOLD_HU : Q;
  MIN_COMPONENT_SIZE : nat;
  HEAD_CAP_DEPTH : Q
}.

Definition binarize_config : BinarizeConfig := mkBinarizeConfig 300 50 HEAD_CAP_DEPTH_MM.

(** [create_burrhole_mask] on the two volumes it reads (preop CT and
    difference image); the final [WriteImage] is left to the driver.
    [None] is the exception ITK raises on a voxel-wise product whose
    inputs fail [binary_op]'s checks. *)
Definition create_burrhole_mask `{SitkFilters} (cfg : BinarizeConfig) (preop diff : Image Q)
  : option (Image Z) :=
  (* 1) Bone mask from preop CT (HU threshold) *)
  let bone_mask := BinaryThreshold (fun v => v) preop (BONE_THRESHOLD_HU cfg) 1000000000 1 0 in
  (* 2) Keep only positive diff *)
  let diff_pos := Clamp diff 0 in
  (* 3) Restrict to bone region *)
  match binary_op Qmult diff_pos (CastToFloat bone_mask) with
  | None => None
  | Some diff_bone =>
      (* 4) Otsu threshold on diff restricted to bone *)
      let candidate_mask := OtsuThreshold diff_bone 0 1 in
      (* 5a) Morphological closing *)
      let candidate_mask := BinaryMorphologicalClosing candidate_mask [1; 1; 1]%nat in
      (* 5b) Remove tiny connected components *)
      let cleaned_mask := keep_large_components (MIN_COMPONENT_SIZE cfg) candidate_mask in
      (* 6) Restrict to head cap *)
      let head_cap_mask := compute_head_cap_mask_depth (HEAD_CAP_DEPTH cfg) preop in
      binary_op Z.mul cleaned_mask head_cap_mask
  end.

(** A 1 x 1 x 4 preop column (bone in the two top voxels) and its
    difference image, 100 mm voxels. *)
Definition small_geometry : Geometry :=
  mkGeometry [1; 1; 4]%nat [1; 1; 100] [0; 0; 0] identity_direction.

Definition small_preop : Image Q := mkImage small_geometry [0; 50; 800; 900].

Definition small_diff : Image Q := mkImage small_geometry [-20; 30; 400; 600].

(** A 2 x 1 x 1 preop (both voxels bone) over a 1 x 1 x 1 difference
    image on the same origin, spacing and direction: the preop grid is
    larger than the difference grid, which ITK's voxel-wise product
    accepts. *)
Definition wide_preop : Image Q :=
  mkImage (mkGeometry [2; 1; 1]%nat [1; 1; 100] [0; 0; 0] identity_direction) [800; 900].

Definition point_diff : Image Q :=
  mkImage (mkGeometry [1; 1; 1]%nat [1; 1; 100] [0; 0; 0] identity_direction) [400].

(* ================================================================= *)
(** ** SimpleITK [ResampleImageFilter] *)

(** A physical point, (x, y, z) in mm. *)
Definition Point := list Q.

(** Entry (r, c) of a flattened row-major 3 x 3 matrix. *)
Definition mat3_get (m : list Q) (r c : nat) : Q := nth (3 * r + c) m 0.

(** The inverse of a 3 x 3 matrix by its adjugate. *)
Definition mat3_inverse (m : list Q) : list Q :=
  let det := mat3_get m 0 0 * (mat3_get m 1 1 * mat3_get m 2 2 - mat3_get m 1 2 * mat3_get m 2 1)
             - mat3_get m 0 1 * (mat3_get m 1 0 * mat3_get m 2 2 - mat3_get m 1 2 * mat3_get m 2 0)
             + mat3_get m 0 2 * (mat3_get m 1 0 * mat3_get m 2 1 - mat3_get m 1 1 * mat3_get m 2 0) in
  map (fun q => q / det)
    [ mat3_get m 1 1 * mat3_get m 2 2 - mat3_get m 1 2 * mat3_get m 2 1;
      mat3_get m 0 2 * mat3_get m 2 1 - mat3_get m 0 1 * mat3_get m 2 2;
      mat3_get m 0 1 * mat3_get m 1 2 - mat3_get m 0 2 * mat3_get m 1 1;
      mat3_get m 1 2 * mat3_get m 2 0 - mat3_get m 1 0 * mat3_get m 2 2;
      mat3_get m 0 0 * mat3_get m 2 2 - mat3_get m 0 2 * mat3_get m 2 0;
      mat3_get m 0 2 * mat3_get m 1 0 - mat3_get m 0 0 * mat3_get m 1 2;
      mat3_get m 1 0 * mat3_get m 2 1 - mat3_get m 1 1 * mat3_get m 2 0;
      mat3_get m 0 1 * mat3_get m 2 0 - mat3_get m 0 0 * mat3_get m 2 1;
      mat3_get m 0 0 * mat3_get m 1 1 - mat3_get m 0 1 * mat3_get m 1 0 ].

(** ITK's [m_IndexToPhysicalPoint = Direction * diag(Spacing)]. *)
Definition IndexToPhysicalPoint (g : Geometry) : list Q :=
  map (fun rc => nth rc (direction g) 0 * nth (rc mod 3) (spacing g) 0) (seq 0 9).

(** [TransformIndexToPhysicalPoint]:
    [point[i] = origin[i] + sum_j m_IndexToPhysicalPoint[i][j] * index[j]]. *)
Definition TransformIndexToPhysicalPoint (g : Geometry) (index : list nat) : Point :=
  let m := IndexToPhysicalPoint g in
  map (fun i => nth i (origin g) 0
                + (mat3_get m i 0 * inject_Z (Z.of_nat (nth 0 index 0%nat))
                   + mat3_get m i 1 * inject_Z (Z.of_nat (nth 1 index 0%nat))
                   + mat3_get m i 2 * inject_Z (Z.of_nat (nth 2 index 0%nat))))
    (seq 0 3).

(** [TransformPhysicalPointToContinuousIndex]: with
    [m_PhysicalPointToIndex] the inverse of [m_IndexToPhysicalPoint],
    [cindex[i] = sum_j m_PhysicalPointToIndex[i][j] * (point[j] - origin[j])]. *)
Definition TransformPhysicalPointToContinuousIndex (g : Geometry) (point : Point) : list Q :=
  let m := mat3_inverse (IndexToPhysicalPoint g) in
  let v := map (fun j => nth j point 0 - nth j (origin g) 0) (seq 0 3) in
  map (fun i => mat3_get m i 0 * nth 0 v 0 + mat3_get m i 1 * nth 1 v 0
                + mat3_get m i 2 * nth 2 v 0)
    (seq 0 3).

(** [ImageFunction::IsInsideBuffer] on a continuous index: every
    coordinate in [[StartIndex - 0.5, EndIndex + 0.5)], with start 0 and
    end [size - 1]. *)
Definition IsInsideBuffer (g : Geometry) (index : list Q) : bool :=
  forallb (fun dim =>
             Qle_bool (0 - (1 # 2)) (nth dim index 0)
             && negb (Qle_bool (inject_Z (Z.of_nat (nth dim (size g) 0%nat) - 1) + (1 # 2))
                               (nth dim index 0)))
    (seq 0 3).

(** [GetPixel] at an (i, j, k) index of the buffer. *)
Definition GetPixel (img : Image Q) (index : list Z) : Q :=
  let nx := nth 0 (size (geom img)) 0%nat in
  let ny := nth 1 (size (geom img)) 0%nat in
  px 0 img (Z.to_nat (nth 0 index 0%Z)
            + nx * (Z.to_nat (nth 1 index 0%Z) + ny * Z.to_nat (nth 2 index 0%Z)))%nat.

(** One step of the inner loop of [LinearInterpolateImageFunction]'s
    evaluation: bit [upper & 1] of the neighbour counter chooses the upper
    neighbour (clamped to [EndIndex], weight [distance]) or the lower one
    (clamped to [StartIndex], weight [1 - distance]). *)
Definition neighbour_step (baseIndex : list Z) (distance : list Q) (EndIndex : list Z)
    (acc : Q * nat * list Z) (dim : nat) : Q * nat * list Z :=
  let '(overlap, upper, neighIndex) := acc in
  let b := nth dim baseIndex 0%Z in
  if Nat.odd upper then
    (overlap * nth dim distance 0, Nat.div2 upper,
     neighIndex ++ [Z.min (b + 1) (nth dim EndIndex 0%Z)])
  else
    (overlap * (1 - nth dim distance 0), Nat.div2 upper,
     neighIndex ++ [Z.max b 0]).

(** [LinearInterpolateImageFunction::EvaluateAtContinuousIndex]: the sum
    over the [2^3] neighbours of [overlap * GetPixel(neighIndex)]. (ITK
    unrolls this loop for three dimensions; the unrolled code computes the
    same value.) *)
Definition LinearEvaluateAtContinuousIndex (img : Image Q) (index : list Q) : Q :=
  let EndIndex := map (fun n => Z.of_nat n - 1)%Z (size (geom img)) in
  let baseIndex := map Qfloor index in
  let distance := map (fun dim => nth dim index 0 - inject_Z (nth dim baseIndex 0%Z)) (seq 0 3) in
  fold_left (fun value counter =>
               let '(overlap, _, neighIndex) :=
                 fold_left (neighbour_step baseIndex distance EndIndex) (seq 0 3) (1, counter, []) in
               value + overlap * GetPixel img neighIndex)
            (seq 0 8) 0.

(** [NearestNeighborInterpolateImageFunction]: the voxel at the index
    rounded half up. *)
Definition NearestEvaluateAtContinuousIndex (img : Image Q) (index : list Q) : Q :=
  GetPixel img (map (fun c => Qfloor (c + (1 # 2))) index).

Inductive InterpolatorEnum := sitkNearestNeighbor | sitkLinear.

(** The settings of a [sitk.ResampleImageFilter]: [SetReferenceImage]
    copies the reference's size, spacing, origin and direction; the
    transform is its [TransformPoint] map. *)
Record ResampleImageFilter := mkResampleImageFilter {
  ReferenceImage : Geometry;
  Transform : Point -> Point;
  Interpolator : InterpolatorEnum;
  DefaultPixelValue : Q
}.

Definition Evaluate (interp : InterpolatorEnum) : Image Q -> list Q -> Q :=
  match interp with
  | sitkNearestNeighbor => NearestEvaluateAtContinuousIndex
  | sitkLinear => LinearEvaluateAtContinuousIndex
  end.

(** [ResampleImageFilter.Execute(input)]: for each output index, the
    output point, through the transform, as a continuous index of the
    input; the interpolated value when it is inside the input's buffer,
    the default pixel value otherwise. *)
Definition Execute (resampler : ResampleImageFilter) (input : Image Q) : Image Q :=
  let g := ReferenceImage resampler in
  mkImage g
    (tabulate (npix g) (fun p =>
       let outputPoint := TransformIndexToPhysicalPoint g (index_of g p) in
       let inputPoint := Transform resampler outputPoint in
       let inputIndex := TransformPhysicalPointToContinuousIndex (geom input) inputPoint in
       if IsInsideBuffer (geom input) inputIndex
       then Evaluate (Interpolator resampler) input inputIndex
       else DefaultPixelValue resampler)).

(* ================================================================= *)
(** ** subtract.py and register.py: resampling and subtraction *)

(** [subtract_postop_from_preop], on the images read from disk and the
    transform read from the .tfm file; the image written to disk is the
    returned one, [None] where SimpleITK throws. *)
Definition subtract_postop_from_preop (preop postop : Image Q) (transform : Point -> Point)
  : option (Image Q) :=
  (* Resample postop into preop space *)
  let resampler := mkResampleImageFilter (geom preop) transform sitkLinear 0 in
  let postop := Execute resampler postop in
  (* Subtract postop from preop (preop - postop) *)
  binary_op Qminus preop postop.

(** The resampling at the end of [register_and_resample], given the
    transform the registration returned. *)
Definition register_resample_moving (fixed moving : Image Q) (final_transform : Point -> Point)
  : Image Q :=
  let resampler := mkResampleImageFilter (geom fixed) final_transform sitkLinear 0 in
  Execute resampler moving.

(** Two volumes of different extents: one voxel and two voxels. *)
Definition one_voxel_volume : Image Q :=
  mkImage (mkGeometry [1; 1; 1]%nat [1; 1; 1] [0; 0; 0] identity_direction) [5].

Definition two_voxel_volume : Image Q :=
  mkImage (mkGeometry [2; 1; 1]%nat [1; 1; 1] [0; 0; 0] identity_direction) [2; 7].

(* ================================================================= *)
(** ** ITK's Otsu threshold *)

(** [sitk.OtsuThreshold]'s default [numberOfHistogramBins], and the
    [MarginalScale] of ITK's [ImageToHistogramFilter]. *)
Definition numberOfHistogramBins : nat := 128.
Definition MarginalScale : Q := 100.

(** Sums over a range of bins (kept in lowest terms). *)
Definition Qsum (f : nat -> Q) (lo n : nat) : Q :=
  fold_right (fun b acc => Qred (f b + acc)) 0 (seq lo n).

(** The image minimum and maximum, as ITK's histogram filter finds them. *)
Definition histogram_minimum (values : list Q) : Q :=
  fold_left (fun m v => if Qle_bool m v then m else v) values (hd 0 values).
Definition histogram_maximum (values : list Q) : Q :=
  fold_left (fun m v => if Qle_bool v m then m else v) values (hd 0 values).

(** The histogram's lower bound and bin width: the upper bound is the
    maximum raised by the margin [(max - min) / bins / MarginalScale]
    (real-valued pixels), and the bins are equal. *)
Definition histogram_bin_width (values : list Q) : Q :=
  let mn := histogram_minimum values in
  let mx := histogram_maximum values in
  let mx := mx + (mx - mn) / inject_Z (Z.of_nat numberOfHistogramBins) / MarginalScale in
  (mx - mn) / inject_Z (Z.of_nat numberOfHistogramBins).

(** [Histogram::GetIndex]: the bin whose [[BinMin, BinMax)] holds [v]. *)
Definition bin_of (mn w v : Q) : nat :=
  Nat.min (numberOfHistogramBins - 1) (Z.to_nat (Qfloor ((v - mn) / w))).

(** The frequency of each bin. *)
Definition histogram_frequencies (values : list Q) : list nat :=
  let mn := histogram_minimum values in
  let w := histogram_bin_width values in
  tabulate numberOfHistogramBins
    (fun b => length (filter (fun v => Nat.eqb (bin_of mn w v) b) values)).

(** [OtsuMultipleThresholdsCalculator] with one threshold, on a
    histogram given by its lower bound [mn], bin width [w] and
    frequencies: the measurement of a bin is its centre; threshold index
    [k] splits the bins into [0..k] and [k+1..]; the between-class
    variance of [k] is [sum_j freq_j * (mean_j - globalMean)^2 / total]
    (ITK updates the class sums incrementally as [k] grows); the first
    [k] of largest variance is kept, and the threshold is its [BinMax]. *)
Section OtsuCalculator.
Variables (mn w : Q) (freqs : list nat).

Definition freqQ (b : nat) : Q := inject_Z (Z.of_nat (nth b freqs 0%nat)).
Definition GetMeasurement (b : nat) : Q := mn + (inject_Z (Z.of_nat b) + (1 # 2)) * w.
Definition GetBinMax (b : nat) : Q := mn + inject_Z (Z.of_nat (S b)) * w.
Definition weighted (b : nat) : Q := GetMeasurement b * freqQ b.

Definition globalFrequency : Q := Qsum freqQ 0 (length freqs).
Definition globalMean : Q := Qsum weighted 0 (length freqs) / globalFrequency.

Definition varBetween (k : nat) : Q :=
  let f0 := Qsum freqQ 0 (S k) in
  let f1 := globalFrequency - f0 in
  let m0 := Qsum weighted 0 (S k) / f0 in
  let m1 := (Qsum weighted 0 (length freqs) - Qsum weighted 0 (S k)) / f1 in
  (f0 * ((m0 - globalMean) * (m0 - globalMean))
   + f1 * ((m1 - globalMean) * (m1 - globalMean))) / globalFrequency.

Definition max_step (best : nat * Q) (k : nat) : nat * Q :=
  if Qgtb (varBetween k) (snd best) then (k, varBetween k) else best.

Definition maxVarThresholdIndex : nat :=
  fst (fold_left max_step (seq 1 (length freqs - 2)) (0%nat, varBetween 0)).

Definition otsu_threshold_of_histogram : Q := GetBinMax maxVarThresholdIndex.

End OtsuCalculator.

(** The threshold [sitk.OtsuThreshold] computes for a pixel buffer. *)
Definition itk_otsu_threshold (values : list Q) : Q :=
  otsu_threshold_of_histogram (histogram_minimum values) (histogram_bin_width values)
    (histogram_frequencies values).

(** Two well-separated clusters of very different sizes: 2000 voxels at
    0 and 200 at 1, against one voxel at 10. *)
Definition imbalanced_clusters : list Q :=
  repeat 0 2000 ++ repeat 1 200 ++ [10].

(** A volume of two values, three voxels at 2 and two at 7. *)
Definition two_valued_volume : list Q := [2; 2; 2; 7; 7].

(* ================================================================= *)
(** ** The batch drivers ([main] of binarize.py, register.py, subtract.py) *)

(** A case directory, by an identifier, and the file names the drivers use. *)
Definition Path := nat.

Inductive FileName :=
| preop_nii_gz                       (* preop.nii.gz *)
| postop_nii_gz                      (* postop.nii.gz *)
| diff_nii_gz                        (* diff.nii.gz *)
| postop_transformed_nii_gz          (* postop_transformed.nii.gz *)
| postop_to_preop_tfm                (* postop_to_preop.tfm *)
| burrhole_mask_autoannot_nii_gz     (* burrhole_mask_autoannot.nii.gz *)
| other_file (n : nat).

Definition FileName_eq_dec (a b : FileName) : {a = b} + {a <> b}.
Proof. decide equality. apply Nat.eq_dec. Defined.

Definition FileName_eqb (a b : FileName) : bool :=
  if FileName_eq_dec a b then true else false.

Section Drivers.
Variable Content : Type.

(** The files on disk: the content of file [n] of directory [d], if any. *)
Definition FileSystem := Path -> FileName -> option Content.

(** [(case_dir / name).exists()] *)
Definition file_exists (fs : FileSystem) (d : Path) (n : FileName) : bool :=
  match fs d n with Some _ => true | None => false end.

Definition write_file (fs : FileSystem) (d : Path) (n : FileName) (c : Content) : FileSystem :=
  fun d' n' => if Nat.eqb d' d && FileName_eqb n' n then Some c else fs d' n'.

(** The per-case function writes its outputs into [case_dir] in turn;
    [None] is an exception (raised by the computation or by the write),
    which ends the case: the [except] of the loop prints a warning. *)
Fixpoint write_outputs (fs : FileSystem) (d : Path) (outputs : list FileName)
    (results : list (option Content)) : FileSystem :=
  match outputs, results with
  | n :: outputs', Some c :: results' => write_outputs (write_file fs d n c) d outputs' results'
  | _, _ => fs
  end.

(** The loop of [main]: a case is skipped ([continue]) when [skip] holds
    on the current files; otherwise the per-case function runs on it.
    [compute fs d] is what the per-case function computes from the files
    of [d], one result per output. The second component is the list of
    cases the per-case function ran on. *)
Fixpoint main_loop (skip : FileSystem -> Path -> bool) (outputs : list FileName)
    (compute : FileSystem -> Path -> list (option Content))
    (fs : FileSystem) (case_dirs : list Path) : FileSystem * list Path :=
  match case_dirs with
  | [] => (fs, [])
  | case_dir :: rest =>
      if skip fs case_dir then main_loop skip outputs compute fs rest
      else
        let fs' := write_outputs fs case_dir outputs (compute fs case_dir) in
        let '(fs'', ran) := main_loop skip outputs compute fs' rest in
        (fs'', case_dir :: ran)
  end.

(** binarize.py: [if output_mask_path.exists(): continue] *)
Definition binarize_skip (fs : FileSystem) (d : Path) : bool :=
  file_exists fs d burrhole_mask_autoannot_nii_gz.

Definition binarize_main (create_burrhole_mask : FileSystem -> Path -> list (option Content))
    (fs : FileSystem) (case_dirs : list Path) : FileSystem * list Path :=
  main_loop binarize_skip [burrhole_mask_autoannot_nii_gz] create_burrhole_mask fs case_dirs.

(** register.py: [if output_image_path.exists() and
    output_transform_path.exists(): continue] *)
Definition register_skip (fs : FileSystem) (d : Path) : bool :=
  file_exists fs d postop_transformed_nii_gz && file_exists fs d postop_to_preop_tfm.

Definition register_main (register_and_resample : FileSystem -> Path -> list (option Content))
    (fs : FileSystem) (case_dirs : list Path) : FileSystem * list Path :=
  main_loop register_skip [postop_transformed_nii_gz; postop_to_preop_tfm]
    register_and_resample fs case_dirs.

(** subtract.py: [if output_diff_path.exists(): continue] *)
Definition subtract_skip (fs : FileSystem) (d : Path) : bool :=
  file_exists fs d diff_nii_gz.

Definition subtract_main (subtract_postop_from_preop : FileSystem -> Path -> list (option Content))
    (fs : FileSystem) (case_dirs : list Path) : FileSystem * list Path :=
  main_loop subtract_skip [diff_nii_gz] subtract_postop_from_preop fs case_dirs.

End Drivers.

Arguments file_exists {Content}.
Arguments write_file {Content}.
Arguments write_outputs {Content}.
Arguments main_loop {Content}.
Arguments binarize_skip {Content}.
Arguments binarize_main {Content}.
Arguments register_skip {Content}.
Arguments register_main {Content}.
Arguments subtract_skip {Content}.
Arguments subtract_main {Content}.

(** Three cases: case 1 has every output already, case 2 only the
    registered image. *)
Definition sample_files : FileSystem nat :=
  fun d n =>
    match d, n with
    | 1%nat, (diff_nii_gz | postop_transformed_nii_gz | postop_to_preop_tfm
              | burrhole_mask_autoannot_nii_gz) => Some 1%nat
    | 2%nat, postop_transformed_nii_gz => Some 2%nat
    | _, (preop_nii_gz | postop_nii_gz) => Some 0%nat
    | _, _ => None
    end.

(* ================================================================= *)
(** ** More inputs and helpers for the theorems *)

(** The determinant of a 3 x 3 matrix given row-major (the [det] of
    [mat3_inverse]). *)
Definition mat3_det (m : list Q) : Q :=
  mat3_get m 0 0 * (mat3_get m 1 1 * mat3_get m 2 2 - mat3_get m 1 2 * mat3_get m 2 1)
  - mat3_get m 0 1 * (mat3_get m 1 0 * mat3_get m 2 2 - mat3_get m 1 2 * mat3_get m 2 0)
  + mat3_get m 0 2 * (mat3_get m 1 0 * mat3_get m 2 1 - mat3_get m 1 1 * mat3_get m 2 0).

(** The two SimpleITK algorithms with the Otsu threshold computed as ITK
    does. *)
Definition itk_otsu_filters : SitkFilters := {|
  closing_buffer := fun _ _ buf => buf;
  otsu_threshold_value := itk_otsu_threshold
|}.

(** A volume of two voxels, 2 and 7. *)
Definition two_value_image : Image Q :=
  mkImage (mkGeometry [2; 1; 1]%nat [1; 1; 1] [0; 0; 0] identity_direction) [2; 7].

(** The same two voxels on an anisotropic grid with an oblique
    (axis-permuting) direction matrix and a shifted origin. *)
Definition oblique_volume : Image Q :=
  mkImage (mkGeometry [2; 1; 1]%nat [(1 # 2); 2; 3] [10; -5; 0] permuted_direction) [2; 7].

(** The skip test of a driver that skips a case once all of its outputs
    exist. *)
Definition all_outputs_exist {Content : Type} (outputs : list FileName)
    (fs : FileSystem Content) (d : Path) : bool :=
  forallb (file_exists fs d) outputs.

(* ================================================================= *)
(** ** The file system: case search and export_for_nnunet.py *)

Open Scope string_scope.

(** A path, by its components from the file-system root. *)
Definition PyPath := list String.string.

(** [PurePath] comparison: the component lists, lexicographically, each
    component by code points. *)
Fixpoint path_compare (a b : PyPath) : comparison :=
  match a, b with
  | [], [] => Eq
  | [], _ :: _ => Lt
  | _ :: _, [] => Gt
  | x :: a', y :: b' =>
      match String.compare x y with
      | Eq => path_compare a' b'
      | c => c
      end
  end.

Definition path_ltb (a b : PyPath) : bool :=
  match path_compare a b with Lt => true | _ => false end.

Definition path_eqb (a b : PyPath) : bool :=
  match path_compare a b with Eq => true | _ => false end.

(** [sorted(paths)]: Python's sort is stable and orders by [<]; an
    insertion sort placing each element after every element not greater
    than it. *)
Fixpoint insert_path (x : PyPath) (l : list PyPath) : list PyPath :=
  match l with
  | [] => [x]
  | y :: l' => if path_ltb x y then x :: l else y :: insert_path x l'
  end.

Definition py_sorted (l : list PyPath) : list PyPath :=
  fold_left (fun acc x => insert_path x acc) l [].

(** The dictionary [create_dataset_json] dumps to dataset.json. *)
Record DatasetJson := mkDatasetJson {
  json_labels : list (String.string * Z);
  json_channel_names : list (String.string * String.string);
  numTraining : nat;
  file_ending : String.string
}.

(** What a path names on disk: a file of the input data (content of
    type [C]), the JSON file written by the script, or a directory. *)
Inductive Entry (C : Type) :=
| EFile (c : C)
| EJson (j : DatasetJson)
| EDir.
Arguments EFile {C}. Arguments EJson {C}. Arguments EDir {C}.

(** A disk: the entries present, by path (the parent of every entry is a
    directory entry, the root apart, as on a real file system). *)
Definition Disk (C : Type) := list (PyPath * Entry C).

Definition disk_lookup {C} (disk : Disk C) (p : PyPath) : option (Entry C) :=
  match find (fun e => path_eqb (fst e) p) disk with
  | Some (_, e) => Some e
  | None => None
  end.

(** [p.exists()], [p.is_dir()], [p.is_file()] *)
Definition path_exists {C} (disk : Disk C) (p : PyPath) : bool :=
  match disk_lookup disk p with Some _ => true | None => false end.

Definition is_dir {C} (disk : Disk C) (p : PyPath) : bool :=
  match disk_lookup disk p with Some EDir => true | _ => false end.

Definition is_file {C} (disk : Disk C) (p : PyPath) : bool :=
  match disk_lookup disk p with Some (EFile _) | Some (EJson _) => true | _ => false end.

(** [p.name] *)
Definition path_name (p : PyPath) : String.string := last p "".

(** [p.iterdir()]: the entries whose parent is [p], in the order of the
    listing (every caller sorts them or only tests membership). *)
Definition iterdir {C} (disk : Disk C) (p : PyPath) : list PyPath :=
  filter (fun q => match q with [] => false | _ :: _ => path_eqb (removelast q) p end)
    (map fst disk).

(** [name in names] for a list or set of names. *)
Definition name_in (n : String.string) (names : list String.string) : bool :=
  existsb (String.eqb n) names.

(** [os.walk(top)]: a triple [(dirpath, dirnames, filenames)] for [top]
    and for every directory below it, [dirnames] the subdirectories and
    [filenames] the other entries; nothing when [top] is not a directory.
    The directories come in the order of the listing (the scripts sort
    what they collect). *)
Definition os_walk {C} (disk : Disk C) (top : PyPath)
  : list (PyPath * list String.string * list String.string) :=
  map (fun d => (d, map path_name (filter (is_dir disk) (iterdir disk d)),
                    map path_name (filter (fun q => negb (is_dir disk q)) (iterdir disk d))))
    (filter (fun d => is_dir disk d && path_eqb (firstn (length top) d) top) (map fst disk)).

(** The loop of [find_case_dirs], for the test each script makes on
    [filenames = set(filenames)]:
<<
    case_dirs = []
    for dirpath, dirnames, filenames in os.walk(root):
        filenames = set(filenames)
        if <wanted(filenames)>:
            case_dirs.append(Path(dirpath))
    return sorted(case_dirs)
>> *)
Definition find_case_dirs_by {C} (wanted : list String.string -> bool) (disk : Disk C)
    (root : PyPath) : list PyPath :=
  let case_dirs :=
    fold_left (fun case_dirs '(dirpath, _, filenames) =>
                 if wanted filenames then case_dirs ++ [dirpath] else case_dirs)
              (os_walk disk root) [] in
  py_sorted case_dirs.

(** binarize.py: preop.nii.gz and diff.nii.gz *)
Definition binarize_find_case_dirs {C} : Disk C -> PyPath -> list PyPath :=
  find_case_dirs_by (fun filenames =>
    name_in "preop.nii.gz" filenames && name_in "diff.nii.gz" filenames).

(** register.py: preop.nii.gz and postop.nii.gz *)
Definition register_find_case_dirs {C} : Disk C -> PyPath -> list PyPath :=
  find_case_dirs_by (fun filenames =>
    name_in "preop.nii.gz" filenames && name_in "postop.nii.gz" filenames).

(** subtract.py: preop.nii.gz, postop.nii.gz and postop_to_preop.tfm *)
Definition subtract_find_case_dirs {C} : Disk C -> PyPath -> list PyPath :=
  find_case_dirs_by (fun filenames =>
    name_in "preop.nii.gz" filenames && name_in "postop.nii.gz" filenames
    && name_in "postop_to_preop.tfm" filenames).

(* ================================================================= *)
(** ** export_for_nnunet.py *)

(** [{f.name for f in child.iterdir() if f.is_file()}] *)
Definition child_file_names {C} (disk : Disk C) (child : PyPath) : list String.string :=
  map path_name (filter (is_file disk) (iterdir disk child)).

Definition find_cases_with_label {C} (disk : Disk C) (root : PyPath) : list PyPath :=
  if negb (is_dir disk root) then [] else
  fold_left (fun cases child =>
               if negb (is_dir disk child) then cases else
               let files := child_file_names disk child in
               if name_in "preop.nii.gz" files && name_in "burrhole_mask_autoannot.nii.gz" files
               then cases ++ [child] else cases)
            (py_sorted (iterdir disk root)) [].

Definition find_cases_without_label {C} (disk : Disk C) (root : PyPath) : list PyPath :=
  if negb (is_dir disk root) then [] else
  fold_left (fun cases child =>
               if negb (is_dir disk child) then cases else
               let files := child_file_names disk child in
               if name_in "preop.nii.gz" files then cases ++ [child] else cases)
            (py_sorted (iterdir disk root)) [].

(** Writing an entry at [p] (replacing what was there). *)
Definition disk_write {C} (disk : Disk C) (p : PyPath) (e : Entry C) : Disk C :=
  filter (fun x => negb (path_eqb (fst x) p)) disk ++ [(p, e)].

(** A step of the script: it goes on with the new disk, or raises an
    exception, which ends the script with the disk as it is. *)
Inductive Outcome (C : Type) :=
| Ok (disk : Disk C)
| Raised (disk : Disk C).
Arguments Ok {C}. Arguments Raised {C}.

Definition bind_io {C} (o : Outcome C) (k : Disk C -> Outcome C) : Outcome C :=
  match o with Ok disk => k disk | Raised disk => Raised disk end.

(** [p.mkdir(parents=True, exist_ok=True)]: each missing directory from
    the top down to [p] is created; an existing non-directory on the way
    raises. *)
Definition mkdir_parents {C} (disk : Disk C) (p : PyPath) : Outcome C :=
  fold_left (fun o n => bind_io o (fun disk =>
               let q := firstn n p in
               if is_dir disk q then Ok disk
               else if path_exists disk q then Raised disk
               else Ok (disk_write disk q EDir)))
            (seq 1 (length p)) (Ok disk).

Definition ensure_dir {C} (disk : Disk C) (p : PyPath) : Outcome C :=
  if negb (path_exists disk p) then mkdir_parents disk p else Ok disk.

(** [shutil.copy(src, dst)]: into [dst / src.name] when [dst] is a
    directory; it raises unless [src] is a file, the destination is not
    [src] itself, its parent is a directory and it is not a directory. *)
Definition copy {C} (disk : Disk C) (src dst : PyPath) : Outcome C :=
  let dst := if is_dir disk dst then dst ++ [path_name src] else dst in
  match disk_lookup disk src with
  | None | Some EDir => Raised disk
  | Some e =>
      if path_eqb src dst then Raised disk
      else if is_dir disk (removelast dst) && negb (is_dir disk dst)
      then Ok (disk_write disk dst e) else Raised disk
  end.

(** [open(path, "w")] and [json.dump]: the parent must be a directory and
    the path not a directory. *)
Definition write_json {C} (disk : Disk C) (p : PyPath) (j : DatasetJson) : Outcome C :=
  if is_dir disk (removelast p) && negb (is_dir disk p)
  then Ok (disk_write disk p (EJson j)) else Raised disk.

Definition create_dataset_json {C} (disk : Disk C) (target_root : PyPath) (num_training : nat)
  : Outcome C :=
  let dataset_json :=
    mkDatasetJson [("background", 0%Z); ("burrhole", 1%Z)] [("0", "CT")]
                  num_training ".nii.gz" in
  let json_path := target_root ++ ["dataset.json"] in
  write_json disk json_path dataset_json.

(** How the script ends: [sys.exit(code)] or the end of [main] (code 0),
    or an uncaught exception. *)
Inductive ExitStatus := ExitCode (code : nat) | UncaughtException.

(** [main], for the command line [argv]; [resolve] is
    [Path(_).expanduser().resolve()]. *)
Definition export_main {C} (resolve : String.string -> PyPath) (argv : list String.string)
    (disk : Disk C) : ExitStatus * Disk C :=
  if length argv <? 3 then (ExitCode 1, disk) else
  let source_root := resolve (nth 1 argv "") in
  let target_root := resolve (nth 2 argv "") in
  if negb (is_dir disk source_root) then (ExitCode 1, disk) else
  let train_root := source_root ++ ["train"] in
  let test_root := source_root ++ ["test"] in
  if negb (is_dir disk train_root) then (ExitCode 1, disk) else
  let imagesTr := target_root ++ ["imagesTr"] in
  let labelsTr := target_root ++ ["labelsTr"] in
  let imagesTs := target_root ++ ["imagesTs"] in
  let run :=
    bind_io (ensure_dir disk target_root) (fun disk =>
    bind_io (ensure_dir disk imagesTr) (fun disk =>
    bind_io (ensure_dir disk labelsTr) (fun disk =>
    bind_io (ensure_dir disk imagesTs) (fun disk =>
    let train_case_dirs := find_cases_with_label disk train_root in
    let test_case_dirs := find_cases_without_label disk test_root in
    bind_io
      (fold_left (fun o case_dir => bind_io o (fun disk =>
         let case_id := path_name case_dir in
         let preop_src := case_dir ++ ["preop.nii.gz"] in
         let label_src := case_dir ++ ["burrhole_mask_autoannot.nii.gz"] in
         let img_dst := imagesTr ++ [String.append case_id "_0000.nii.gz"] in
         let label_dst := labelsTr ++ [String.append case_id ".nii.gz"] in
         bind_io (copy disk preop_src img_dst) (fun disk =>
         copy disk label_src label_dst)))
         train_case_dirs (Ok disk)) (fun disk =>
    bind_io
      (fold_left (fun o case_dir => bind_io o (fun disk =>
         let case_id := path_name case_dir in
         let preop_src := case_dir ++ ["preop.nii.gz"] in
         let img_dst := imagesTs ++ [String.append case_id "_0000.nii.gz"] in
         copy disk preop_src img_dst))
         test_case_dirs (Ok disk)) (fun disk =>
    create_dataset_json disk target_root (length train_case_dirs))))))) in
  match run with
  | Ok disk => (ExitCode 0, disk)
  | Raised disk => (UncaughtException, disk)
  end.

(** A source tree: /data/train/{a,b}, /data/test/c; case b lacks its
    label; the export goes to /out. *)
Definition sample_disk : Disk nat :=
  [ (["data"], EDir); (["data"; "train"], EDir); (["data"; "test"], EDir);
    (["data"; "train"; "b"], EDir); (["data"; "train"; "b"; "preop.nii.gz"], EFile 3%nat);
    (["data"; "train"; "a"], EDir); (["data"; "train"; "a"; "preop.nii.gz"], EFile 1%nat);
    (["data"; "train"; "a"; "burrhole_mask_autoannot.nii.gz"], EFile 2%nat);
    (["data"; "test"; "c"], EDir); (["data"; "test"; "c"; "preop.nii.gz"], EFile 4%nat) ].

Definition sample_resolve (s : String.string) : PyPath :=
  if String.eqb s "data" then ["data"] else ["out"].

Definition path_le (a b : PyPath) : Prop := path_ltb b a = false.

Definition strictly_sorted (l : list PyPath) : Prop :=
  Sorted (fun a b => path_compare a b = Lt) l.

Definition copy_all {C} (pairs : list (PyPath * PyPath)) (o : Outcome C) : Outcome C :=
  fold_left (fun o st => bind_io o (fun d => copy d (fst st) (snd st))) pairs o.

(** No path listed twice. *)
Fixpoint nodup_paths (l : list PyPath) : bool :=
  match l with
  | [] => true
  | p :: l' => negb (existsb (path_eqb p) l') && nodup_paths l'
  end.

(* ================================================================= *)
(** * Theorems *)

(** ** General lemmas *)

Lemma tabulate_nth {A} (n p : nat) (f : nat -> A) (d : A) :
  (p < n)%nat -> nth p (tabulate n f) d = f p.
Proof.
  intros Hp. unfold tabulate.
  rewrite nth_indep with (d' := f 0%nat) by (rewrite length_map, length_seq; exact Hp).
  rewrite map_nth, seq_nth by exact Hp. reflexivity.
Qed.

Lemma tabulate_length {A} (n : nat) (f : nat -> A) : length (tabulate n f) = n.
Proof. unfold tabulate. rewrite length_map, length_seq. reflexivity. Qed.

Lemma py_max_range3_lt (key : nat -> Q) : (py_max_range3 key < 3)%nat.
Proof.
  unfold py_max_range3.
  destruct (Qgtb (key 1%nat) (key 0%nat)), (Qgtb _ _); lia.
Qed.

Lemma si_axis_of_lt (d : list Q) : (si_axis_of d < 3)%nat.
Proof. apply py_max_range3_lt. Qed.

Lemma npix_3 (g : Geometry) nx ny nz :
  size g = [nx; ny; nz] -> npix g = (nx * ny * nz)%nat.
Proof. intros H. unfold npix. rewrite H. simpl. lia. Qed.

Lemma index_of_3 (g : Geometry) nx ny nz p :
  size g = [nx; ny; nz] ->
  index_of g p = [p mod nx; (p / nx) mod ny; p / (nx * ny)]%nat.
Proof. intros H. unfold index_of. rewrite H. reflexivity. Qed.

(** Every coordinate of a voxel of the grid lies below its extent. *)
Lemma index_of_bound (g : Geometry) nx ny nz p a :
  size g = [nx; ny; nz] -> (p < nx * ny * nz)%nat -> (a < 3)%nat ->
  (nth a (index_of g p) 0 < nth a (size g) 0)%nat.
Proof.
  intros Hs Hp Ha. rewrite (index_of_3 g nx ny nz p Hs), Hs.
  assert (nx <> 0)%nat by (intro; subst; lia).
  assert (ny <> 0)%nat by (intro; subst; lia).
  destruct a as [|[|[|a]]]; simpl.
  - apply Nat.mod_upper_bound; assumption.
  - apply Nat.mod_upper_bound; assumption.
  - apply Nat.Div0.div_lt_upper_bound. lia.
  - lia.
Qed.

Lemma axis_map_nth (a i j k : nat) :
  (a < 3)%nat -> nth (axis_map a) [k; j; i] 0%nat = nth a [i; j; k] 0%nat.
Proof. intros Ha. destruct a as [|[|[|a]]]; simpl; try reflexivity; lia. Qed.

(** [int()] agrees with the floor on non-negative quotients. *)
Lemma py_int_floor (q : Q) : 0 <= q -> py_int q = Qfloor q.
Proof.
  destruct q as [n d]. unfold py_int, Qfloor, Qle. simpl. intros H.
  apply Z.quot_div_nonneg; lia.
Qed.

Lemma depth_slices_of_bounds (depth : Q) (g : Geometry) :
  let a := si_axis_of (direction g) in
  let n := Z.of_nat (nth a (size g) 0%nat) in
  (1 <= n)%Z ->
  depth_slices_of depth g = Z.min n (Z.max 1 (py_int (depth / nth a (spacing g) 0))) /\
  (1 <= depth_slices_of depth g <= n)%Z.
Proof.
  intros a n Hn. unfold depth_slices_of. fold a. fold n.
  destruct (Z.ltb_spec (py_int (depth / nth a (spacing g) 0)) 1);
  [destruct (Z.ltb_spec n 1) | destruct (Z.ltb_spec n (py_int (depth / nth a (spacing g) 0)))];
  lia.
Qed.

Lemma index_match {B} (g : Geometry) nx ny nz p a (f : nat -> B) (z : B) :
  size g = [nx; ny; nz] -> (a < 3)%nat ->
  match index_of g p with
  | [i; j; k] => f (nth (axis_map a) [k; j; i] 0%nat)
  | _ => z
  end = f (nth a (index_of g p) 0%nat).
Proof.
  intros Hs Ha. rewrite (index_of_3 g nx ny nz p Hs).
  rewrite axis_map_nth by exact Ha. reflexivity.
Qed.

(** ** AnatomicalAxisLocator: axis selection *)

(** C1: with the identity direction the locator picks index axis 2 with
    positive sign; but the code reads row [j] of the row-major direction
    matrix, not column [j].  On the orthonormal permuted direction, whose
    column 1 is the superior axis, the code picks index axis 0 while the
    column rule of the spec picks index axis 1. *)
Theorem si_axis_reads_rows_not_columns :
  si_axis_of identity_direction = 2%nat /\
  Qgtb (si_dir_of identity_direction) 0 = true /\
  orthonormalb permuted_direction = true /\
  si_axis_by_columns permuted_direction = 1%nat /\
  Qgtb (si_dir_by_columns permuted_direction) 0 = true /\
  si_axis_of permuted_direction = 0%nat.
Proof. vm_compute. repeat split. Qed.

(** ** AnatomicalAxisLocator: the head-cap slab *)

Theorem head_cap_mask_slab (depth : Q) {V} (img : Image V) nx ny nz p :
  size (geom img) = [nx; ny; nz] ->
  (p < nx * ny * nz)%nat ->
  0 <= depth / nth (si_axis_of (direction (geom img))) (spacing (geom img)) 0 ->
  let g := geom img in
  let a := si_axis_of (direction g) in
  let n := Z.of_nat (nth a (size g) 0%nat) in
  let d := Z.min n (Z.max 1 (Qfloor (depth / nth a (spacing g) 0))) in
  let idx := Z.of_nat (nth a (index_of g p) 0%nat) in
  px 0%Z (compute_head_cap_mask_depth depth img) p =
    if Qgtb (si_dir_of (direction g)) 0
    then (if (n - d <=? idx)%Z then 1%Z else 0%Z)
    else (if (idx <? d)%Z then 1%Z else 0%Z).
Proof.
  intros Hs Hp Hq g a n d idx.
  assert (Ha : (a < 3)%nat) by apply si_axis_of_lt.
  assert (Hidx : (nth a (index_of g p) 0 < nth a (size g) 0)%nat)
    by (apply (index_of_bound g nx ny nz p a Hs Hp Ha)).
  assert (Hn : (1 <= n)%Z) by (unfold n; lia).
  destruct (depth_slices_of_bounds depth g Hn) as [Hd Hb]. fold a n in Hd, Hb.
  rewrite py_int_floor in Hd by exact Hq. fold d in Hd.
  unfold compute_head_cap_mask_depth, px. fold g.
  destruct (head_cap_range depth g) as [s e] eqn:Hr. cbn [pixels].
  rewrite tabulate_nth by (rewrite (npix_3 g nx ny nz Hs); exact Hp).
  fold a. rewrite (index_match g nx ny nz p a (fun a => if in_slice s (e + 1) a then 1%Z else 0%Z) 0%Z Hs Ha).
  unfold head_cap_range in Hr. fold a n in Hr. rewrite Hd in Hr. rewrite Hd in Hb.
  assert (Hx : (0 <= idx < n)%Z) by (unfold idx, n; lia).
  unfold in_slice. fold idx. clearbody idx d n. set (x := idx) in *.
  destruct (Qgtb (si_dir_of (direction g)) 0); injection Hr as <- <-.
  - destruct (Z.leb_spec (Z.max 0 (n - d)) x); destruct (Z.ltb_spec x (n - 1 + 1));
    destruct (Z.leb_spec (n - d) x); simpl; lia.
  - destruct (Z.leb_spec 0 x); destruct (Z.ltb_spec x (Z.min (d - 1) (n - 1) + 1));
    destruct (Z.ltb_spec x d); simpl; lia.
Qed.

(** C3 as stated: with 0.7 mm slices the spec's [round(100/0.7) = 143]
    slices are not what the code marks: [int(100/0.7) = 142], so slice
    57 of the 200-slice column lies outside the code's head cap. *)
Lemma head_cap_depth_not_rounded :
  exists p, (p < npix (geom column_image))%nat /\
    px 0%Z (compute_head_cap_mask column_image) p <>
    head_cap_round_value HEAD_CAP_DEPTH_MM column_image p.
Proof. exists 57%nat. vm_compute. split; [lia | discriminate]. Qed.

Lemma head_cap_mask_slab_witness :
  size (geom column_image) = [1; 1; 200]%nat /\ (58 < 1 * 1 * 200)%nat /\
  0 <= HEAD_CAP_DEPTH_MM / nth (si_axis_of (direction (geom column_image)))
                             (spacing (geom column_image)) 0 /\
  px 0%Z (compute_head_cap_mask column_image) 58 = 1%Z /\
  px 0%Z (compute_head_cap_mask column_image) 57 = 0%Z.
Proof.
  assert (Hs : size (geom column_image) = [1; 1; 200]%nat) by reflexivity.
  assert (Hq : 0 <= HEAD_CAP_DEPTH_MM / nth (si_axis_of (direction (geom column_image)))
                             (spacing (geom column_image)) 0)
    by (vm_compute; discriminate).
  split; [exact Hs|]. split; [lia|]. split; [exact Hq|]. split.
  - unfold compute_head_cap_mask.
    rewrite (head_cap_mask_slab HEAD_CAP_DEPTH_MM column_image 1 1 200 58 Hs ltac:(lia) Hq).
    vm_compute. reflexivity.
  - unfold compute_head_cap_mask.
    rewrite (head_cap_mask_slab HEAD_CAP_DEPTH_MM column_image 1 1 200 57 Hs ltac:(lia) Hq).
    vm_compute. reflexivity.
Defined.

(** ** Connected components and the component filter *)

Lemma zipWith_length {A B C} (f : A -> B -> C) la lb :
  length (zipWith f la lb) = Nat.min (length la) (length lb).
Proof.
  revert lb. induction la as [|a la IH]; intros [|b lb]; simpl; auto.
Qed.

Lemma zipWith_nth {A B C} (f : A -> B -> C) la lb p da db dc :
  (p < length la)%nat -> (p < length lb)%nat ->
  nth p (zipWith f la lb) dc = f (nth p la da) (nth p lb db).
Proof.
  revert lb p. induction la as [|a la IH]; intros [|b lb] p Ha Hb; simpl in *; try lia.
  destruct p; [reflexivity|]. apply IH; lia.
Qed.

Lemma map_nth_lt {A B} (f : A -> B) l p da db :
  (p < length l)%nat -> nth p (map f l) db = f (nth p l da).
Proof.
  intros Hp. rewrite nth_indep with (d' := f da) by (rewrite length_map; exact Hp).
  apply map_nth.
Qed.

Lemma fold_min_pos (fg : nat -> bool) (f : nat -> Z) l m :
  (0 < m)%Z -> (forall q, fg q = true -> (0 < f q)%Z) ->
  (0 < fold_left (fun m q => if fg q then Z.min m (f q) else m) l m)%Z.
Proof.
  revert m. induction l as [|q l IH]; intros m Hm Hf; simpl; [exact Hm|].
  apply IH; [|exact Hf]. destruct (fg q) eqn:E; [|exact Hm].
  specialize (Hf q E). lia.
Qed.

Section Labelling.
Variable g : Geometry.
Variable fg : nat -> bool.
Hypothesis fg_in_grid : forall q, fg q = true -> (q < npix g)%nat.

Lemma cc_step_inv lab : label_inv g fg lab -> label_inv g fg (cc_step g fg lab).
Proof.
  intros [Hl [Hpos Hbg]]. unfold cc_step. repeat split.
  - apply tabulate_length.
  - intros q Hq. rewrite tabulate_nth by (apply fg_in_grid; exact Hq).
    rewrite Hq. apply fold_min_pos; [apply Hpos; exact Hq | exact Hpos].
  - intros p Hp Hf. rewrite tabulate_nth by exact Hp. rewrite Hf. reflexivity.
Qed.

Lemma cc_iter_inv n lab : label_inv g fg lab -> label_inv g fg (Nat.iter n (cc_step g fg) lab).
Proof.
  induction n as [|n IH]; intros H; simpl; [exact H|].
  apply cc_step_inv, IH, H.
Qed.

Lemma cc_init_inv :
  label_inv g fg (tabulate (npix g) (fun p => if fg p then (Z.of_nat p + 1)%Z else 0%Z)).
Proof.
  repeat split.
  - apply tabulate_length.
  - intros q Hq. rewrite tabulate_nth by (apply fg_in_grid; exact Hq).
    rewrite Hq. lia.
  - intros p Hp Hf. rewrite tabulate_nth by exact Hp. rewrite Hf. reflexivity.
Qed.
End Labelling.

Lemma is_foreground_in_grid (image : Image Z) q :
  is_foreground image q = true -> (q < npix (geom image))%nat.
Proof.
  unfold is_foreground. intros H. apply andb_true_iff in H as [H _].
  apply Nat.ltb_lt, H.
Qed.

Lemma ConnectedComponent_inv (image : Image Z) :
  label_inv (geom image) (is_foreground image) (pixels (ConnectedComponent image)).
Proof.
  unfold ConnectedComponent. simpl. apply cc_iter_inv.
  - apply is_foreground_in_grid.
  - apply cc_init_inv, is_foreground_in_grid.
Qed.

Lemma ConnectedComponent_geom (image : Image Z) :
  geom (ConnectedComponent image) = geom image.
Proof. reflexivity. Qed.

(** A voxel of the grid has label 0 exactly when it is background. *)
Lemma ConnectedComponent_zero_iff (image : Image Z) p :
  (p < npix (geom image))%nat ->
  (px 0%Z (ConnectedComponent image) p = 0%Z <-> px 0%Z image p = 0%Z).
Proof.
  intros Hp. destruct (ConnectedComponent_inv image) as [_ [Hpos Hbg]].
  unfold px at 1. destruct (is_foreground image p) eqn:E.
  - specialize (Hpos p E). unfold is_foreground in E.
    apply andb_true_iff in E as [_ E]. apply negb_true_iff, Z.eqb_neq in E.
    split; intros H; [lia | contradiction].
  - rewrite (Hbg p Hp E). unfold is_foreground in E.
    apply andb_false_iff in E as [E | E].
    + apply Nat.ltb_ge in E. lia.
    + apply negb_false_iff, Z.eqb_eq in E. split; auto.
Qed.

Lemma lor_bits (b1 b2 : bool) :
  Z.lor (if b1 then 1%Z else 0%Z) (if b2 then 1%Z else 0%Z) = if b1 || b2 then 1%Z else 0%Z.
Proof. destruct b1, b2; reflexivity. Qed.

Lemma keep_fold (min_size : nat) (mask : Image Z) labels (acc : Image Z) :
  let L := ConnectedComponent mask in
  geom acc = geom mask -> length (pixels acc) = npix (geom mask) ->
  let r := fold_left (fun cleaned label =>
                 if (min_size <=? GetNumberOfPixels L label)%nat
                 then OrImages cleaned (EqualTo L label) else cleaned) labels acc in
  geom r = geom mask /\ length (pixels r) = npix (geom mask) /\
  forall p, (p < npix (geom mask))%nat ->
    nth p (pixels r) 0%Z =
    Z.lor (nth p (pixels acc) 0%Z)
          (if existsb (fun l => (min_size <=? GetNumberOfPixels L l)%nat
                                && Z.eqb l (nth p (pixels L) 0%Z)) labels
           then 1%Z else 0%Z).
Proof.
  intros L. destruct (ConnectedComponent_inv mask) as [HL _]. fold L in HL.
  revert acc. induction labels as [|a labels IH]; intros acc Hg Hl r.
  - simpl in r. subst r. repeat split; auto. intros p Hp. simpl. rewrite Z.lor_0_r. reflexivity.
  - simpl in r. subst r.
    destruct (min_size <=? GetNumberOfPixels L a)%nat eqn:Ha.
    + assert (Hg' : geom (OrImages acc (EqualTo L a)) = geom mask) by exact Hg.
      assert (Hl' : length (pixels (OrImages acc (EqualTo L a))) = npix (geom mask)).
      { unfold OrImages, EqualTo. cbn [pixels].
        rewrite zipWith_length, length_map, Hl, HL. lia. }
      destruct (IH _ Hg' Hl') as [G1 [G2 G3]]. repeat split; auto.
      intros p Hp. rewrite (G3 p Hp). unfold OrImages, EqualTo. cbn [pixels].
      rewrite (zipWith_nth _ _ _ p 0%Z 0%Z) by (rewrite ?length_map; lia).
      rewrite (map_nth_lt _ _ p 0%Z) by lia.
      rewrite <- Z.lor_assoc, lor_bits. simpl.
      rewrite Ha, Z.eqb_sym. reflexivity.
    + destruct (IH _ Hg Hl) as [G1 [G2 G3]]. repeat split; auto.
      intros p Hp. rewrite (G3 p Hp). simpl existsb. rewrite Ha. reflexivity.
Qed.

(** The component filter keeps a voxel exactly when its label is
    nonzero and that label has at least [min_size] voxels. *)
Lemma keep_large_components_px (min_size : nat) (mask : Image Z) p :
  (p < npix (geom mask))%nat ->
  let L := ConnectedComponent mask in
  px 0%Z (keep_large_components min_size mask) p =
    if negb (Z.eqb (px 0%Z L p) 0) && (min_size <=? GetNumberOfPixels L (px 0%Z L p))%nat
    then 1%Z else 0%Z.
Proof.
  intros Hp L. destruct (ConnectedComponent_inv mask) as [HL _]. fold L in HL.
  unfold keep_large_components. fold L.
  destruct (keep_fold min_size mask (GetLabels L) (zero_image_like mask) eq_refl
              (repeat_length _ _)) as [_ [Hl H]].
  fold L in Hl, H. clearbody L.
  unfold px at 1. unfold BinaryThreshold. simpl pixels.
  rewrite (map_nth_lt _ _ p 0%Z) by lia.
  rewrite (H p Hp). simpl pixels. rewrite nth_repeat. simpl Z.lor.
  set (b := existsb _ _).
  assert (Hb : b = negb (Z.eqb (px 0%Z L p) 0)
                   && (min_size <=? GetNumberOfPixels L (px 0%Z L p))%nat).
  { unfold b. apply eq_true_iff_eq. rewrite existsb_exists. split.
    - intros [l [Hin Hk]]. apply andb_true_iff in Hk as [Hk He].
      apply Z.eqb_eq in He. subst l. unfold GetLabels in Hin.
      apply nodup_In, filter_In in Hin as [_ Hnz]. unfold px.
      rewrite Hnz, Hk. reflexivity.
    - intros Hk. apply andb_true_iff in Hk as [Hnz Hk].
      exists (px 0%Z L p). split.
      + unfold GetLabels. apply nodup_In, filter_In. split; [|exact Hnz].
        unfold px. apply nth_In. lia.
      + rewrite Hk, Z.eqb_refl. reflexivity. }
  rewrite Hb. destruct (_ && _); reflexivity.
Qed.

Lemma keep_large_components_geom (min_size : nat) (mask : Image Z) :
  geom (keep_large_components min_size mask) = geom mask.
Proof.
  unfold keep_large_components.
  destruct (keep_fold min_size mask (GetLabels (ConnectedComponent mask))
              (zero_image_like mask) eq_refl (repeat_length _ _)) as [G _].
  exact G.
Qed.

Lemma keep_large_components_length (min_size : nat) (mask : Image Z) :
  length (pixels (keep_large_components min_size mask)) = npix (geom mask).
Proof.
  unfold keep_large_components.
  destruct (keep_fold min_size mask (GetLabels (ConnectedComponent mask))
              (zero_image_like mask) eq_refl (repeat_length _ _)) as [_ [Hl _]].
  simpl. rewrite length_map. exact Hl.
Qed.

(** ** SkullMaskExtractor *)

Lemma BinaryThreshold_px {V} (val : V -> Q) (image : Image V) lo up ins outs (d : V) p :
  (p < length (pixels image))%nat ->
  px 0%Z (BinaryThreshold val image lo up ins outs) p =
    if Qle_bool lo (val (px d image p)) && Qle_bool (val (px d image p)) up
    then ins else outs.
Proof.
  intros Hp. unfold px, BinaryThreshold. simpl.
  exact (map_nth_lt (fun v => if Qle_bool lo (val v) && Qle_bool (val v) up then ins else outs)
           (pixels image) p d 0%Z Hp).
Qed.

(** C6: [create_skull_mask] keeps the geometry of its input; its first
    stage marks exactly the voxels with [lower <= v <= upper]; the
    closing is applied only for a positive radius, on every axis; and
    the result marks exactly the voxels whose connected component (label
    nonzero exactly on the foreground of the closed mask) has at least
    the minimum number of voxels, the OR of the kept components. *)
Theorem create_skull_mask_stages `{SitkFilters} (cfg : SkullMaskConfig) (image : Image Q) :
  let mask1 := BinaryThreshold (fun v => v) image (BONE_LOWER_HU cfg) (BONE_UPPER_HU cfg) 1 0 in
  let mask2 := if (0 <? MASK_CLOSING_RADIUS cfg)%nat
               then BinaryMorphologicalClosing mask1
                      (repeat (MASK_CLOSING_RADIUS cfg) (length (size (geom image))))
               else mask1 in
  let L := ConnectedComponent mask2 in
  let out := create_skull_mask cfg image in
  geom out = geom image /\
  (forall p, (p < length (pixels image))%nat ->
     let v := px 0 image p in
     (BONE_LOWER_HU cfg <= v /\ v <= BONE_UPPER_HU cfg -> px 0%Z mask1 p = 1%Z) /\
     (~ (BONE_LOWER_HU cfg <= v /\ v <= BONE_UPPER_HU cfg) -> px 0%Z mask1 p = 0%Z)) /\
  out = keep_large_components (MIN_SKULL_COMPONENT_SIZE cfg) mask2 /\
  (forall p, (p < npix (geom image))%nat ->
     (px 0%Z L p = 0%Z <-> px 0%Z mask2 p = 0%Z) /\
     px 0%Z out p =
       if negb (Z.eqb (px 0%Z L p) 0)
          && (MIN_SKULL_COMPONENT_SIZE cfg <=? GetNumberOfPixels L (px 0%Z L p))%nat
       then 1%Z else 0%Z).
Proof.
  intros mask1 mask2 L out.
  assert (Hg2 : geom mask2 = geom image)
    by (unfold mask2; destruct (0 <? MASK_CLOSING_RADIUS cfg)%nat; reflexivity).
  split; [|split; [|split]].
  - unfold out, create_skull_mask. rewrite keep_large_components_geom.
    fold mask1. fold mask2. exact Hg2.
  - intros p Hp v. unfold mask1. rewrite (BinaryThreshold_px _ _ _ _ _ _ 0 p Hp). fold v.
    split.
    + intros [Hl Hu]. apply Qle_bool_iff in Hl, Hu. rewrite Hl, Hu. reflexivity.
    + intros Hv.
      destruct (Qle_bool (BONE_LOWER_HU cfg) v) eqn:Hl, (Qle_bool v (BONE_UPPER_HU cfg)) eqn:Hu;
        try reflexivity.
      apply Qle_bool_iff in Hl, Hu. contradiction (Hv (conj Hl Hu)).
  - reflexivity.
  - intros p Hp. split.
    + apply (ConnectedComponent_zero_iff mask2 p). rewrite Hg2. exact Hp.
    + unfold out, create_skull_mask. fold mask1. fold mask2.
      apply keep_large_components_px. rewrite Hg2. exact Hp.
Qed.

(** C4, amended: on a binary volume with bounds [1, 1] and no closing,
    [create_skull_mask] keeps a voxel exactly when it is 1 and its
    component has at least [MIN_SKULL_COMPONENT_SIZE] voxels; so it
    returns its input unchanged when that minimum is at most 1. *)
Theorem skull_mask_on_binary_input `{SitkFilters} (cfg : SkullMaskConfig) (image : Image Q) :
  BONE_LOWER_HU cfg = 1 -> BONE_UPPER_HU cfg = 1 -> MASK_CLOSING_RADIUS cfg = 0%nat ->
  length (pixels image) = npix (geom image) ->
  (forall p, (p < npix (geom image))%nat -> px 0 image p = 0 \/ px 0 image p = 1) ->
  let L := ConnectedComponent
             (BinaryThreshold (fun v => v) image (BONE_LOWER_HU cfg) (BONE_UPPER_HU cfg) 1 0) in
  (forall p, (p < npix (geom image))%nat ->
     px 0%Z (create_skull_mask cfg image) p =
       if Qeq_bool (px 0 image p) 1
          && (MIN_SKULL_COMPONENT_SIZE cfg <=? GetNumberOfPixels L (px 0%Z L p))%nat
       then 1%Z else 0%Z) /\
  ((MIN_SKULL_COMPONENT_SIZE cfg <= 1)%nat ->
     map inject_Z (pixels (create_skull_mask cfg image)) = pixels image).
Proof.
  intros Hlo Hup Hr Hlen Hbin L.
  destruct (create_skull_mask_stages cfg image) as [Hg [Hthr [_ Hout]]].
  cbv zeta in Hthr, Hout. rewrite Hr in Hout. simpl in Hout. fold L in Hout.
  assert (Hpx : forall p, (p < npix (geom image))%nat ->
     px 0%Z (create_skull_mask cfg image) p =
       if Qeq_bool (px 0 image p) 1
          && (MIN_SKULL_COMPONENT_SIZE cfg <=? GetNumberOfPixels L (px 0%Z L p))%nat
       then 1%Z else 0%Z).
  { intros p Hp. destruct (Hout p Hp) as [Hz ->].
    destruct (Hthr p ltac:(lia)) as [H1 H0].
    rewrite Hlo, Hup in H1, H0.
    destruct (Hbin p Hp) as [Hv | Hv]; rewrite Hv in *.
    - assert (Hm : px 0%Z (BinaryThreshold (fun v => v) image (BONE_LOWER_HU cfg)
                              (BONE_UPPER_HU cfg) 1 0) p = 0%Z).
      { rewrite Hlo, Hup. apply H0. intros [Hc _]. vm_compute in Hc. apply Hc. reflexivity. }
      apply Hz in Hm. fold L in Hm. rewrite Hm. reflexivity.
    - assert (Hm : px 0%Z (BinaryThreshold (fun v => v) image (BONE_LOWER_HU cfg)
                              (BONE_UPPER_HU cfg) 1 0) p = 1%Z).
      { rewrite Hlo, Hup. apply H1. split; apply Qle_refl. }
      destruct (Z.eqb_spec (px 0%Z L p) 0) as [HL | HL].
      + apply Hz in HL. fold L in HL. rewrite Hm in HL. discriminate HL.
      + reflexivity. }
  split; [exact Hpx|].
  assert (Hl : length (pixels (create_skull_mask cfg image)) = npix (geom image)).
  { unfold create_skull_mask. rewrite keep_large_components_length.
    destruct (0 <? MASK_CLOSING_RADIUS cfg)%nat; reflexivity. }
  intros Hmin. apply nth_ext with (d := inject_Z 0) (d' := 0).
  - rewrite length_map, Hl, Hlen. reflexivity.
  - intros p Hp. rewrite length_map, Hl in Hp. rename Hp into Hp'.
    rewrite (map_nth_lt _ _ p 0%Z) by (rewrite Hl; exact Hp').
    change (nth p (pixels (create_skull_mask cfg image)) 0%Z)
      with (px 0%Z (create_skull_mask cfg image) p).
    rewrite (Hpx p Hp').
    assert (Hk : (MIN_SKULL_COMPONENT_SIZE cfg <=? GetNumberOfPixels L (px 0%Z L p))%nat = true).
    { apply Nat.leb_le. unfold GetNumberOfPixels.
      assert (In (px 0%Z L p) (pixels L)).
      { unfold px. apply nth_In. destruct (ConnectedComponent_inv
          (BinaryThreshold (fun v => v) image (BONE_LOWER_HU cfg) (BONE_UPPER_HU cfg) 1 0))
          as [HL _]. fold L in HL. rewrite HL. exact Hp'. }
      apply (count_occ_In Z.eq_dec) in H0. lia. }
    rewrite Hk, andb_true_r.
    change (nth p (pixels image) 0) with (px 0 image p).
    destruct (Hbin p Hp') as [Hv | Hv]; rewrite Hv; reflexivity.
Qed.

(** C4 as stated fails: the single-voxel binary volume [1] loses its
    only voxel, a component smaller than the 500 voxels register.py
    requires, although bounds are [1, 1] and there is no closing. *)
Lemma skull_mask_binary_not_idempotent :
  pixels single_voxel_mask = [1] /\
  pixels (create_skull_mask
            (mkSkullMaskConfig 1 1 0 (MIN_SKULL_COMPONENT_SIZE register_config))
            single_voxel_mask) = [0%Z].
Proof. split; vm_compute; reflexivity. Qed.

Lemma skull_mask_on_binary_input_witness :
  let cfg := mkSkullMaskConfig 1 1 0 1 in
  BONE_LOWER_HU cfg = 1 /\ BONE_UPPER_HU cfg = 1 /\ MASK_CLOSING_RADIUS cfg = 0%nat /\
  length (pixels two_voxel_mask) = npix (geom two_voxel_mask) /\
  (forall p, (p < npix (geom two_voxel_mask))%nat ->
     px 0 two_voxel_mask p = 0 \/ px 0 two_voxel_mask p = 1) /\
  map inject_Z (pixels (create_skull_mask cfg two_voxel_mask)) = pixels two_voxel_mask.
Proof.
  intros cfg.
  assert (Hbin : forall p, (p < npix (geom two_voxel_mask))%nat ->
            px 0 two_voxel_mask p = 0 \/ px 0 two_voxel_mask p = 1).
  { intros p Hp. unfold npix in Hp. simpl in Hp.
    destruct p as [|[|[|p]]]; [right | left | right | lia]; reflexivity. }
  split; [reflexivity|]. split; [reflexivity|]. split; [reflexivity|].
  split; [reflexivity|]. split; [exact Hbin|].
  destruct (skull_mask_on_binary_input cfg two_voxel_mask eq_refl eq_refl eq_refl eq_refl Hbin)
    as [_ Hid].
  apply Hid. simpl. lia.
Defined.

(** ** CandidateSegmenter *)

Lemma tabulate_01 (n p : nat) (f : nat -> Z) :
  (forall q, f q = 0%Z \/ f q = 1%Z) ->
  nth p (tabulate n f) 0%Z = 0%Z \/ nth p (tabulate n f) 0%Z = 1%Z.
Proof.
  intros Hf. unfold tabulate.
  destruct (nth_in_or_default p (map f (seq 0 n)) 0%Z) as [Hin | ->]; [|left; reflexivity].
  apply in_map_iff in Hin as [q [<- _]]. apply Hf.
Qed.

(** The head-cap mask is binary. *)
Lemma head_cap_mask_binary (depth : Q) {V} (img : Image V) p :
  px 0%Z (compute_head_cap_mask_depth depth img) p = 0%Z \/
  px 0%Z (compute_head_cap_mask_depth depth img) p = 1%Z.
Proof.
  unfold compute_head_cap_mask_depth, px.
  destruct (head_cap_range depth (geom img)) as [s e]. cbn [pixels].
  apply tabulate_01. intros q.
  destruct (index_of (geom img) q) as [|i [|j [|k [|]]]]; auto.
  destruct (in_slice _ _ _); auto.
Qed.

Lemma head_cap_mask_geom (depth : Q) {V} (img : Image V) :
  geom (compute_head_cap_mask_depth depth img) = geom img.
Proof.
  unfold compute_head_cap_mask_depth.
  destruct (head_cap_range depth (geom img)) as [s e]. reflexivity.
Qed.

Lemma zipWith_nth_nonzero (f : Z -> Z -> Z) la lb p :
  nth p (zipWith f la lb) 0%Z <> 0%Z ->
  (p < length la)%nat /\ (p < length lb)%nat.
Proof.
  intros H. destruct (Nat.lt_ge_cases p (length (zipWith f la lb))) as [Hl | Hl].
  - rewrite zipWith_length in Hl. lia.
  - rewrite nth_overflow in H by exact Hl. contradiction.
Qed.

Lemma list_eqb_refl {A} (eqb : A -> A -> bool) (l : list A) :
  (forall a, eqb a a = true) -> list_eqb eqb l l = true.
Proof. intros H. induction l as [|a l IH]; simpl; [reflexivity|]. rewrite H, IH. reflexivity. Qed.

Lemma same_physical_space_refl (g : Geometry) : same_physical_space g g = true.
Proof.
  unfold same_physical_space.
  rewrite !list_eqb_refl; try reflexivity;
    intros a; first [apply Nat.eqb_refl | apply Qeq_bool_iff; reflexivity].
Qed.

Lemma list_eqb_nat_eq (l1 l2 : list nat) : list_eqb Nat.eqb l1 l2 = true -> l1 = l2.
Proof.
  revert l2. induction l1 as [|a l1 IH]; intros [|b l2]; simpl; try discriminate; auto.
  intros H. apply andb_prop in H as [H1 H2]. apply Nat.eqb_eq in H1. subst. f_equal. auto.
Qed.

Lemma list_eqb_Qeq_vnl (l1 l2 : list Q) (tol : Q) :
  0 <= tol -> list_eqb Qeq_bool l1 l2 = true -> vnl_is_equal l1 l2 tol = true.
Proof.
  intros Ht. unfold vnl_is_equal. revert l2.
  induction l1 as [|a l1 IH]; intros [|b l2]; cbn [list_eqb]; try discriminate; auto.
  intros H. apply andb_prop in H as [H1 H2]. apply andb_true_intro. split; [|apply IH, H2].
  apply Qle_bool_iff. apply Qeq_bool_iff in H1.
  assert (E : a - b == 0) by (rewrite H1; ring). rewrite E. exact Ht.
Qed.

(** Grid-compatible images pass both checks of ITK's voxel-wise filters. *)
Lemma same_space_checks (a b : Geometry) :
  same_physical_space a b = true ->
  VerifyInputInformation a b && RequestedRegionInside a b = true /\ size a = size b.
Proof.
  unfold same_physical_space. intros H.
  apply andb_prop in H as [H H3]. apply andb_prop in H as [H H2]. apply andb_prop in H as [H0 H1].
  apply list_eqb_nat_eq in H0. split; [|exact H0].
  unfold VerifyInputInformation, RequestedRegionInside. rewrite H0.
  rewrite list_eqb_refl by apply Nat.leb_refl.
  rewrite !list_eqb_Qeq_vnl; try assumption; try reflexivity;
    first [apply Qabs_nonneg | unfold DirectionTolerance; lra].
Qed.

Lemma binary_op_same_space {V} (f : V -> V -> V) (a b : Image V) :
  same_physical_space (geom a) (geom b) = true ->
  binary_op f a b = Some (mkImage (geom a) (zipWith f (pixels a) (pixels b))).
Proof.
  intros H. destruct (same_space_checks _ _ H) as [Hc Hs].
  unfold binary_op, second_input_values. rewrite Hc, Hs.
  rewrite list_eqb_refl by apply Nat.eqb_refl. reflexivity.
Qed.

Lemma binary_op_some {V} (f : V -> V -> V) (a b c : Image V) :
  binary_op f a b = Some c ->
  exists vb, second_input_values (geom a) b = Some vb /\
             c = mkImage (geom a) (zipWith f (pixels a) vb).
Proof.
  unfold binary_op. destruct (_ && _); [|discriminate].
  destruct (second_input_values _ _) as [vb|]; [|discriminate].
  intros H. injection H as <-. exists vb. split; reflexivity.
Qed.

Lemma read_offsets_in {V} (buf : list V) (offs : list nat) (vs : list V) :
  read_offsets buf offs = Some vs -> forall v, In v vs -> In v buf.
Proof.
  revert vs. induction offs as [|o offs IH]; intros vs; simpl.
  - intros H. injection H as <-. intros v [].
  - destruct (nth_error buf o) as [w|] eqn:E; [|discriminate].
    destruct (read_offsets buf offs) as [ws|]; [|discriminate].
    intros H. injection H as <-. intros v [<- | Hv].
    + apply nth_error_In with o. exact E.
    + apply (IH ws eq_refl v Hv).
Qed.

(** The values read from the second input are values of its buffer. *)
Lemma second_input_values_in {V} (ga : Geometry) (b : Image V) vb :
  second_input_values ga b = Some vb -> forall v, In v vb -> In v (pixels b).
Proof.
  unfold second_input_values. destruct (list_eqb _ _ _).
  - intros H. injection H as <-. auto.
  - apply read_offsets_in.
Qed.

(** C2: when the difference volume and the preop volume share a grid,
    [create_burrhole_mask] returns the composition, in this order, of:
    clamping the difference at 0, the voxel-wise product with the bone
    mask, Otsu binarisation (1 above the threshold), closing with radius
    1 on every axis, the filter keeping components of at least
    [MIN_COMPONENT_SIZE] voxels, and the voxel-wise product with the
    head-cap mask; every foreground voxel of the result lies in the head
    cap. *)
Theorem create_burrhole_mask_stages `{SitkFilters} (cfg : BinarizeConfig) (preop diff : Image Q) :
  same_physical_space (geom diff) (geom preop) = true ->
  let bone_mask := BinaryThreshold (fun v => v) preop (BONE_THRESHOLD_HU cfg) 1000000000 1 0 in
  let head_cap_mask := compute_head_cap_mask_depth (HEAD_CAP_DEPTH cfg) preop in
  let diff_pos := Clamp diff 0 in
  let diff_bone := mkImage (geom diff) (zipWith Qmult (pixels diff_pos)
                                           (pixels (CastToFloat bone_mask))) in
  let otsu := OtsuThreshold diff_bone 0 1 in
  let closed := BinaryMorphologicalClosing otsu [1; 1; 1]%nat in
  let cleaned := keep_large_components (MIN_COMPONENT_SIZE cfg) closed in
  let final := mkImage (geom diff) (zipWith Z.mul (pixels cleaned) (pixels head_cap_mask)) in
  create_burrhole_mask cfg preop diff = Some final /\
  (forall p, px 0%Z final p <> 0%Z -> px 0%Z head_cap_mask p = 1%Z).
Proof.
  intros Hsame bone_mask head_cap_mask diff_pos diff_bone otsu closed cleaned final.
  split.
  - unfold create_burrhole_mask. fold bone_mask diff_pos.
    rewrite (binary_op_same_space Qmult diff_pos (CastToFloat bone_mask) Hsame).
    change (geom diff_pos) with (geom diff). fold diff_bone otsu closed cleaned head_cap_mask.
    assert (Gc : geom cleaned = geom diff)
      by (unfold cleaned; rewrite keep_large_components_geom; reflexivity).
    assert (Gs : same_physical_space (geom cleaned) (geom head_cap_mask) = true)
      by (rewrite Gc; unfold head_cap_mask; rewrite head_cap_mask_geom; exact Hsame).
    rewrite (binary_op_same_space Z.mul cleaned head_cap_mask Gs), Gc. reflexivity.
  - intros p Hp. unfold final, px in Hp. cbn [pixels] in Hp.
    destruct (zipWith_nth_nonzero _ _ _ p Hp) as [H1 H2].
    rewrite (zipWith_nth _ _ _ p 0%Z 0%Z) in Hp by assumption.
    destruct (head_cap_mask_binary (HEAD_CAP_DEPTH cfg) preop p) as [H0 | H0];
      fold head_cap_mask in H0; [|exact H0].
    unfold px in H0. rewrite H0, Z.mul_0_r in Hp. contradiction.
Qed.

Lemma create_burrhole_mask_stages_witness :
  same_physical_space (geom small_diff) (geom small_preop) = true /\
  create_burrhole_mask (mkBinarizeConfig 300 1 100) small_preop small_diff
    = Some (mkImage small_geometry [0; 0; 0; 1]%Z) /\
  (forall p, px 0%Z (mkImage small_geometry [0; 0; 0; 1]%Z) p <> 0%Z ->
     px 0%Z (compute_head_cap_mask_depth 100 small_preop) p = 1%Z).
Proof.
  assert (Hs : same_physical_space (geom small_diff) (geom small_preop) = true)
    by reflexivity.
  destruct (create_burrhole_mask_stages (mkBinarizeConfig 300 1 100) small_preop small_diff Hs)
    as [Heq Hin].
  assert (Hf : mkImage small_geometry [0; 0; 0; 1]%Z =
     mkImage (geom small_diff)
       (zipWith Z.mul
          (pixels (keep_large_components 1
             (BinaryMorphologicalClosing
                (OtsuThreshold
                   (mkImage (geom small_diff)
                      (zipWith Qmult (pixels (Clamp small_diff 0))
                         (pixels (CastToFloat (BinaryThreshold (fun v => v) small_preop
                                                  300 1000000000 1 0))))) 0 1) [1; 1; 1]%nat)))
          (pixels (compute_head_cap_mask_depth 100 small_preop)))) by (vm_compute; reflexivity).
  split; [exact Hs|]. rewrite Hf. split; [exact Heq | exact Hin].
Defined.

(** ** Monotonicity in the minimum component size *)

Lemma foreground_count_le_pointwise (l1 l2 : list Z) :
  length l1 = length l2 ->
  (forall p, nth p l1 0%Z <> 0%Z -> nth p l2 0%Z <> 0%Z) ->
  (length (filter (fun v => negb (Z.eqb v 0)) l1)
   <= length (filter (fun v => negb (Z.eqb v 0)) l2))%nat.
Proof.
  revert l2. induction l1 as [|a l1 IH]; intros [|b l2] Hl Hp; simpl in *; try lia.
  assert (IH' : (length (filter (fun v => negb (Z.eqb v 0)) l1)
                 <= length (filter (fun v => negb (Z.eqb v 0)) l2))%nat).
  { apply IH; [lia|]. intros p. apply (Hp (S p)). }
  specialize (Hp 0%nat). simpl in Hp.
  destruct (Z.eqb_spec a 0), (Z.eqb_spec b 0); simpl; try lia.
Qed.

Lemma keep_large_components_mono (m1 m2 : nat) (mask : Image Z) p :
  (m1 <= m2)%nat ->
  px 0%Z (keep_large_components m2 mask) p <> 0%Z ->
  px 0%Z (keep_large_components m1 mask) p <> 0%Z.
Proof.
  intros Hm Hp.
  destruct (Nat.lt_ge_cases p (npix (geom mask))) as [Hlt | Hge].
  - rewrite keep_large_components_px in Hp |- * by exact Hlt.
    destruct (negb _) eqn:E; simpl in Hp |- *; [|exact Hp].
    destruct (m2 <=? _)%nat eqn:E2; [|contradiction].
    apply Nat.leb_le in E2. replace (m1 <=? _)%nat with true; [discriminate|].
    symmetry. apply Nat.leb_le. lia.
  - unfold px in Hp. rewrite nth_overflow in Hp; [contradiction|].
    rewrite keep_large_components_length. exact Hge.
Qed.

(** C7: raising the minimum component size never adds a foreground
    voxel, in [create_skull_mask] and in [create_burrhole_mask] (all
    other inputs fixed); [create_burrhole_mask] fails for both sizes or
    for neither, so the comparison covers every run that writes a mask. *)
Theorem min_component_size_monotone `{SitkFilters} (m1 m2 : nat)
    (lo up : Q) (radius : nat) (image : Image Q)
    (thr depth : Q) (preop diff : Image Q) :
  (m1 <= m2)%nat ->
  (foreground_count (create_skull_mask (mkSkullMaskConfig lo up radius m2) image)
   <= foreground_count (create_skull_mask (mkSkullMaskConfig lo up radius m1) image))%nat /\
  (create_burrhole_mask (mkBinarizeConfig thr m1 depth) preop diff = None <->
   create_burrhole_mask (mkBinarizeConfig thr m2 depth) preop diff = None) /\
  (forall out1 out2,
     create_burrhole_mask (mkBinarizeConfig thr m1 depth) preop diff = Some out1 ->
     create_burrhole_mask (mkBinarizeConfig thr m2 depth) preop diff = Some out2 ->
     (foreground_count out2 <= foreground_count out1)%nat).
Proof.
  intros Hm. split.
  - unfold foreground_count, create_skull_mask. cbn [MIN_SKULL_COMPONENT_SIZE
      BONE_LOWER_HU BONE_UPPER_HU MASK_CLOSING_RADIUS]. cbv zeta.
    set (mask := if (0 <? radius)%nat then _ else _).
    apply foreground_count_le_pointwise.
    + rewrite !keep_large_components_length. reflexivity.
    + intros p. apply (keep_large_components_mono m1 m2 mask p Hm).
  - unfold create_burrhole_mask.
    cbn [MIN_COMPONENT_SIZE BONE_THRESHOLD_HU HEAD_CAP_DEPTH].
    destruct (binary_op Qmult _ _) as [diff_bone|];
      [|split; [tauto | intros ? ? H1; discriminate H1]].
    set (closed := BinaryMorphologicalClosing _ _).
    set (head := compute_head_cap_mask_depth depth preop).
    remember (keep_large_components m1 closed) as K1 eqn:E1.
    remember (keep_large_components m2 closed) as K2 eqn:E2.
    assert (G1 : geom K1 = geom closed) by (subst K1; apply keep_large_components_geom).
    assert (G2 : geom K2 = geom closed) by (subst K2; apply keep_large_components_geom).
    unfold binary_op. rewrite G1, G2.
    destruct (_ && _); [|split; [tauto | intros ? ? H1; discriminate H1]].
    destruct (second_input_values (geom closed) head) as [vb|];
      [|split; [tauto | intros ? ? H1; discriminate H1]].
    split; [split; intros E; discriminate E|].
    intros out1 out2 H1 H2. injection H1 as <-. injection H2 as <-.
    unfold foreground_count. cbn [pixels]. subst K1 K2.
    apply foreground_count_le_pointwise.
    + rewrite !zipWith_length, !keep_large_components_length. reflexivity.
    + intros p Hp. destruct (zipWith_nth_nonzero _ _ _ p Hp) as [Ha Hb].
      rewrite keep_large_components_length in Ha.
      rewrite (zipWith_nth _ _ _ p 0%Z 0%Z) in Hp
        by (rewrite ?keep_large_components_length; assumption).
      rewrite (zipWith_nth _ _ _ p 0%Z 0%Z)
        by (rewrite ?keep_large_components_length; assumption).
      apply Z.neq_mul_0 in Hp as [Hc Hh]. apply Z.neq_mul_0. split; [|exact Hh].
      apply (keep_large_components_mono m1 m2 closed p Hm Hc).
Qed.

(** On [pair_and_single_mask], minimum 2 keeps two voxels, minimum 1
    keeps three; [create_burrhole_mask] on a 2 x 1 x 1 preop and a
    1 x 1 x 1 difference image writes a mask for both minimum sizes 1
    and 2 (one foreground voxel, then none). *)
Lemma min_component_size_monotone_witness :
  (1 <= 2)%nat /\
  foreground_count (create_skull_mask (mkSkullMaskConfig 1 1 0 2) pair_and_single_mask) = 2%nat /\
  foreground_count (create_skull_mask (mkSkullMaskConfig 1 1 0 1) pair_and_single_mask) = 3%nat /\
  (foreground_count (create_skull_mask (mkSkullMaskConfig 1 1 0 2) pair_and_single_mask)
   <= foreground_count (create_skull_mask (mkSkullMaskConfig 1 1 0 1) pair_and_single_mask))%nat /\
  create_burrhole_mask (mkBinarizeConfig 300 1 100) wide_preop point_diff
    = Some (mkImage (geom point_diff) [1%Z]) /\
  create_burrhole_mask (mkBinarizeConfig 300 2 100) wide_preop point_diff
    = Some (mkImage (geom point_diff) [0%Z]) /\
  (create_burrhole_mask (mkBinarizeConfig 300 1 100) wide_preop point_diff = None <->
   create_burrhole_mask (mkBinarizeConfig 300 2 100) wide_preop point_diff = None) /\
  (foreground_count (mkImage (geom point_diff) [0%Z])
   <= foreground_count (mkImage (geom point_diff) [1%Z]))%nat.
Proof.
  assert (E1 : create_burrhole_mask (mkBinarizeConfig 300 1 100) wide_preop point_diff
               = Some (mkImage (geom point_diff) [1%Z])) by (vm_compute; reflexivity).
  assert (E2 : create_burrhole_mask (mkBinarizeConfig 300 2 100) wide_preop point_diff
               = Some (mkImage (geom point_diff) [0%Z])) by (vm_compute; reflexivity).
  destruct (min_component_size_monotone 1 2 1 1 0 pair_and_single_mask
              300 100 wide_preop point_diff ltac:(lia)) as [Hs [Hn Hb]].
  split; [lia|]. split; [vm_compute; reflexivity|]. split; [vm_compute; reflexivity|].
  split; [exact Hs|]. split; [exact E1|]. split; [exact E2|]. split; [exact Hn|].
  exact (Hb _ _ E1 E2).
Defined.

(** ** Resampling onto the reference grid *)

Lemma linear_evaluate_at_node (img : Image Q) nx ny nz i j k :
  size (geom img) = [nx; ny; nz] -> (i < nx)%nat -> (j < ny)%nat -> (k < nz)%nat ->
  LinearEvaluateAtContinuousIndex img
    [inject_Z (Z.of_nat i); inject_Z (Z.of_nat j); inject_Z (Z.of_nat k)]
  == px 0 img (i + nx * (j + ny * k))%nat.
Proof.
  intros Hs Hi Hj Hk. unfold LinearEvaluateAtContinuousIndex.
  cbn [map seq nth]. rewrite !Qfloor_Z.
  cbn [fold_left seq neighbour_step nth app Nat.odd Nat.even Nat.div2 negb].
  rewrite !Z.max_l by lia.
  replace (GetPixel img [Z.of_nat i; Z.of_nat j; Z.of_nat k])
    with (px 0 img (i + nx * (j + ny * k))%nat)
    by (unfold GetPixel; rewrite Hs; cbn [nth]; rewrite !Nat2Z.id; reflexivity).
  ring.
Qed.

Lemma IsInsideBuffer_spec (g : Geometry) (c : list Q) :
  IsInsideBuffer g c = true <->
  (forall dim, (dim < 3)%nat ->
     0 - (1 # 2) <= nth dim c 0 /\
     nth dim c 0 < inject_Z (Z.of_nat (nth dim (size g) 0%nat) - 1) + (1 # 2)).
Proof.
  unfold IsInsideBuffer. rewrite forallb_forall. split.
  - intros H dim Hd. specialize (H dim). rewrite in_seq in H.
    destruct (andb_prop _ _ (H ltac:(lia))) as [H1 H2].
    split; [apply Qle_bool_iff; exact H1|].
    apply Qnot_le_lt. intros Hle. apply Qle_bool_iff in Hle. rewrite Hle in H2. discriminate.
  - intros H dim Hd. rewrite in_seq in Hd. destruct (H dim ltac:(lia)) as [H1 H2].
    apply andb_true_intro. split; [apply Qle_bool_iff; exact H1|].
    destruct (Qle_bool _ _) eqn:E; [|reflexivity].
    apply Qle_bool_iff in E. exfalso. apply (Qlt_not_le _ _ H2 E).
Qed.

Lemma Execute_px (resampler : ResampleImageFilter) (input : Image Q) p :
  (p < npix (ReferenceImage resampler))%nat ->
  let g := ReferenceImage resampler in
  let inputIndex := TransformPhysicalPointToContinuousIndex (geom input)
                      (Transform resampler (TransformIndexToPhysicalPoint g (index_of g p))) in
  px 0 (Execute resampler input) p =
    if IsInsideBuffer (geom input) inputIndex
    then Evaluate (Interpolator resampler) input inputIndex
    else DefaultPixelValue resampler.
Proof. intros Hp. unfold Execute, px. cbn [pixels]. apply tabulate_nth. exact Hp. Qed.

(** C8: the resampler both scripts configure (reference grid, linear
    interpolation, default value 0) returns an image with exactly the
    reference's geometry; each output voxel is the linear interpolation
    of the source at the continuous source index of the voxel's physical
    point mapped through the transform when that index lies within
    [[-1/2, n - 1/2)] on every axis, and 0 otherwise; the linear
    interpolation reproduces the source voxels at grid nodes. *)
Theorem resample_onto_reference_grid (reference input : Image Q) (T : Point -> Point) :
  let out := Execute (mkResampleImageFilter (geom reference) T sitkLinear 0) input in
  register_resample_moving reference input T = out /\
  subtract_postop_from_preop reference input T = binary_op Qminus reference out /\
  geom out = geom reference /\
  length (pixels out) = npix (geom reference) /\
  (forall p, (p < npix (geom reference))%nat ->
     let inputIndex :=
       TransformPhysicalPointToContinuousIndex (geom input)
         (T (TransformIndexToPhysicalPoint (geom reference) (index_of (geom reference) p))) in
     ((forall dim, (dim < 3)%nat ->
         0 - (1 # 2) <= nth dim inputIndex 0 /\
         nth dim inputIndex 0 < inject_Z (Z.of_nat (nth dim (size (geom input)) 0%nat) - 1) + (1 # 2)) ->
      px 0 out p = LinearEvaluateAtContinuousIndex input inputIndex) /\
     (~ (forall dim, (dim < 3)%nat ->
           0 - (1 # 2) <= nth dim inputIndex 0 /\
           nth dim inputIndex 0 < inject_Z (Z.of_nat (nth dim (size (geom input)) 0%nat) - 1) + (1 # 2)) ->
      px 0 out p = 0)) /\
  (forall nx ny nz i j k,
     size (geom input) = [nx; ny; nz] -> (i < nx)%nat -> (j < ny)%nat -> (k < nz)%nat ->
     LinearEvaluateAtContinuousIndex input
       [inject_Z (Z.of_nat i); inject_Z (Z.of_nat j); inject_Z (Z.of_nat k)]
     == px 0 input (i + nx * (j + ny * k))%nat).
Proof.
  intros out. split; [reflexivity|]. split; [reflexivity|].
  split; [reflexivity|]. split; [apply tabulate_length|]. split.
  - intros p Hp inputIndex.
    pose proof (Execute_px (mkResampleImageFilter (geom reference) T sitkLinear 0) input p Hp)
      as E. cbn zeta in E. fold out in E. cbn [ReferenceImage Transform Interpolator
      DefaultPixelValue Evaluate] in E. fold inputIndex in E. split.
    + intros Hin. apply IsInsideBuffer_spec in Hin. rewrite Hin in E. exact E.
    + intros Hout. destruct (IsInsideBuffer _ _) eqn:Hb; [|exact E].
      exfalso. apply Hout. apply IsInsideBuffer_spec. exact Hb.
  - intros nx ny nz i j k. apply linear_evaluate_at_node.
Qed.

(** ** The subtraction step *)

(** C5 (as the code has it): [subtract_postop_from_preop] makes no
    explicit compatibility check and never fails on the grids: it first
    resamples postop onto the preop grid and then returns preop minus the
    resampled postop, voxel by voxel, with the preop geometry. *)
Theorem subtract_resamples_then_subtracts (preop postop : Image Q) (T : Point -> Point) :
  let resampled := Execute (mkResampleImageFilter (geom preop) T sitkLinear 0) postop in
  exists diff,
    subtract_postop_from_preop preop postop T = Some diff /\
    geom diff = geom preop /\
    (forall p, (p < length (pixels preop))%nat -> (p < npix (geom preop))%nat ->
       px 0 diff p = px 0 preop p - px 0 resampled p).
Proof.
  intros resampled. eexists. split.
  - unfold subtract_postop_from_preop. fold resampled.
    apply binary_op_same_space. apply same_physical_space_refl.
  - split; [reflexivity|]. intros p Hp Hn. unfold px. cbn [pixels].
    apply zipWith_nth; [exact Hp|]. unfold resampled, Execute. cbn [pixels].
    rewrite tabulate_length. exact Hn.
Qed.

(** C5 refuted: a one-voxel preop and a two-voxel postop are not
    grid-compatible, and [subtract_postop_from_preop] returns a
    difference image for them rather than failing. *)
Lemma subtract_accepts_mismatched_grids :
  same_physical_space (geom one_voxel_volume) (geom two_voxel_volume) = false /\
  subtract_postop_from_preop one_voxel_volume two_voxel_volume (fun x => x)
  = Some (mkImage (geom one_voxel_volume) [3]).
Proof. split; vm_compute; reflexivity. Qed.

(** ** The Otsu threshold *)

Lemma fold_extreme_mem (le : Q -> Q -> bool) (l : list Q) (m0 : Q) :
  In (fold_left (fun m v => if le m v then m else v) l m0) (m0 :: l).
Proof.
  revert m0. induction l as [|v l IH]; intros m0; simpl; [left; reflexivity|].
  destruct (le m0 v).
  - destruct (IH m0) as [H | H]; [left; exact H | right; right; exact H].
  - right. exact (IH v).
Qed.

Lemma histogram_minimum_le (l : list Q) m0 v :
  In v (m0 :: l) ->
  fold_left (fun m v => if Qle_bool m v then m else v) l m0 <= v.
Proof.
  revert m0 v. induction l as [|x l IH]; intros m0 v Hv; simpl in *.
  - destruct Hv as [<- | []]. apply Qle_refl.
  - destruct (Qle_bool m0 x) eqn:E.
    + apply Qle_bool_iff in E. destruct Hv as [<- | [<- | Hv]].
      * apply IH. left. reflexivity.
      * apply Qle_trans with m0; [apply IH; left; reflexivity | exact E].
      * apply IH. right. exact Hv.
    + destruct Hv as [<- | [<- | Hv]].
      * apply Qle_trans with x; [apply IH; left; reflexivity|].
        apply Qlt_le_weak, Qnot_le_lt. intros H. apply Qle_bool_iff in H. congruence.
      * apply IH. left. reflexivity.
      * apply IH. right. exact Hv.
Qed.

Lemma histogram_maximum_ge (l : list Q) m0 v :
  In v (m0 :: l) ->
  v <= fold_left (fun m v => if Qle_bool v m then m else v) l m0.
Proof.
  revert m0 v. induction l as [|x l IH]; intros m0 v Hv; simpl in *.
  - destruct Hv as [<- | []]. apply Qle_refl.
  - destruct (Qle_bool x m0) eqn:E.
    + apply Qle_bool_iff in E. destruct Hv as [<- | [<- | Hv]].
      * apply IH. left. reflexivity.
      * apply Qle_trans with m0; [exact E | apply IH; left; reflexivity].
      * apply IH. right. exact Hv.
    + destruct Hv as [<- | [<- | Hv]].
      * apply Qle_trans with x; [|apply IH; left; reflexivity].
        apply Qlt_le_weak, Qnot_le_lt. intros H. apply Qle_bool_iff in H. congruence.
      * apply IH. left. reflexivity.
      * apply IH. right. exact Hv.
Qed.

Section TwoValues.
Variables (a b : Q) (l : list Q).
Hypothesis Hab : a < b.
Hypothesis Hvals : forall v, In v l -> v = a \/ v = b.
Hypothesis Ha : In a l.
Hypothesis Hb : In b l.

Lemma hd_two_values : hd 0 l = a \/ hd 0 l = b.
Proof. destruct l as [|x l']; [contradiction|]. apply Hvals. left. reflexivity. Qed.

Lemma histogram_minimum_two_values : histogram_minimum l = a.
Proof.
  unfold histogram_minimum.
  assert (Hle : fold_left (fun m v => if Qle_bool m v then m else v) l (hd 0 l) <= a)
    by (apply histogram_minimum_le; right; exact Ha).
  destruct (fold_extreme_mem Qle_bool l (hd 0 l)) as [E | E]; rewrite <- ?E in Hle |- *.
  - destruct hd_two_values as [H | H]; rewrite H in Hle |- *; [reflexivity|].
    exfalso. apply (Qlt_not_le _ _ Hab Hle).
  - destruct (Hvals _ E) as [H | H]; rewrite H in Hle |- *; [reflexivity|].
    exfalso. apply (Qlt_not_le _ _ Hab Hle).
Qed.

Lemma histogram_maximum_two_values : histogram_maximum l = b.
Proof.
  unfold histogram_maximum.
  assert (Hge : b <= fold_left (fun m v => if Qle_bool v m then m else v) l (hd 0 l))
    by (apply histogram_maximum_ge; right; exact Hb).
  destruct (fold_extreme_mem (fun m v => Qle_bool v m) l (hd 0 l)) as [E | E];
    rewrite <- ?E in Hge |- *.
  - destruct hd_two_values as [H | H]; rewrite H in Hge |- *; [|reflexivity].
    exfalso. apply (Qlt_not_le _ _ Hab Hge).
  - destruct (Hvals _ E) as [H | H]; rewrite H in Hge |- *; [|reflexivity].
    exfalso. apply (Qlt_not_le _ _ Hab Hge).
Qed.

Lemma bin_width_two_values :
  histogram_bin_width l == (b - a) * (12801 # 1638400).
Proof.
  unfold histogram_bin_width.
  rewrite histogram_minimum_two_values, histogram_maximum_two_values.
  unfold numberOfHistogramBins, MarginalScale. cbn [Z.of_nat Pos.of_succ_nat Pos.succ].
  field.
Qed.


Lemma bin_of_min_two_values : bin_of a (histogram_bin_width l) a = 0%nat.
Proof.
  unfold bin_of. rewrite (Qfloor_comp _ 0) by (unfold Qdiv; ring). reflexivity.
Qed.

Lemma bin_of_max_two_values : bin_of a (histogram_bin_width l) b = 127%nat.
Proof.
  unfold bin_of.
  rewrite (Qfloor_comp _ (1638400 # 12801)); [reflexivity|].
  rewrite bin_width_two_values. field.
  intros H. lra.
Qed.

Lemma histogram_frequencies_length : length (histogram_frequencies l) = 128%nat.
Proof. unfold histogram_frequencies. apply tabulate_length. Qed.

Lemma histogram_frequencies_middle (k : nat) :
  (1 <= k <= 126)%nat -> nth k (histogram_frequencies l) 0%nat = 0%nat.
Proof.
  intros Hk. unfold histogram_frequencies. rewrite histogram_minimum_two_values.
  rewrite tabulate_nth by (unfold numberOfHistogramBins; lia).
  rewrite (filter_ext_in _ (fun _ => false)).
  - clear. induction l as [|v l' IH]; [reflexivity | exact IH].
  - intros v Hv. destruct (Hvals v Hv) as [-> | ->].
    + rewrite bin_of_min_two_values. apply Nat.eqb_neq. lia.
    + rewrite bin_of_max_two_values. apply Nat.eqb_neq. lia.
Qed.

End TwoValues.

Lemma Qsum_zero (g : nat -> Q) (lo n : nat) :
  (forall i, (lo <= i < lo + n)%nat -> g i == 0) -> Qsum g lo n == 0.
Proof.
  revert lo. induction n as [|n IH]; intros lo H; [reflexivity|].
  change (Qsum g lo (S n)) with (Qred (g lo + Qsum g (S lo) n)).
  rewrite Qred_correct, (H lo ltac:(lia)), (IH (S lo)) by (intros i Hi; apply H; lia).
  reflexivity.
Qed.

Lemma Qsum_prefix (g : nat -> Q) (k : nat) :
  (forall i, (1 <= i <= k)%nat -> g i == 0) -> Qsum g 0 (S k) == Qsum g 0 1.
Proof.
  intros H.
  change (Qsum g 0 (S k)) with (Qred (g 0%nat + Qsum g 1 k)).
  change (Qsum g 0 1) with (Qred (g 0%nat + 0)).
  rewrite !Qred_correct, Qsum_zero by (intros i Hi; apply H; lia). reflexivity.
Qed.

(** Empty bins after the first leave the between-class variance unchanged. *)
Lemma varBetween_flat (mn w : Q) (freqs : list nat) (k : nat) :
  (forall i, (1 <= i <= k)%nat -> nth i freqs 0%nat = 0%nat) ->
  varBetween mn w freqs k == varBetween mn w freqs 0.
Proof.
  intros H. unfold varBetween.
  rewrite (Qsum_prefix (freqQ freqs) k), (Qsum_prefix (weighted mn w freqs) k).
  - reflexivity.
  - intros i Hi. unfold weighted, freqQ. rewrite (H i Hi). unfold Qmult. simpl.
    unfold Qeq. simpl. lia.
  - intros i Hi. unfold freqQ. rewrite (H i Hi). reflexivity.
Qed.

Lemma max_step_flat (mn w : Q) (freqs : list nat) (ks : list nat) :
  (forall k, In k ks -> varBetween mn w freqs k == varBetween mn w freqs 0) ->
  fold_left (max_step mn w freqs) ks (0%nat, varBetween mn w freqs 0)
  = (0%nat, varBetween mn w freqs 0).
Proof.
  induction ks as [|k ks IH]; intros H; [reflexivity|].
  simpl. unfold max_step at 2. cbn [snd]. unfold Qgtb.
  rewrite (proj1 (Qeq_alt _ _) (H k (or_introl eq_refl))).
  apply IH. intros k' Hk'. apply H. right. exact Hk'.
Qed.

Lemma maxVarThresholdIndex_flat (mn w : Q) (freqs : list nat) :
  length freqs = 128%nat ->
  (forall i, (1 <= i <= 126)%nat -> nth i freqs 0%nat = 0%nat) ->
  maxVarThresholdIndex mn w freqs = 0%nat.
Proof.
  intros Hl H. unfold maxVarThresholdIndex. rewrite Hl.
  rewrite max_step_flat; [reflexivity|].
  intros k Hk. apply in_seq in Hk. apply varBetween_flat.
  intros i Hi. apply H. simpl in Hk. lia.
Qed.

(** C9 (as the code has it): on a volume taking two values [a < b], the
    threshold of [sitk.OtsuThreshold] lies strictly between them. *)
Theorem otsu_two_values_separated (a b : Q) (l : list Q) :
  a < b -> (forall v, In v l -> v = a \/ v = b) -> In a l -> In b l ->
  a < itk_otsu_threshold l /\ itk_otsu_threshold l < b.
Proof.
  intros Hab Hvals Ha Hb.
  pose proof (bin_width_two_values a b l Hab Hvals Ha Hb) as Hw.
  unfold itk_otsu_threshold, otsu_threshold_of_histogram.
  rewrite maxVarThresholdIndex_flat.
  2: exact (histogram_frequencies_length l).
  2: exact (histogram_frequencies_middle a b l Hab Hvals Ha Hb).
  rewrite (histogram_minimum_two_values a b l Hab Hvals Ha Hb).
  unfold GetBinMax. set (w := histogram_bin_width l) in *.
  change (inject_Z (Z.of_nat 1)) with 1.
  split; lra.
Qed.

(** C9 refuted: for 2000 voxels at 0 and 200 at 1 against one voxel at
    10, the Otsu threshold is 12801/163840 (the upper edge of the first
    histogram bin), inside the first cluster's range [[0, 1]] and not
    between the two clusters. *)
Lemma otsu_splits_larger_cluster :
  Qred (itk_otsu_threshold imbalanced_clusters) = 12801 # 163840 /\
  itk_otsu_threshold imbalanced_clusters < 1.
Proof.
  assert (E : Qred (itk_otsu_threshold imbalanced_clusters) = 12801 # 163840)
    by (vm_compute; reflexivity).
  split; [exact E|]. rewrite <- Qred_correct, E. reflexivity.
Qed.

Lemma otsu_two_values_separated_witness :
  2 < 7 /\ (forall v, In v two_valued_volume -> v = 2 \/ v = 7) /\
  In 2 two_valued_volume /\ In 7 two_valued_volume /\
  2 < itk_otsu_threshold two_valued_volume /\ itk_otsu_threshold two_valued_volume < 7.
Proof.
  assert (H27 : (2 : Q) < 7) by lra.
  assert (Hv : forall v, In v two_valued_volume -> v = 2 \/ v = 7).
  { intros v Hv. unfold two_valued_volume in Hv.
    repeat (destruct Hv as [<- | Hv]; [auto|]). destruct Hv. }
  assert (H2 : In 2 two_valued_volume) by (left; reflexivity).
  assert (H7 : In 7 two_valued_volume) by (right; right; right; left; reflexivity).
  split; [exact H27|]. split; [exact Hv|]. split; [exact H2|]. split; [exact H7|].
  exact (otsu_two_values_separated 2 7 two_valued_volume H27 Hv H2 H7).
Defined.

(** ** The batch drivers *)

Section DriverLoop.
Context {Content : Type}.
Variable skip : FileSystem Content -> Path -> bool.
Variable outputs : list FileName.
Variable compute : FileSystem Content -> Path -> list (option Content).

(** The skip test reads only the files of the case it tests. *)
Hypothesis skip_local : forall fs1 fs2 d,
  (forall n, fs1 d n = fs2 d n) -> skip fs1 d = skip fs2 d.

Lemma write_outputs_frame (fs : FileSystem Content) d outs rs d' n :
  d' <> d -> write_outputs fs d outs rs d' n = fs d' n.
Proof.
  intros Hd. revert fs rs. induction outs as [|o outs IH]; intros fs [|[c|] rs]; simpl;
    try reflexivity.
  rewrite IH. unfold write_file. apply Nat.eqb_neq in Hd. rewrite Hd. reflexivity.
Qed.

Lemma main_loop_skipped_not_run (fs : FileSystem Content) ds d :
  skip fs d = true -> ~ In d (snd (main_loop skip outputs compute fs ds)).
Proof.
  revert fs. induction ds as [|d0 ds IH]; intros fs Hs; simpl; [tauto|].
  destruct (skip fs d0) eqn:E; [apply IH; exact Hs|].
  assert (Hne : d0 <> d) by (intros <-; congruence).
  destruct (main_loop skip outputs compute _ ds) as [fs'' ran] eqn:Hm. simpl.
  intros [H | H]; [contradiction|].
  apply (IH (write_outputs fs d0 outputs (compute fs d0))); [|rewrite Hm; exact H].
  rewrite <- Hs. apply skip_local. intros n. apply write_outputs_frame. congruence.
Qed.

Lemma main_loop_frame (fs : FileSystem Content) ds d n :
  ~ In d (snd (main_loop skip outputs compute fs ds)) ->
  fst (main_loop skip outputs compute fs ds) d n = fs d n.
Proof.
  revert fs. induction ds as [|d0 ds IH]; intros fs Hd; simpl in *; [reflexivity|].
  destruct (skip fs d0); [apply IH; exact Hd|].
  destruct (main_loop skip outputs compute _ ds) as [fs'' ran] eqn:Hm. simpl in *.
  assert (Hne : d0 <> d) by tauto.
  specialize (IH (write_outputs fs d0 outputs (compute fs d0))). rewrite Hm in IH.
  simpl in IH. rewrite IH by tauto. apply write_outputs_frame. congruence.
Qed.

Lemma main_loop_ran (fs : FileSystem Content) ds :
  NoDup ds ->
  snd (main_loop skip outputs compute fs ds) = filter (fun d => negb (skip fs d)) ds.
Proof.
  revert fs. induction ds as [|d0 ds IH]; intros fs Hnd; [reflexivity|].
  inversion Hnd as [|? ? Hnin Hnd']; subst. simpl.
  destruct (skip fs d0) eqn:E; simpl; [apply IH; exact Hnd'|].
  destruct (main_loop skip outputs compute _ ds) as [fs'' ran] eqn:Hm. simpl.
  f_equal. specialize (IH (write_outputs fs d0 outputs (compute fs d0)) Hnd').
  rewrite Hm in IH. simpl in IH. rewrite IH.
  apply filter_ext_in. intros d Hd. f_equal. apply skip_local. intros n.
  apply write_outputs_frame. intros ->. contradiction.
Qed.

(** The loop runs the per-case function on exactly the cases that are not
    skipped initially, in order, and leaves every file of a skipped case
    as it was. *)
Lemma main_loop_skips (fs : FileSystem Content) ds :
  NoDup ds ->
  snd (main_loop skip outputs compute fs ds) = filter (fun d => negb (skip fs d)) ds /\
  (forall d, skip fs d = true ->
     forall n, fst (main_loop skip outputs compute fs ds) d n = fs d n).
Proof.
  intros Hnd. split; [apply main_loop_ran; exact Hnd|].
  intros d Hs n. apply main_loop_frame. apply main_loop_skipped_not_run. exact Hs.
Qed.

End DriverLoop.

Lemma binarize_skip_local {C} (fs1 fs2 : FileSystem C) d :
  (forall n, fs1 d n = fs2 d n) -> binarize_skip fs1 d = binarize_skip fs2 d.
Proof. intros H. unfold binarize_skip, file_exists. rewrite H. reflexivity. Qed.

Lemma register_skip_local {C} (fs1 fs2 : FileSystem C) d :
  (forall n, fs1 d n = fs2 d n) -> register_skip fs1 d = register_skip fs2 d.
Proof. intros H. unfold register_skip, file_exists. rewrite !H. reflexivity. Qed.

Lemma subtract_skip_local {C} (fs1 fs2 : FileSystem C) d :
  (forall n, fs1 d n = fs2 d n) -> subtract_skip fs1 d = subtract_skip fs2 d.
Proof. intros H. unfold subtract_skip, file_exists. rewrite H. reflexivity. Qed.

(** C10: on a list of distinct case directories, each driver runs its
    per-case function on exactly the cases whose outputs were not already
    there (burrhole_mask_autoannot.nii.gz; both postop_transformed.nii.gz
    and postop_to_preop.tfm; diff.nii.gz), in order, and leaves every file
    of a skipped case unchanged. *)
Theorem drivers_skip_completed_cases {C : Type}
    (create_burrhole_mask register_and_resample subtract_postop_from_preop
       : FileSystem C -> Path -> list (option C))
    (fs : FileSystem C) (case_dirs : list Path) :
  NoDup case_dirs ->
  (snd (binarize_main create_burrhole_mask fs case_dirs)
     = filter (fun d => negb (file_exists fs d burrhole_mask_autoannot_nii_gz)) case_dirs /\
   forall d, file_exists fs d burrhole_mask_autoannot_nii_gz = true ->
     forall n, fst (binarize_main create_burrhole_mask fs case_dirs) d n = fs d n) /\
  (snd (register_main register_and_resample fs case_dirs)
     = filter (fun d => negb (file_exists fs d postop_transformed_nii_gz
                              && file_exists fs d postop_to_preop_tfm)) case_dirs /\
   forall d, file_exists fs d postop_transformed_nii_gz = true ->
     file_exists fs d postop_to_preop_tfm = true ->
     forall n, fst (register_main register_and_resample fs case_dirs) d n = fs d n) /\
  (snd (subtract_main subtract_postop_from_preop fs case_dirs)
     = filter (fun d => negb (file_exists fs d diff_nii_gz)) case_dirs /\
   forall d, file_exists fs d diff_nii_gz = true ->
     forall n, fst (subtract_main subtract_postop_from_preop fs case_dirs) d n = fs d n).
Proof.
  intros Hnd.
  destruct (main_loop_skips binarize_skip [burrhole_mask_autoannot_nii_gz]
              create_burrhole_mask binarize_skip_local fs case_dirs Hnd) as [B1 B2].
  destruct (main_loop_skips register_skip [postop_transformed_nii_gz; postop_to_preop_tfm]
              register_and_resample register_skip_local fs case_dirs Hnd) as [R1 R2].
  destruct (main_loop_skips subtract_skip [diff_nii_gz]
              subtract_postop_from_preop subtract_skip_local fs case_dirs Hnd) as [S1 S2].
  split; [split; [exact B1 | exact B2]|].
  split; [split; [exact R1|] | split; [exact S1 | exact S2]].
  intros d H1 H2. apply R2. unfold register_skip. rewrite H1, H2. reflexivity.
Qed.

(** On [sample_files] with cases [0; 1; 2]: register.py runs on cases 0
    and 2 (case 2 has the registered image but not the transform), and
    subtract.py leaves the diff.nii.gz of case 1 as it was. *)
Lemma drivers_skip_completed_cases_witness :
  NoDup [0; 1; 2]%nat /\
  snd (register_main (fun _ _ => [Some 5%nat; Some 6%nat]) sample_files [0; 1; 2]%nat)
    = [0; 2]%nat /\
  fst (subtract_main (fun _ _ => [Some 7%nat]) sample_files [0; 1; 2]%nat) 1%nat diff_nii_gz
    = Some 1%nat.
Proof.
  assert (Hnd : NoDup [0; 1; 2]%nat)
    by (repeat constructor; simpl; intuition discriminate).
  destruct (drivers_skip_completed_cases (fun _ _ => [Some 7%nat])
              (fun _ _ => [Some 5%nat; Some 6%nat]) (fun _ _ => [Some 7%nat])
              sample_files [0; 1; 2]%nat Hnd) as [_ [[R1 _] [_ S2]]].
  split; [exact Hnd|]. split.
  - rewrite R1. reflexivity.
  - rewrite (S2 1%nat eq_refl diff_nii_gz). reflexivity.
Defined.

Lemma max_step_index (mn w : Q) (freqs : list nat) ks best :
  In (fst (fold_left (max_step mn w freqs) ks best)) (fst best :: ks).
Proof.
  revert best. induction ks as [|k ks IH]; intros best; simpl; [left; reflexivity|].
  assert (Hs : max_step mn w freqs best k = (k, varBetween mn w freqs k)
               \/ max_step mn w freqs best k = best)
    by (unfold max_step; destruct (Qgtb _ _); auto).
  destruct Hs as [-> | ->].
  - destruct (IH (k, varBetween mn w freqs k)) as [H | H]; simpl in H.
    + right. left. exact H.
    + right. right. exact H.
  - destruct (IH best) as [H | H]; [left; exact H | right; right; exact H].
Qed.

Lemma maxVarThresholdIndex_le (mn w : Q) (freqs : list nat) :
  (maxVarThresholdIndex mn w freqs <= length freqs - 2)%nat.
Proof.
  unfold maxVarThresholdIndex.
  destruct (max_step_index mn w freqs (seq 1 (length freqs - 2)) (0%nat, varBetween mn w freqs 0))
    as [H | H]; simpl in H.
  - rewrite <- H. lia.
  - apply in_seq in H. lia.
Qed.

Lemma otsu_threshold_inside_range (l : list Q) (a b : Q) :
  In a l -> In b l -> ~ a == b ->
  histogram_minimum l < itk_otsu_threshold l /\ itk_otsu_threshold l < histogram_maximum l.
Proof.
  intros Ha Hb Hab.
  assert (Hmn : forall v, In v l -> histogram_minimum l <= v)
    by (intros v Hv; apply histogram_minimum_le; right; exact Hv).
  assert (Hmx : forall v, In v l -> v <= histogram_maximum l)
    by (intros v Hv; apply histogram_maximum_ge; right; exact Hv).
  pose proof (Hmn a Ha). pose proof (Hmn b Hb). pose proof (Hmx a Ha). pose proof (Hmx b Hb).
  assert (Hlt : histogram_minimum l < histogram_maximum l).
  { destruct (Qlt_le_dec (histogram_minimum l) (histogram_maximum l)) as [Hc|Hc]; [exact Hc|].
    exfalso. apply Hab. lra. }
  pose proof (maxVarThresholdIndex_le (histogram_minimum l) (histogram_bin_width l)
                (histogram_frequencies l)) as Hk.
  unfold histogram_frequencies in Hk at 2. rewrite tabulate_length in Hk.
  unfold itk_otsu_threshold, otsu_threshold_of_histogram, GetBinMax.
  set (k := maxVarThresholdIndex _ _ _) in *.
  set (mn := histogram_minimum l) in *. set (mx := histogram_maximum l) in *.
  assert (Hw : histogram_bin_width l == (mx - mn) * (12801 # 1638400)).
  { unfold histogram_bin_width. fold mn mx. unfold numberOfHistogramBins, MarginalScale.
    change (inject_Z (Z.of_nat 128)) with (128 # 1). field. }
  set (K := inject_Z (Z.of_nat (S k))).
  assert (HK1 : 1 <= K) by (unfold K; change (1:Q) with (inject_Z 1); rewrite <- Zle_Qle; lia).
  assert (HK2 : K <= 127) by (unfold K; change 127 with (inject_Z 127); rewrite <- Zle_Qle;
                               unfold numberOfHistogramBins in Hk; lia).
  rewrite Hw. set (d := mx - mn).
  assert (Hd : 0 < d) by (unfold d; lra).
  assert (E1 : 1 * (d * (12801 # 1638400)) <= K * (d * (12801 # 1638400)))
    by (apply Qmult_le_compat_r; [exact HK1 | lra]).
  assert (E2 : K * (d * (12801 # 1638400)) <= 127 * (d * (12801 # 1638400)))
    by (apply Qmult_le_compat_r; [exact HK2 | lra]).
  unfold d in *. split; lra.
Qed.

Lemma fold_left_pick_in (f : Q -> Q -> Q) (l : list Q) (m0 : Q) :
  (forall m v, f m v = m \/ f m v = v) -> In (fold_left f l m0) (m0 :: l).
Proof.
  intros Hf. revert m0. induction l as [|v l IH]; intros m0; simpl; [left; reflexivity|].
  destruct (Hf m0 v) as [E | E]; rewrite E.
  - destruct (IH m0) as [H | H]; [left; exact H | right; right; exact H].
  - destruct (IH v) as [H | H]; [right; left; exact H | right; right; exact H].
Qed.

Lemma histogram_minimum_in (l : list Q) : l <> [] -> In (histogram_minimum l) l.
Proof.
  intros Hl. unfold histogram_minimum.
  destruct (fold_left_pick_in (fun m v => if Qle_bool m v then m else v) l (hd 0 l)) as [H|H].
  - intros m v. destruct (Qle_bool m v); auto.
  - rewrite <- H. destruct l; [congruence | left; reflexivity].
  - exact H.
Qed.

Lemma histogram_maximum_in (l : list Q) : l <> [] -> In (histogram_maximum l) l.
Proof.
  intros Hl. unfold histogram_maximum.
  destruct (fold_left_pick_in (fun m v => if Qle_bool v m then m else v) l (hd 0 l)) as [H|H].
  - intros m v. destruct (Qle_bool v m); auto.
  - rewrite <- H. destruct l; [congruence | left; reflexivity].
  - exact H.
Qed.

(** X7: with ITK's Otsu threshold, the threshold chosen on an image with two
    different intensities lies strictly between its minimum and maximum, so
    the candidate mask of [create_burrhole_mask] (OtsuThreshold(diff_bone,
    0, 1)) holds both a 0 and a 1 voxel. *)
Theorem otsu_mask_two_classes `{SitkFilters} (image : Image Q) (a b : Q) :
  (forall vs, otsu_threshold_value vs = itk_otsu_threshold vs) ->
  In a (pixels image) -> In b (pixels image) -> ~ a == b ->
  let t := itk_otsu_threshold (pixels image) in
  histogram_minimum (pixels image) < t /\ t < histogram_maximum (pixels image) /\
  In 0%Z (pixels (OtsuThreshold image 0 1)) /\ In 1%Z (pixels (OtsuThreshold image 0 1)).
Proof.
  intros Hot Ha Hb Hab t.
  destruct (otsu_threshold_inside_range (pixels image) a b Ha Hb Hab) as [H1 H2].
  fold t in H1, H2.
  assert (Hne : pixels image <> []) by (intros E; rewrite E in Ha; destruct Ha).
  split; [exact H1|]. split; [exact H2|].
  unfold OtsuThreshold. cbn [pixels]. rewrite Hot. fold t. split.
  - apply in_map_iff. exists (histogram_minimum (pixels image)).
    split; [|apply histogram_minimum_in, Hne].
    destruct (Qle_bool _ t) eqn:E; [reflexivity|].
    assert (E' : Qle_bool (histogram_minimum (pixels image)) t = true)
      by (apply Qle_bool_iff; lra). congruence.
  - apply in_map_iff. exists (histogram_maximum (pixels image)).
    split; [|apply histogram_maximum_in, Hne].
    destruct (Qle_bool _ t) eqn:E; [|reflexivity].
    apply Qle_bool_iff in E. lra.
Qed.

Lemma continuous_index_of_node (g : Geometry) (idx : list nat) :
  ~ mat3_det (IndexToPhysicalPoint g) == 0 ->
  let ci := TransformPhysicalPointToContinuousIndex g (TransformIndexToPhysicalPoint g idx) in
  nth 0 ci 0 == inject_Z (Z.of_nat (nth 0 idx 0%nat)) /\
  nth 1 ci 0 == inject_Z (Z.of_nat (nth 1 idx 0%nat)) /\
  nth 2 ci 0 == inject_Z (Z.of_nat (nth 2 idx 0%nat)).
Proof.
  intros Hdet. unfold TransformPhysicalPointToContinuousIndex, TransformIndexToPhysicalPoint.
  unfold mat3_det in Hdet. unfold mat3_inverse.
  set (M := IndexToPhysicalPoint g) in *.
  set (x := inject_Z (Z.of_nat (nth 0 idx 0%nat))).
  set (y := inject_Z (Z.of_nat (nth 1 idx 0%nat))).
  set (z := inject_Z (Z.of_nat (nth 2 idx 0%nat))).
  cbn [seq map nth]. unfold mat3_get at 1 2 3 4 5 6 7 8 9. cbn [Nat.mul Nat.add map nth].
  unfold mat3_get in *. cbn [Nat.mul Nat.add] in *.
  set (a := nth 0 M 0) in *. set (b := nth 1 M 0) in *. set (c := nth 2 M 0) in *.
  set (d := nth 3 M 0) in *. set (e := nth 4 M 0) in *. set (f := nth 5 M 0) in *.
  set (g' := nth 6 M 0) in *. set (h := nth 7 M 0) in *. set (i := nth 8 M 0) in *.
  split; [|split].
  all: cbn [nth]; field; exact Hdet.
Qed.

Lemma linear_evaluate_near_node (img : Image Q) nx ny nz i j k c0 c1 c2 :
  size (geom img) = [nx; ny; nz] -> (i < nx)%nat -> (j < ny)%nat -> (k < nz)%nat ->
  c0 == inject_Z (Z.of_nat i) -> c1 == inject_Z (Z.of_nat j) -> c2 == inject_Z (Z.of_nat k) ->
  LinearEvaluateAtContinuousIndex img [c0; c1; c2] == px 0 img (i + nx * (j + ny * k))%nat.
Proof.
  intros Hs Hi Hj Hk H0 H1 H2. unfold LinearEvaluateAtContinuousIndex.
  cbn [map seq nth].
  rewrite (Qfloor_comp _ _ H0), (Qfloor_comp _ _ H1), (Qfloor_comp _ _ H2), !Qfloor_Z.
  cbn [fold_left seq neighbour_step nth app Nat.odd Nat.even Nat.div2 negb].
  rewrite !Z.max_l by lia.
  replace (GetPixel img [Z.of_nat i; Z.of_nat j; Z.of_nat k])
    with (px 0 img (i + nx * (j + ny * k))%nat)
    by (unfold GetPixel; rewrite Hs; cbn [nth]; rewrite !Nat2Z.id; reflexivity).
  rewrite H0, H1, H2. ring.
Qed.

Lemma linear_index_of (nx ny nz p : nat) :
  (p < nx * ny * nz)%nat ->
  (p mod nx + nx * ((p / nx) mod ny + ny * (p / (nx * ny))))%nat = p.
Proof.
  intros Hp.
  assert (nx <> 0)%nat by (intro; subst; lia).
  assert (ny <> 0)%nat by (intro; subst; lia).
  rewrite <- Nat.Div0.div_div.
  pose proof (Nat.div_mod (p / nx) ny ltac:(assumption)) as E1.
  pose proof (Nat.div_mod p nx ltac:(assumption)) as E2.
  rewrite (Nat.add_comm ((p / nx) mod ny)), <- E1, Nat.add_comm. symmetry. exact E2.
Qed.

Lemma node_inside (c : Q) (n s : nat) :
  c == inject_Z (Z.of_nat n) -> (n < s)%nat ->
  0 - (1 # 2) <= c /\ c < inject_Z (Z.of_nat s - 1) + (1 # 2).
Proof.
  intros Hc Hn. rewrite Hc.
  assert (inject_Z (Z.of_nat n) <= inject_Z (Z.of_nat s - 1)) by (rewrite <- Zle_Qle; lia).
  assert (0 <= inject_Z (Z.of_nat n)) by (change 0 with (inject_Z 0); rewrite <- Zle_Qle; lia).
  split; lra.
Qed.

(** The proof of X8, shared with X9. *)
Lemma resample_identity_core (img : Image Q) nx ny nz :
  size (geom img) = [nx; ny; nz] ->
  ~ mat3_det (IndexToPhysicalPoint (geom img)) == 0 ->
  let out := Execute (mkResampleImageFilter (geom img) (fun x => x) sitkLinear 0) img in
  geom out = geom img /\ length (pixels out) = npix (geom img) /\
  forall p, (p < npix (geom img))%nat -> px 0 out p == px 0 img p.
Proof.
  intros Hs Hdet out. split; [reflexivity|]. split; [apply tabulate_length|].
  intros p Hp.
  pose proof (Execute_px (mkResampleImageFilter (geom img) (fun x => x) sitkLinear 0) img p Hp)
    as E. cbn zeta in E. fold out in E.
  cbn [ReferenceImage Transform Interpolator DefaultPixelValue Evaluate] in E.
  pose proof (npix_3 _ _ _ _ Hs) as Hn. rewrite Hn in Hp.
  pose proof (index_of_bound (geom img) nx ny nz p 0 Hs Hp ltac:(lia)) as B0.
  pose proof (index_of_bound (geom img) nx ny nz p 1 Hs Hp ltac:(lia)) as B1.
  pose proof (index_of_bound (geom img) nx ny nz p 2 Hs Hp ltac:(lia)) as B2.
  destruct (continuous_index_of_node (geom img) (index_of (geom img) p) Hdet) as [C0 [C1 C2]].
  set (ci := TransformPhysicalPointToContinuousIndex _ _) in *.
  rewrite (index_of_3 _ nx ny nz p Hs) in B0, B1, B2, C0, C1, C2. rewrite Hs in B0, B1, B2.
  cbn [nth] in B0, B1, B2, C0, C1, C2.
  assert (Hin : IsInsideBuffer (geom img) ci = true).
  { apply IsInsideBuffer_spec. rewrite Hs.
    intros dim Hd. destruct dim as [|[|[|dim]]]; cbn [nth].
    - exact (node_inside _ _ _ C0 B0).
    - exact (node_inside _ _ _ C1 B1).
    - exact (node_inside _ _ _ C2 B2).
    - lia. }
  rewrite Hin in E. rewrite E.
  assert (Hci : ci = [nth 0 ci 0; nth 1 ci 0; nth 2 ci 0]) by reflexivity.
  rewrite Hci.
  rewrite (linear_evaluate_near_node img nx ny nz _ _ _ _ _ _ Hs B0 B1 B2 C0 C1 C2).
  rewrite (linear_index_of nx ny nz p Hp). reflexivity.
Qed.

(** X8: the resampling of register.py and subtract.py (reference grid,
    linear interpolation, default 0) with the identity transform onto the
    image's own 3-D grid (with an invertible direction-spacing matrix)
    gives the same grid and the same value at every voxel. *)
Theorem resample_identity_reproduces_input (img : Image Q) nx ny nz :
  size (geom img) = [nx; ny; nz] ->
  ~ mat3_det (IndexToPhysicalPoint (geom img)) == 0 ->
  let out := Execute (mkResampleImageFilter (geom img) (fun x => x) sitkLinear 0) img in
  geom out = geom img /\ length (pixels out) = npix (geom img) /\
  forall p, (p < npix (geom img))%nat -> px 0 out p == px 0 img p.
Proof. exact (resample_identity_core img nx ny nz). Qed.

(** X9: subtract.py [subtract_postop_from_preop] with the same image as
    preop and postop and the identity transform succeeds and gives a
    difference image on the preop grid that is 0 at every voxel. *)
Theorem subtract_self_identity_is_zero (img : Image Q) nx ny nz :
  size (geom img) = [nx; ny; nz] -> length (pixels img) = npix (geom img) ->
  ~ mat3_det (IndexToPhysicalPoint (geom img)) == 0 ->
  exists diff, subtract_postop_from_preop img img (fun x => x) = Some diff /\
    geom diff = geom img /\ length (pixels diff) = npix (geom img) /\
    forall p, px 0 diff p == 0.
Proof.
  intros Hs Hl Hdet.
  destruct (resample_identity_core img nx ny nz Hs Hdet) as [Hg [Hlo Hpx]].
  set (out := Execute _ img) in *.
  exists (mkImage (geom img) (zipWith Qminus (pixels img) (pixels out))). split.
  { unfold subtract_postop_from_preop. fold out. apply binary_op_same_space.
    rewrite Hg. apply same_physical_space_refl. }
  split; [reflexivity|]. split.
  { cbn [pixels]. rewrite zipWith_length, Hl, Hlo. lia. }
  intros p. unfold px at 1. cbn [pixels].
  destruct (Nat.lt_ge_cases p (npix (geom img))) as [Hp | Hp].
  - rewrite (zipWith_nth _ _ _ p 0 0) by lia.
    specialize (Hpx p Hp). unfold px in Hpx. rewrite Hpx. ring.
  - rewrite nth_overflow; [reflexivity|]. rewrite zipWith_length. lia.
Qed.

(** X6: the component filter of [create_skull_mask] and
    [create_burrhole_mask] (ConnectedComponent, LabelShapeStatistics, the
    union of the kept labels, BinaryThreshold 1..255) keeps the mask's grid,
    gives only 0 and 1, sets 1 only on foreground voxels of its input, keeps
    every foreground voxel when the minimum size is at most 1, and gives an
    all-zero mask when the minimum size exceeds the number of voxels. *)
Theorem keep_large_components_filter (min_size : nat) (mask : Image Z) :
  let out := keep_large_components min_size mask in
  geom out = geom mask /\
  (forall p, px 0%Z out p = 0%Z \/ px 0%Z out p = 1%Z) /\
  (forall p, px 0%Z out p <> 0%Z -> (p < npix (geom mask))%nat /\ px 0%Z mask p <> 0%Z) /\
  ((min_size <= 1)%nat ->
     forall p, (p < npix (geom mask))%nat -> px 0%Z mask p <> 0%Z -> px 0%Z out p = 1%Z) /\
  ((npix (geom mask) < min_size)%nat -> forall p, px 0%Z out p = 0%Z).
Proof.
  intros out.
  assert (Hover : forall p, (npix (geom mask) <= p)%nat -> px 0%Z out p = 0%Z).
  { intros p Hp. unfold px. apply nth_overflow. unfold out.
    rewrite keep_large_components_length. exact Hp. }
  destruct (ConnectedComponent_inv mask) as [HL _].
  split; [apply keep_large_components_geom|]. split; [|split; [|split]].
  - intros p. destruct (Nat.lt_ge_cases p (npix (geom mask))) as [Hp | Hp].
    + unfold out. rewrite keep_large_components_px by exact Hp.
      destruct (_ && _); auto.
    + left. apply Hover. exact Hp.
  - intros p Hnz. destruct (Nat.lt_ge_cases p (npix (geom mask))) as [Hp | Hp].
    + split; [exact Hp|]. unfold out in Hnz. rewrite keep_large_components_px in Hnz by exact Hp.
      destruct (negb _) eqn:E; [|simpl in Hnz; contradiction].
      apply negb_true_iff, Z.eqb_neq in E. intros Hm.
      apply E, (proj2 (ConnectedComponent_zero_iff mask p Hp)), Hm.
    + exfalso. apply Hnz, Hover, Hp.
  - intros Hmin p Hp Hm. unfold out. rewrite keep_large_components_px by exact Hp.
    assert (Hl : negb (Z.eqb (px 0%Z (ConnectedComponent mask) p) 0) = true).
    { apply negb_true_iff, Z.eqb_neq. intros H0.
      apply Hm, (proj1 (ConnectedComponent_zero_iff mask p Hp)), H0. }
    rewrite Hl. simpl.
    assert (Hc : (0 < GetNumberOfPixels (ConnectedComponent mask)
                         (px 0%Z (ConnectedComponent mask) p))%nat).
    { unfold GetNumberOfPixels. apply (count_occ_In Z.eq_dec). unfold px. apply nth_In. lia. }
    replace (min_size <=? _)%nat with true; [reflexivity|]. symmetry. apply Nat.leb_le. lia.
  - intros Hbig p. destruct (Nat.lt_ge_cases p (npix (geom mask))) as [Hp | Hp].
    + unfold out. rewrite keep_large_components_px by exact Hp.
      replace (min_size <=? _)%nat with false; [destruct (negb _); reflexivity|].
      symmetry. apply Nat.leb_gt.
      pose proof (count_occ_bound Z.eq_dec (px 0%Z (ConnectedComponent mask) p)
                    (pixels (ConnectedComponent mask))).
      unfold GetNumberOfPixels. lia.
    + apply Hover, Hp.
Qed.

Lemma keep_large_components_01 (min_size : nat) (mask : Image Z) p :
  px 0%Z (keep_large_components min_size mask) p = 0%Z \/
  px 0%Z (keep_large_components min_size mask) p = 1%Z.
Proof.
  destruct (Nat.lt_ge_cases p (npix (geom mask))) as [Hp | Hp].
  - rewrite keep_large_components_px by exact Hp. destruct (_ && _); auto.
  - left. unfold px. apply nth_overflow. rewrite keep_large_components_length. exact Hp.
Qed.

Lemma px_01_in (img : Image Z) :
  (forall p, px 0%Z img p = 0%Z \/ px 0%Z img p = 1%Z) ->
  forall v, In v (pixels img) -> v = 0%Z \/ v = 1%Z.
Proof.
  intros H v Hv. apply (In_nth _ _ 0%Z) in Hv as [p [_ <-]]. apply H.
Qed.

Lemma zipWith_mul_01 (l1 l2 : list Z) :
  (forall v, In v l1 -> v = 0%Z \/ v = 1%Z) ->
  (forall v, In v l2 -> v = 0%Z \/ v = 1%Z) ->
  forall p, nth p (zipWith Z.mul l1 l2) 0%Z = 0%Z \/ nth p (zipWith Z.mul l1 l2) 0%Z = 1%Z.
Proof.
  revert l2. induction l1 as [|a l1 IH]; intros [|b l2] H1 H2 p;
    try (left; destruct p; reflexivity).
  destruct p as [|p]; cbn [zipWith nth].
  - destruct (H1 a (or_introl eq_refl)) as [-> | ->];
      destruct (H2 b (or_introl eq_refl)) as [-> | ->]; auto.
  - apply IH; intros v Hv; [apply H1 | apply H2]; right; exact Hv.
Qed.

(** X5: register.py [create_skull_mask] always returns a 0/1 mask, and the
    mask binarize.py [create_burrhole_mask] writes is a 0/1 mask on the
    grid of the diff image. *)
Theorem written_masks_binary `{SitkFilters} (cfg : SkullMaskConfig) (bcfg : BinarizeConfig)
    (image preop diff : Image Q) :
  (forall p, px 0%Z (create_skull_mask cfg image) p = 0%Z \/
             px 0%Z (create_skull_mask cfg image) p = 1%Z) /\
  (forall m, create_burrhole_mask bcfg preop diff = Some m ->
     geom m = geom diff /\
     forall p, px 0%Z m p = 0%Z \/ px 0%Z m p = 1%Z).
Proof.
  split.
  - intros p. apply keep_large_components_01.
  - intros m Hm. unfold create_burrhole_mask in Hm.
    destruct (binary_op Qmult _ _) as [diff_bone|] eqn:Eb; [|discriminate].
    set (cleaned := keep_large_components _ _) in Hm.
    set (head := compute_head_cap_mask_depth _ preop) in Hm.
    destruct (binary_op_some _ _ _ _ Hm) as [vb [Hvb ->]]. split.
    + change (geom cleaned = geom diff). unfold cleaned. rewrite keep_large_components_geom.
      destruct (binary_op_some _ _ _ _ Eb) as [vb' [_ ->]]. reflexivity.
    + intros p. unfold px. cbn [pixels]. apply zipWith_mul_01.
      * apply px_01_in. intros q. apply keep_large_components_01.
      * intros v Hv. apply (second_input_values_in _ _ _ Hvb) in Hv. revert v Hv.
        apply px_01_in. intros q. apply head_cap_mask_binary.
Qed.

Section DriverRerun.
Context {Content : Type}.
Variable outputs : list FileName.
Variable compute : FileSystem Content -> Path -> list (option Content).

Lemma write_file_keeps (fs : FileSystem Content) d n c d' n' :
  file_exists fs d' n' = true -> file_exists (write_file fs d n c) d' n' = true.
Proof.
  unfold file_exists, write_file. intros H. destruct (_ && _); [reflexivity | exact H].
Qed.

Lemma write_outputs_keeps (fs : FileSystem Content) d outs rs d' n' :
  file_exists fs d' n' = true -> file_exists (write_outputs fs d outs rs) d' n' = true.
Proof.
  revert fs rs. induction outs as [|o outs IH]; intros fs [|[c|] rs] H; simpl; auto.
  apply IH, write_file_keeps, H.
Qed.

Lemma write_outputs_all (fs : FileSystem Content) d outs cs :
  length cs = length outs ->
  forall n, In n outs -> file_exists (write_outputs fs d outs (map Some cs)) d n = true.
Proof.
  revert fs cs. induction outs as [|o outs IH]; intros fs [|c cs] Hl n Hn; simpl in *;
    try lia; try contradiction.
  destruct Hn as [<- | Hn].
  - apply write_outputs_keeps. unfold file_exists, write_file.
    rewrite Nat.eqb_refl. unfold FileName_eqb. destruct (FileName_eq_dec _ _) as [_ | Hne]; [reflexivity|].
    contradiction.
  - apply IH; [lia | exact Hn].
Qed.

Lemma main_loop_keeps (fs : FileSystem Content) ds d n :
  file_exists fs d n = true ->
  file_exists (fst (main_loop (all_outputs_exist outputs) outputs compute fs ds)) d n = true.
Proof.
  revert fs. induction ds as [|d0 ds IH]; intros fs H; simpl; [exact H|].
  destruct (all_outputs_exist outputs fs d0); [apply IH, H|].
  destruct (main_loop _ _ _ _ ds) as [fs'' ran] eqn:Hm.
  specialize (IH (write_outputs fs d0 outputs (compute fs d0))). rewrite Hm in IH.
  apply IH, write_outputs_keeps, H.
Qed.

Hypothesis compute_succeeds : forall fs d,
  exists cs, compute fs d = map Some cs /\ length cs = length outputs.

Lemma main_loop_completes (fs : FileSystem Content) ds :
  forall d, In d ds ->
  all_outputs_exist outputs (fst (main_loop (all_outputs_exist outputs) outputs compute fs ds)) d = true.
Proof.
  revert fs. induction ds as [|d0 ds IH]; intros fs d Hd; [destruct Hd|].
  destruct Hd as [<- | Hd].
  - simpl. destruct (all_outputs_exist outputs fs d0) eqn:E.
    + unfold all_outputs_exist in *. rewrite forallb_forall in *.
      intros n Hn. apply main_loop_keeps, E, Hn.
    + destruct (main_loop _ _ _ _ ds) as [fs'' ran] eqn:Hm. simpl.
      specialize (main_loop_keeps (write_outputs fs d0 outputs (compute fs d0)) ds d0).
      rewrite Hm. simpl. intros Hk.
      unfold all_outputs_exist. apply forallb_forall. intros n Hn. apply Hk.
      destruct (compute_succeeds fs d0) as [cs [-> Hl]].
      apply write_outputs_all; assumption.
  - simpl. destruct (all_outputs_exist outputs fs d0); [apply IH, Hd|].
    destruct (main_loop _ _ _ _ ds) as [fs'' ran] eqn:Hm. simpl.
    specialize (IH (write_outputs fs d0 outputs (compute fs d0)) d Hd). rewrite Hm in IH.
    exact IH.
Qed.

Lemma main_loop_all_skipped (fs : FileSystem Content) ds :
  (forall d, In d ds -> all_outputs_exist outputs fs d = true) ->
  main_loop (all_outputs_exist outputs) outputs compute fs ds = (fs, []).
Proof.
  induction ds as [|d0 ds IH]; intros H; simpl; [reflexivity|].
  rewrite (H d0 (or_introl eq_refl)). apply IH. intros d Hd. apply H. right. exact Hd.
Qed.

Lemma main_loop_rerun (fs : FileSystem Content) ds :
  let fs1 := fst (main_loop (all_outputs_exist outputs) outputs compute fs ds) in
  main_loop (all_outputs_exist outputs) outputs compute fs1 ds = (fs1, []).
Proof. intros fs1. apply main_loop_all_skipped. apply main_loop_completes. Qed.

End DriverRerun.

Lemma binarize_skip_all {C} (fs : FileSystem C) d :
  binarize_skip fs d = all_outputs_exist [burrhole_mask_autoannot_nii_gz] fs d.
Proof. unfold binarize_skip, all_outputs_exist. simpl. rewrite andb_true_r. reflexivity. Qed.

Lemma register_skip_all {C} (fs : FileSystem C) d :
  register_skip fs d = all_outputs_exist [postop_transformed_nii_gz; postop_to_preop_tfm] fs d.
Proof. unfold register_skip, all_outputs_exist. simpl. rewrite andb_true_r. reflexivity. Qed.

Lemma subtract_skip_all {C} (fs : FileSystem C) d :
  subtract_skip fs d = all_outputs_exist [diff_nii_gz] fs d.
Proof. unfold subtract_skip, all_outputs_exist. simpl. rewrite andb_true_r. reflexivity. Qed.

Lemma main_loop_ext {C} (skip1 skip2 : FileSystem C -> Path -> bool) outputs compute fs ds :
  (forall fs d, skip1 fs d = skip2 fs d) ->
  main_loop skip1 outputs compute fs ds = main_loop skip2 outputs compute fs ds.
Proof.
  intros H. revert fs. induction ds as [|d ds IH]; intros fs; simpl; [reflexivity|].
  rewrite H. destruct (skip2 fs d); [apply IH|]. rewrite IH. reflexivity.
Qed.

(** X4: the [main] loops of binarize.py, register.py and subtract.py: when
    the per-case computation writes all of its outputs, a second run over
    the same cases, on the file system the first run left, writes nothing
    and runs no computation. *)
Theorem drivers_rerun_does_nothing {C : Type}
    (create_burrhole_mask register_and_resample subtract_postop_from_preop
       : FileSystem C -> Path -> list (option C))
    (fs : FileSystem C) (case_dirs : list Path) :
  (forall fs d, exists c, create_burrhole_mask fs d = [Some c]) ->
  (forall fs d, exists c1 c2, register_and_resample fs d = [Some c1; Some c2]) ->
  (forall fs d, exists c, subtract_postop_from_preop fs d = [Some c]) ->
  (let fs1 := fst (binarize_main create_burrhole_mask fs case_dirs) in
   binarize_main create_burrhole_mask fs1 case_dirs = (fs1, [])) /\
  (let fs1 := fst (register_main register_and_resample fs case_dirs) in
   register_main register_and_resample fs1 case_dirs = (fs1, [])) /\
  (let fs1 := fst (subtract_main subtract_postop_from_preop fs case_dirs) in
   subtract_main subtract_postop_from_preop fs1 case_dirs = (fs1, [])).
Proof.
  intros HB HR HS. unfold binarize_main, register_main, subtract_main.
  rewrite !(main_loop_ext binarize_skip (all_outputs_exist [burrhole_mask_autoannot_nii_gz]))
    by apply binarize_skip_all.
  rewrite !(main_loop_ext register_skip
              (all_outputs_exist [postop_transformed_nii_gz; postop_to_preop_tfm]))
    by apply register_skip_all.
  rewrite !(main_loop_ext subtract_skip (all_outputs_exist [diff_nii_gz]))
    by apply subtract_skip_all.
  split; [|split]; apply main_loop_rerun.
  - intros fs' d. destruct (HB fs' d) as [c ->]. exists [c]. split; reflexivity.
  - intros fs' d. destruct (HR fs' d) as [c1 [c2 ->]]. exists [c1; c2]. split; reflexivity.
  - intros fs' d. destruct (HS fs' d) as [c ->]. exists [c]. split; reflexivity.
Qed.

Open Scope nat_scope.
Open Scope string_scope.

Lemma string_compare_refl_ascii (a : Ascii.ascii) : Ascii.compare a a = Eq.
Proof. unfold Ascii.compare. apply N.compare_refl. Qed.

Lemma string_compare_refl (s : String.string) : String.compare s s = Eq.
Proof.
  pose proof (String.compare_antisym s s) as H.
  destruct (String.compare s s); simpl in H; congruence.
Qed.

Lemma path_compare_eq (a b : PyPath) : path_compare a b = Eq <-> a = b.
Proof.
  split.
  - revert b. induction a as [|x a IH]; intros [|y b]; simpl; try discriminate; auto.
    destruct (String.compare x y) eqn:E; try discriminate.
    apply String.compare_eq_iff in E. intros H. f_equal; [exact E | apply IH, H].
  - intros <-. induction a as [|x a IH]; simpl; [reflexivity|].
    rewrite string_compare_refl. exact IH.
Qed.

Lemma path_compare_antisym (a b : PyPath) : path_compare b a = CompOpp (path_compare a b).
Proof.
  revert b. induction a as [|x a IH]; intros [|y b]; simpl; try reflexivity.
  rewrite (String.compare_antisym y x).
  destruct (String.compare x y); simpl; [apply IH | reflexivity | reflexivity].
Qed.

Lemma path_eqb_eq (a b : PyPath) : path_eqb a b = true <-> a = b.
Proof.
  unfold path_eqb. rewrite <- path_compare_eq.
  destruct (path_compare a b); split; congruence.
Qed.

Lemma path_eqb_neq (a b : PyPath) : path_eqb a b = false <-> a <> b.
Proof.
  rewrite <- path_eqb_eq. destruct (path_eqb a b); split; congruence.
Qed.

Lemma path_eqb_refl (a : PyPath) : path_eqb a a = true.
Proof. apply path_eqb_eq. reflexivity. Qed.

Lemma ascii_compare_lt_trans (a b c : Ascii.ascii) :
  Ascii.compare a b = Lt -> Ascii.compare b c = Lt -> Ascii.compare a c = Lt.
Proof. unfold Ascii.compare. rewrite !N.compare_lt_iff. lia. Qed.

Lemma string_compare_lt_trans (s1 s2 s3 : String.string) :
  String.compare s1 s2 = Lt -> String.compare s2 s3 = Lt -> String.compare s1 s3 = Lt.
Proof.
  revert s2 s3. induction s1 as [|a s1 IH]; intros [|b s2] [|c s3]; simpl; try discriminate; auto.
  destruct (Ascii.compare a b) eqn:Eab; try discriminate;
    destruct (Ascii.compare b c) eqn:Ebc; try discriminate; intros H1 H2.
  - apply Ascii.compare_eq_iff in Eab, Ebc. subst. rewrite string_compare_refl_ascii. eauto.
  - apply Ascii.compare_eq_iff in Eab. subst. rewrite Ebc. reflexivity.
  - apply Ascii.compare_eq_iff in Ebc. subst. rewrite Eab. reflexivity.
  - rewrite (ascii_compare_lt_trans a b c Eab Ebc). reflexivity.
Qed.

Lemma path_compare_lt_trans (a b c : PyPath) :
  path_compare a b = Lt -> path_compare b c = Lt -> path_compare a c = Lt.
Proof.
  revert b c. induction a as [|x a IH]; intros [|y b] [|z c]; simpl; try discriminate; auto.
  destruct (String.compare x y) eqn:Exy; try discriminate;
    destruct (String.compare y z) eqn:Eyz; try discriminate; intros H1 H2.
  - apply String.compare_eq_iff in Exy, Eyz. subst. rewrite string_compare_refl. eauto.
  - apply String.compare_eq_iff in Exy. subst. rewrite Eyz. reflexivity.
  - apply String.compare_eq_iff in Eyz. subst. rewrite Exy. reflexivity.
  - rewrite (string_compare_lt_trans x y z Exy Eyz). reflexivity.
Qed.

(** *** Sorting *)


Lemma path_le_total (a b : PyPath) : path_ltb a b = false -> path_le b a.
Proof. unfold path_le. tauto. Qed.

Lemma insert_path_perm (x : PyPath) (l : list PyPath) : Permutation (x :: l) (insert_path x l).
Proof.
  induction l as [|y l IH]; simpl; [reflexivity|].
  destruct (path_ltb x y); [reflexivity|].
  rewrite perm_swap. constructor. exact IH.
Qed.

Lemma insert_path_sorted (x : PyPath) (l : list PyPath) :
  Sorted path_le l -> Sorted path_le (insert_path x l).
Proof.
  induction 1 as [|y l Hs IH Hhd]; simpl.
  - repeat constructor.
  - destruct (path_ltb x y) eqn:E.
    + constructor; [constructor; assumption|]. constructor. unfold path_le.
      unfold path_ltb in *. rewrite path_compare_antisym.
      destruct (path_compare x y); simpl; congruence.
    + constructor; [exact IH|].
      destruct l as [|z l]; simpl.
      * constructor. exact E.
      * inversion Hhd as [|? ? Hyz]; subst.
        destruct (path_ltb x z); constructor; [exact E | exact Hyz].
Qed.

Lemma py_sorted_perm (l : list PyPath) : Permutation l (py_sorted l).
Proof.
  unfold py_sorted. assert (H : forall acc, Permutation (acc ++ l) (fold_left (fun acc x => insert_path x acc) l acc)).
  { induction l as [|x l IH]; intros acc; simpl; [rewrite app_nil_r; reflexivity|].
    rewrite <- IH. rewrite <- insert_path_perm.
    symmetry. apply Permutation_middle. }
  exact (H []).
Qed.

Lemma py_sorted_sorted (l : list PyPath) : Sorted path_le (py_sorted l).
Proof.
  unfold py_sorted. assert (H : forall acc, Sorted path_le acc ->
                           Sorted path_le (fold_left (fun acc x => insert_path x acc) l acc)).
  { induction l as [|x l IH]; intros acc Hacc; simpl; [exact Hacc|].
    apply IH, insert_path_sorted, Hacc. }
  apply H. constructor.
Qed.

(** A sorted list without repetition is strictly increasing. *)
Lemma sorted_nodup_strict (l : list PyPath) :
  Sorted path_le l -> NoDup l -> Sorted (fun a b => path_compare a b = Lt) l.
Proof.
  induction 1 as [|a l Hs IH Hhd]; intros Hnd; constructor.
  - apply IH. inversion Hnd; assumption.
  - destruct l as [|b l]; constructor. inversion Hhd as [|? ? Hab]; subst.
    inversion Hnd as [|? ? Hnin _]; subst.
    unfold path_le, path_ltb in Hab. rewrite path_compare_antisym in Hab.
    destruct (path_compare a b) eqn:E; simpl in Hab; try discriminate; [|reflexivity].
    apply path_compare_eq in E. subst. exfalso. apply Hnin. left. reflexivity.
Qed.

(** The loops that collect with [append] are filters. *)
Lemma fold_append_filter {A B} (f : A -> bool) (g : A -> B) (l : list A) (acc : list B) :
  fold_left (fun acc x => if f x then acc ++ [g x] else acc) l acc = acc ++ map g (filter f l).
Proof.
  revert acc. induction l as [|x l IH]; intros acc; simpl; [rewrite app_nil_r; reflexivity|].
  destruct (f x); rewrite IH; [|reflexivity]. rewrite <- app_assoc. reflexivity.
Qed.

(** *** The disk *)

Lemma find_filter_irrelevant {A} (f g : A -> bool) (l : list A) :
  (forall x, f x = true -> g x = true) -> find f (filter g l) = find f l.
Proof.
  intros H. induction l as [|x l IH]; simpl; [reflexivity|].
  destruct (g x) eqn:Eg; simpl.
  - destruct (f x); [reflexivity | exact IH].
  - destruct (f x) eqn:Ef; [rewrite (H x Ef) in Eg; discriminate | exact IH].
Qed.

Lemma find_none_intro {A} (f : A -> bool) (l : list A) :
  (forall x, In x l -> f x = false) -> find f l = None.
Proof.
  induction l as [|x l IH]; intros H; simpl; [reflexivity|].
  rewrite (H x (or_introl eq_refl)). apply IH. intros y Hy. apply H. right. exact Hy.
Qed.

Lemma find_app {A} (f : A -> bool) (l1 l2 : list A) :
  find f (l1 ++ l2) = match find f l1 with Some x => Some x | None => find f l2 end.
Proof. induction l1 as [|x l1 IH]; simpl; [reflexivity|]. destruct (f x); auto. Qed.

Lemma disk_lookup_write {C} (disk : Disk C) p e q :
  disk_lookup (disk_write disk p e) q = if path_eqb q p then Some e else disk_lookup disk q.
Proof.
  unfold disk_lookup, disk_write. rewrite find_app.
  destruct (path_eqb q p) eqn:E.
  - apply path_eqb_eq in E. subst q.
    replace (find _ (filter _ disk)) with (@None (PyPath * Entry C)).
    + simpl. rewrite path_eqb_refl. reflexivity.
    + symmetry. apply find_none_intro. intros x Hx. apply filter_In in Hx as [_ Hx].
      destruct (path_eqb (fst x) p); [discriminate | reflexivity].
  - rewrite find_filter_irrelevant.
    + destruct (find _ disk) as [[? ?]|]; [reflexivity|]. simpl.
      apply path_eqb_neq in E. destruct (path_eqb p q) eqn:E'; [|reflexivity].
      apply path_eqb_eq in E'. congruence.
    + intros x Hx. apply path_eqb_eq in Hx. rewrite Hx.
      apply path_eqb_neq in E. destruct (path_eqb q p) eqn:E'; [|reflexivity].
      apply path_eqb_eq in E'. congruence.
Qed.

Lemma disk_lookup_in {C} (disk : Disk C) q :
  disk_lookup disk q <> None <-> In q (map fst disk).
Proof.
  unfold disk_lookup. split.
  - destruct (find _ disk) as [[q' e]|] eqn:E; [|congruence]. intros _.
    apply find_some in E as [Hin Hq]. simpl in Hq. apply path_eqb_eq in Hq. subst q'.
    apply in_map_iff. exists (q, e). auto.
  - intros Hin. apply in_map_iff in Hin as [[q' e] [Hq Hin]]. simpl in Hq. subst q'.
    destruct (find _ disk) as [[? ?]|] eqn:E; [discriminate|].
    pose proof (find_none _ _ E _ Hin) as E'. clear E. rename E' into E. simpl in E.
    rewrite path_eqb_refl in E. discriminate.
Qed.

(** [q] is listed by [iterdir p] exactly when it is [p / name] for some
    entry of the disk. *)
Lemma in_iterdir {C} (disk : Disk C) p q :
  In q (iterdir disk p) <-> In q (map fst disk) /\ q = p ++ [path_name q].
Proof.
  unfold iterdir. rewrite filter_In. split.
  - intros [Hin Hq]. split; [exact Hin|]. destruct q as [|x q]; [discriminate|].
    apply path_eqb_eq in Hq. rewrite <- Hq. unfold path_name.
    apply app_removelast_last. discriminate.
  - intros [Hin Hq]. split; [exact Hin|]. rewrite Hq. destruct p as [|x p]; simpl.
    + apply path_eqb_eq. reflexivity.
    + destruct (p ++ [path_name q]) eqn:E; [destruct p; discriminate|].
      apply path_eqb_eq. rewrite <- E, removelast_last. reflexivity.
Qed.

Lemma path_name_snoc (p : PyPath) n : path_name (p ++ [n]) = n.
Proof. unfold path_name. apply last_last. Qed.

(** A name among the files of a directory: a file entry of that name. *)
Lemma name_in_children {C} (disk : Disk C) (h : PyPath -> bool) p n :
  (forall q, disk_lookup disk q <> None -> h q = is_file disk q) ->
  name_in n (map path_name (filter h (iterdir disk p))) = is_file disk (p ++ [n]).
Proof.
  intros Hh. apply eq_true_iff_eq. unfold name_in. rewrite existsb_exists. split.
  - intros [m [Hm Heq]]. apply String.eqb_eq in Heq. subst m.
    apply in_map_iff in Hm as [q [Hq Hin]]. apply filter_In in Hin as [Hin Hhq].
    apply in_iterdir in Hin as [Hk Hqp]. rewrite Hq in Hqp. subst q.
    rewrite <- Hh; [exact Hhq|]. apply disk_lookup_in. exact Hk.
  - intros Hf. exists n. split; [|apply String.eqb_refl].
    apply in_map_iff. exists (p ++ [n]). split; [apply path_name_snoc|].
    assert (Hk : disk_lookup disk (p ++ [n]) <> None)
      by (unfold is_file in Hf; destruct (disk_lookup _ _); congruence).
    apply filter_In. split.
    + apply in_iterdir. split; [apply disk_lookup_in, Hk|]. rewrite path_name_snoc. reflexivity.
    + rewrite Hh; [exact Hf | exact Hk].
Qed.

Lemma nondir_is_file {C} (disk : Disk C) q :
  disk_lookup disk q <> None -> negb (is_dir disk q) = is_file disk q.
Proof.
  unfold is_dir, is_file. destruct (disk_lookup disk q) as [[]|]; simpl; congruence.
Qed.

Lemma fold_left_map_comm {A B C} (f : A -> B -> A) (g : C -> B) (l : list C) (a : A) :
  fold_left f (map g l) a = fold_left (fun a x => f a (g x)) l a.
Proof. revert a. induction l as [|x l IH]; intros a; simpl; auto. Qed.

Lemma os_walk_collect {C} (wanted : list String.string -> bool) (disk : Disk C) root :
  fold_left (fun case_dirs '(dirpath, _, filenames) =>
               if wanted filenames then case_dirs ++ [dirpath] else case_dirs)
            (os_walk disk root) []
  = filter (fun d => wanted (map path_name (filter (fun q => negb (is_dir disk q))
                                                  (iterdir disk d))))
      (filter (fun d => is_dir disk d && path_eqb (firstn (length root) d) root) (map fst disk)).
Proof.
  unfold os_walk. rewrite fold_left_map_comm.
  etransitivity; [apply (fold_append_filter _ (fun d : PyPath => d))|].
  simpl. rewrite map_id. reflexivity.
Qed.

Lemma find_case_dirs_by_spec {C} (wanted : list String.string -> bool) (disk : Disk C) root :
  NoDup (map fst disk) ->
  (forall p, In p (find_case_dirs_by wanted disk root) <->
     is_dir disk p = true /\ firstn (length root) p = root /\
     wanted (map path_name (filter (fun q => negb (is_dir disk q)) (iterdir disk p))) = true) /\
  NoDup (find_case_dirs_by wanted disk root) /\
  Sorted (fun a b => path_compare a b = Lt) (find_case_dirs_by wanted disk root).
Proof.
  intros Hnd. unfold find_case_dirs_by. cbv zeta. rewrite os_walk_collect.
  set (l := filter _ (filter _ (map fst disk))).
  assert (Hl : NoDup l) by (apply NoDup_filter, NoDup_filter, Hnd).
  pose proof (py_sorted_perm l) as Hp.
  assert (Hnd' : NoDup (py_sorted l)) by (eapply Permutation_NoDup; eassumption).
  split; [|split; [exact Hnd'|apply sorted_nodup_strict; [apply py_sorted_sorted | exact Hnd']]].
  intros p. split.
  - intros Hin. apply (Permutation_in _ (Permutation_sym Hp)) in Hin.
    unfold l in Hin. apply filter_In in Hin as [Hin Hw]. apply filter_In in Hin as [_ Hd].
    apply andb_prop in Hd as [Hd Hr]. apply path_eqb_eq in Hr. auto.
  - intros (Hd & Hr & Hw). apply (Permutation_in _ Hp). unfold l.
    apply filter_In. split; [|exact Hw]. apply filter_In. split.
    + apply disk_lookup_in. unfold is_dir in Hd. destruct (disk_lookup disk p); congruence.
    + rewrite Hd. apply path_eqb_eq in Hr. rewrite Hr. reflexivity.
Qed.

Lemma nondir_names {C} (disk : Disk C) p n :
  name_in n (map path_name (filter (fun q => negb (is_dir disk q)) (iterdir disk p)))
  = is_file disk (p ++ [n]).
Proof. apply name_in_children. apply nondir_is_file. Qed.


(** X1: [find_case_dirs] of binarize.py, register.py and subtract.py: a
    path is a case exactly when it is a directory at or below [root] (the
    walk visits [root] too) holding, as files, every input its script reads;
    each case comes once, in increasing path order. *)
Theorem find_case_dirs_correct {C} (disk : Disk C) root :
  NoDup (map fst disk) ->
  (forall p, In p (binarize_find_case_dirs disk root) <->
     is_dir disk p = true /\ firstn (length root) p = root /\
     is_file disk (p ++ ["preop.nii.gz"]) = true /\ is_file disk (p ++ ["diff.nii.gz"]) = true) /\
  (forall p, In p (register_find_case_dirs disk root) <->
     is_dir disk p = true /\ firstn (length root) p = root /\
     is_file disk (p ++ ["preop.nii.gz"]) = true /\ is_file disk (p ++ ["postop.nii.gz"]) = true) /\
  (forall p, In p (subtract_find_case_dirs disk root) <->
     is_dir disk p = true /\ firstn (length root) p = root /\
     is_file disk (p ++ ["preop.nii.gz"]) = true /\ is_file disk (p ++ ["postop.nii.gz"]) = true /\
     is_file disk (p ++ ["postop_to_preop.tfm"]) = true) /\
  (NoDup (binarize_find_case_dirs disk root) /\ strictly_sorted (binarize_find_case_dirs disk root)) /\
  (NoDup (register_find_case_dirs disk root) /\ strictly_sorted (register_find_case_dirs disk root)) /\
  (NoDup (subtract_find_case_dirs disk root) /\ strictly_sorted (subtract_find_case_dirs disk root)).
Proof.
  intros Hnd. unfold binarize_find_case_dirs, register_find_case_dirs, subtract_find_case_dirs,
    strictly_sorted.
  destruct (find_case_dirs_by_spec (fun filenames =>
    name_in "preop.nii.gz" filenames && name_in "diff.nii.gz" filenames) disk root Hnd)
    as (Hb & Hb1 & Hb2).
  destruct (find_case_dirs_by_spec (fun filenames =>
    name_in "preop.nii.gz" filenames && name_in "postop.nii.gz" filenames) disk root Hnd)
    as (Hr & Hr1 & Hr2).
  destruct (find_case_dirs_by_spec (fun filenames =>
    name_in "preop.nii.gz" filenames && name_in "postop.nii.gz" filenames
    && name_in "postop_to_preop.tfm" filenames) disk root Hnd)
    as (Hs & Hs1 & Hs2).
  split; [|split; [|split; [|split; [|split]]]]; auto; intros p;
    [rewrite Hb | rewrite Hr | rewrite Hs]; rewrite !nondir_names, !andb_true_iff; tauto.
Qed.

Lemma child_names {C} (disk : Disk C) c n :
  name_in n (child_file_names disk c) = is_file disk (c ++ [n]).
Proof. apply name_in_children. reflexivity. Qed.

Lemma find_cases_fold {C} (disk : Disk C) (h : list String.string -> bool) l acc :
  fold_left (fun cases child =>
               if negb (is_dir disk child) then cases else
               let files := child_file_names disk child in
               if h files then cases ++ [child] else cases) l acc
  = acc ++ filter (fun c => is_dir disk c && h (child_file_names disk c)) l.
Proof.
  revert acc. induction l as [|x l IH]; intros acc; simpl; [rewrite app_nil_r; reflexivity|].
  destruct (is_dir disk x); simpl; rewrite IH; [|reflexivity].
  destruct (h _); [rewrite <- app_assoc|]; reflexivity.
Qed.

Lemma StronglySorted_filter_keep {A} (R : A -> A -> Prop) (f : A -> bool) (l : list A) :
  StronglySorted R l -> StronglySorted R (filter f l).
Proof.
  induction 1 as [|x l Hs IH Hall]; simpl; [constructor|].
  destruct (f x); [|exact IH]. constructor; [exact IH|].
  rewrite Forall_forall in *. intros y Hy. apply filter_In in Hy as [Hy _]. auto.
Qed.

Lemma filter_filter_and {A} (f g : A -> bool) (l : list A) :
  filter f (filter g l) = filter (fun x => g x && f x) l.
Proof.
  induction l as [|x l IH]; simpl; [reflexivity|].
  destruct (g x); simpl; [destruct (f x); simpl; rewrite IH; reflexivity | exact IH].
Qed.

Lemma find_cases_with_label_filter {C} (disk : Disk C) root :
  find_cases_with_label disk root =
  if is_dir disk root then
    filter (fun c => is_dir disk c && (name_in "preop.nii.gz" (child_file_names disk c)
                     && name_in "burrhole_mask_autoannot.nii.gz" (child_file_names disk c)))
      (py_sorted (iterdir disk root))
  else [].
Proof.
  unfold find_cases_with_label. destruct (is_dir disk root); [|reflexivity].
  apply (find_cases_fold disk (fun files =>
    name_in "preop.nii.gz" files && name_in "burrhole_mask_autoannot.nii.gz" files)).
Qed.

Lemma find_cases_without_label_filter {C} (disk : Disk C) root :
  find_cases_without_label disk root =
  if is_dir disk root then
    filter (fun c => is_dir disk c && name_in "preop.nii.gz" (child_file_names disk c))
      (py_sorted (iterdir disk root))
  else [].
Proof.
  unfold find_cases_without_label. destruct (is_dir disk root); [|reflexivity].
  apply (find_cases_fold disk (fun files => name_in "preop.nii.gz" files)).
Qed.

(** The two case searches of export_for_nnunet.py (the proof of X2, shared
    with the export theorem). *)
Lemma find_cases_spec {C} (disk : Disk C) root :
  NoDup (map fst disk) ->
  find_cases_with_label disk root
  = filter (fun c => is_file disk (c ++ ["burrhole_mask_autoannot.nii.gz"]))
      (find_cases_without_label disk root) /\
  (forall c, In c (find_cases_without_label disk root) <->
     is_dir disk root = true /\ (exists n, c = root ++ [n]) /\ is_dir disk c = true /\
     is_file disk (c ++ ["preop.nii.gz"]) = true) /\
  NoDup (find_cases_without_label disk root) /\
  strictly_sorted (find_cases_without_label disk root).
Proof.
  intros Hnd. unfold strictly_sorted.
  rewrite find_cases_with_label_filter, find_cases_without_label_filter.
  destruct (is_dir disk root) eqn:Hroot; simpl.
  2: { split; [reflexivity|]. split; [intros c; split; [intros []|intros [H _]; discriminate]|].
       split; constructor. }
  assert (Hnd' : NoDup (py_sorted (iterdir disk root))).
  { eapply Permutation_NoDup; [apply py_sorted_perm|]. apply NoDup_filter, Hnd. }
  split; [|split; [|split]].
  - rewrite filter_filter_and. apply filter_ext. intros c.
    rewrite !child_names. destruct (is_dir disk c), (is_file disk _); reflexivity.
  - intros c. rewrite filter_In.
    assert (Hp : In c (py_sorted (iterdir disk root)) <-> In c (iterdir disk root))
      by (split; apply Permutation_in; [symmetry|]; apply py_sorted_perm).
    rewrite Hp, in_iterdir, andb_true_iff, child_names. split.
    + intros [[Hk Hc] [Hd Hf]]. repeat split; auto. exists (path_name c). exact Hc.
    + intros (_ & [n Hc] & Hd & Hf). repeat split; auto.
      * apply disk_lookup_in. unfold is_dir in Hd. destruct (disk_lookup disk c); congruence.
      * rewrite Hc at 2. rewrite path_name_snoc. exact Hc.
  - apply NoDup_filter, Hnd'.
  - apply sorted_nodup_strict; [|apply NoDup_filter, Hnd'].
    apply StronglySorted_Sorted. apply StronglySorted_filter_keep.
    apply Sorted_StronglySorted; [|apply py_sorted_sorted].
    intros a b c Hab Hbc. unfold path_le, path_ltb in *.
    rewrite path_compare_antisym in Hab, Hbc |- *.
    destruct (path_compare a b) eqn:Eab; try discriminate;
      destruct (path_compare b c) eqn:Ebc; try discriminate.
    + apply path_compare_eq in Eab, Ebc. subst. rewrite (proj2 (path_compare_eq _ _) eq_refl). reflexivity.
    + apply path_compare_eq in Eab. subst. rewrite Ebc. reflexivity.
    + apply path_compare_eq in Ebc. subst. rewrite Eab. reflexivity.
    + rewrite (path_compare_lt_trans a b c Eab Ebc). reflexivity.
Qed.

(** X2: export_for_nnunet.py [find_cases_with_label] and
    [find_cases_without_label]: the cases without label requirement are the
    direct subdirectories of [root] holding a file preop.nii.gz (none when
    [root] is not a directory), once each and in increasing path order; the
    cases with label are exactly those of them that also hold
    burrhole_mask_autoannot.nii.gz, in the same order. *)
Theorem find_cases_correct {C} (disk : Disk C) root :
  NoDup (map fst disk) ->
  find_cases_with_label disk root
  = filter (fun c => is_file disk (c ++ ["burrhole_mask_autoannot.nii.gz"]))
      (find_cases_without_label disk root) /\
  (forall c, In c (find_cases_without_label disk root) <->
     is_dir disk root = true /\ (exists n, c = root ++ [n]) /\ is_dir disk c = true /\
     is_file disk (c ++ ["preop.nii.gz"]) = true) /\
  NoDup (find_cases_without_label disk root) /\
  strictly_sorted (find_cases_without_label disk root).
Proof. exact (find_cases_spec disk root). Qed.

Lemma disk_write_nodup {C} (d : Disk C) p e :
  NoDup (map fst d) -> NoDup (map fst (disk_write d p e)).
Proof.
  intros H. unfold disk_write. rewrite map_app. simpl.
  apply NoDup_app; [| constructor; [intros []|constructor] |].
  - induction d as [|x d IH]; simpl; [constructor|]. inversion H; subst.
    destruct (negb _); simpl; [|auto]. constructor; [|auto].
    intros Hin. apply in_map_iff in Hin as [y [Hy Hin]]. apply filter_In in Hin as [Hin _].
    apply H2. rewrite <- Hy. apply in_map, Hin.
  - intros x Hx [<- | []]. apply in_map_iff in Hx as [y [Hy Hin]].
    apply filter_In in Hin as [_ Hn]. rewrite Hy, path_eqb_refl in Hn. discriminate.
Qed.

Lemma mkdir_parents_prefix_dirs {C} (d : Disk C) p ns :
  (forall n, In n ns -> is_dir d (firstn n p) = true) ->
  fold_left (fun o n => bind_io o (fun disk =>
               let q := firstn n p in
               if is_dir disk q then Ok disk
               else if path_exists disk q then Raised disk
               else Ok (disk_write disk q EDir))) ns (Ok d) = Ok d.
Proof.
  induction ns as [|n ns IH]; intros H; simpl; [reflexivity|].
  rewrite (H n (or_introl eq_refl)). apply IH. intros m Hm. apply H. right. exact Hm.
Qed.

(** [ensure_dir] on a missing path whose ancestors are directories
    creates exactly that directory. *)
Lemma ensure_dir_new {C} (d : Disk C) p :
  p <> [] ->
  (forall n, 0 < n < length p -> is_dir d (firstn n p) = true) ->
  disk_lookup d p = None ->
  ensure_dir d p = Ok (disk_write d p EDir).
Proof.
  intros Hp Hanc Hnone. unfold ensure_dir, path_exists. rewrite Hnone. simpl.
  unfold mkdir_parents. destruct (length p) as [|k] eqn:Hl; [destruct p; simpl in Hl; congruence|].
  rewrite seq_S, fold_left_app, mkdir_parents_prefix_dirs.
  - cbn [fold_left bind_io Nat.add].
    replace (firstn (S k) p) with (firstn (length p) p) by (rewrite Hl; reflexivity).
    rewrite firstn_all.
    unfold is_dir, path_exists. rewrite Hnone. reflexivity.
  - intros n Hn. apply in_seq in Hn. apply Hanc. lia.
Qed.

Lemma bind_io_assoc {C} (o : Outcome C) f g :
  bind_io (bind_io o f) g = bind_io o (fun d => bind_io (f d) g).
Proof. destruct o; reflexivity. Qed.


Lemma copy_all_raised {C} pairs (d : Disk C) : copy_all pairs (Raised d) = Raised d.
Proof. induction pairs; simpl; auto. Qed.

Lemma copy_all_app {C} p1 p2 (o : Outcome C) :
  copy_all (p1 ++ p2) o = copy_all p2 (copy_all p1 o).
Proof. unfold copy_all. apply fold_left_app. Qed.

Lemma train_fold_copies {C} (s1 t1 s2 t2 : PyPath -> PyPath) (l : list PyPath) (o : Outcome C) :
  fold_left (fun o x => bind_io o (fun d => bind_io (copy d (s1 x) (t1 x))
                                            (fun d => copy d (s2 x) (t2 x)))) l o
  = copy_all (flat_map (fun x => [(s1 x, t1 x); (s2 x, t2 x)]) l) o.
Proof.
  revert o. induction l as [|x l IH]; intros o; simpl; [reflexivity|].
  rewrite IH. unfold copy_all. simpl. f_equal. destruct o; reflexivity.
Qed.

Lemma test_fold_copies {C} (s1 t1 : PyPath -> PyPath) (l : list PyPath) (o : Outcome C) :
  fold_left (fun o x => bind_io o (fun d => copy d (s1 x) (t1 x))) l o
  = copy_all (map (fun x => (s1 x, t1 x)) l) o.
Proof.
  revert o. induction l as [|x l IH]; intros o; simpl; [reflexivity|]. apply IH.
Qed.

(** A sequence of copies of files to fresh destinations in directories:
    each destination then holds its source's entry. *)
Lemma copy_all_fresh {C} (d : Disk C) pairs :
  (forall s t, In (s, t) pairs -> is_file d s = true /\ is_dir d (removelast t) = true /\
                                  disk_lookup d t = None) ->
  (forall s t s' t', In (s, t) pairs -> In (s', t') pairs -> t <> s' /\ t <> removelast t') ->
  NoDup (map snd pairs) ->
  exists d', copy_all pairs (Ok d) = Ok d' /\
    (forall q, disk_lookup d' q =
       match find (fun st => path_eqb (snd st) q) pairs with
       | Some (s, _) => disk_lookup d s
       | None => disk_lookup d q
       end) /\
    (NoDup (map fst d) -> NoDup (map fst d')).
Proof.
  revert d. induction pairs as [|[s t] pairs IH]; intros d Hok Hdis Hnd.
  { exists d. split; [reflexivity|]. split; [reflexivity | auto]. }
  destruct (Hok s t (or_introl eq_refl)) as (Hs & Hpar & Ht).
  destruct (disk_lookup d s) as [e|] eqn:Es; [|unfold is_file in Hs; rewrite Es in Hs; discriminate].
  assert (Hcopy : copy d s t = Ok (disk_write d t e)).
  { unfold copy. assert (Hnt : is_dir d t = false) by (unfold is_dir; rewrite Ht; reflexivity).
    rewrite Hnt, Es.
    assert (Hst : path_eqb s t = false).
    { apply path_eqb_neq. intros ->. rewrite Ht in Es. discriminate. }
    unfold is_file in Hs. rewrite Es in Hs.
    destruct e; try discriminate; rewrite ?Hst, ?Hpar, ?Hnt; reflexivity. }
  inversion Hnd as [|? ? Htn Hnd']; subst.
  assert (Hw : forall q, q <> t -> disk_lookup (disk_write d t e) q = disk_lookup d q).
  { intros q Hq. rewrite disk_lookup_write. apply path_eqb_neq in Hq. rewrite Hq. reflexivity. }
  destruct (IH (disk_write d t e)) as (d' & Hrun & Hlook & Hnd2).
  - intros s' t' Hin. destruct (Hok s' t' (or_intror Hin)) as (Hs' & Hpar' & Ht').
    destruct (Hdis s t s' t' (or_introl eq_refl) (or_intror Hin)) as [Hts Htr].
    assert (Htt : t' <> t) by (intros ->; apply Htn; apply (in_map snd _ (s', t)), Hin).
    unfold is_file, is_dir in *. rewrite !Hw by auto. auto.
  - intros s1 t1 s2 t2 H1 H2. apply (Hdis s1 t1 s2 t2); right; assumption.
  - exact Hnd'.
  - exists d'. split; [simpl; rewrite Hcopy; exact Hrun|]. split.
    + intros q. rewrite Hlook. simpl.
      destruct (path_eqb t q) eqn:Etq.
      * apply path_eqb_eq in Etq. subst q.
        replace (find (fun st : PyPath * PyPath => path_eqb (snd st) t) pairs) with (@None (PyPath * PyPath)).
        -- rewrite disk_lookup_write, path_eqb_refl. symmetry. exact Es.
        -- symmetry. apply find_none_intro. intros [s' t'] Hin. simpl.
           apply path_eqb_neq. intros ->. apply Htn. apply (in_map snd _ (s', t)), Hin.
      * destruct (find (fun st : PyPath * PyPath => path_eqb (snd st) q) pairs) as [[s' t']|] eqn:Ef.
        -- apply find_some in Ef as [Hin _]. apply Hw.
           intros Heq. apply (proj1 (Hdis s t s' t' (or_introl eq_refl) (or_intror Hin))).
           symmetry. exact Heq.
        -- apply Hw. apply path_eqb_neq in Etq. congruence.
    + intros H. apply Hnd2, disk_write_nodup, H.
Qed.

Lemma string_length_append (a s : String.string) :
  String.length (String.append a s) = String.length a + String.length s.
Proof. induction a as [|c a IH]; simpl; [reflexivity|]. rewrite IH. reflexivity. Qed.

Lemma string_append_cancel_r (a b s : String.string) :
  String.append a s = String.append b s -> a = b.
Proof.
  revert b. induction a as [|c a IH]; intros [|c' b] H; simpl in H; try reflexivity.
  - apply (f_equal String.length) in H. simpl in H. rewrite string_length_append in H. lia.
  - apply (f_equal String.length) in H. simpl in H. rewrite string_length_append in H. lia.
  - injection H as -> H. f_equal. apply IH, H.
Qed.

Lemma strictly_sorted_unique (l1 l2 : list PyPath) :
  strictly_sorted l1 -> strictly_sorted l2 -> (forall x, In x l1 <-> In x l2) -> l1 = l2.
Proof.
  unfold strictly_sorted. intros H1 H2.
  apply Sorted_StronglySorted in H1; [|intros ? ? ?; apply path_compare_lt_trans].
  apply Sorted_StronglySorted in H2; [|intros ? ? ?; apply path_compare_lt_trans].
  revert l2 H2. induction H1 as [|a l1 _ IH Ha]; intros l2 H2 Hx.
  - destruct l2 as [|b l2]; [reflexivity|]. exfalso. apply (proj2 (Hx b)). left. reflexivity.
  - destruct H2 as [|b l2 H2 Hb].
    { exfalso. apply (proj1 (Hx a)). left. reflexivity. }
    rewrite Forall_forall in Ha, Hb.
    assert (Hab : a = b).
    { destruct (proj1 (Hx a) (or_introl eq_refl)) as [<-|Hin]; [reflexivity|].
      destruct (proj2 (Hx b) (or_introl eq_refl)) as [->|Hin']; [reflexivity|].
      specialize (Hb a Hin). specialize (Ha b Hin').
      rewrite path_compare_antisym, Ha in Hb. discriminate. }
    subst b. f_equal. apply IH; [exact H2|].
    intros x. split; intros Hin.
    + destruct (proj1 (Hx x) (or_intror Hin)) as [<-|H]; [|exact H].
      specialize (Ha a Hin). rewrite (proj2 (path_compare_eq a a) eq_refl) in Ha. discriminate.
    + destruct (proj2 (Hx x) (or_intror Hin)) as [<-|H]; [|exact H].
      specialize (Hb a Hin). rewrite (proj2 (path_compare_eq a a) eq_refl) in Hb. discriminate.
Qed.

(** Adding directories in a fresh part of the tree below [tgt] changes no
    case list: a case holds a file, which none of them does. *)
Lemma find_cases_grow {C} (d d1 : Disk C) tgt root :
  NoDup (map fst d) -> NoDup (map fst d1) ->
  (forall r, disk_lookup d (tgt ++ r) = None) ->
  (forall q, disk_lookup d1 q = disk_lookup d q \/
             (disk_lookup d1 q = Some EDir /\ exists r, q = tgt ++ r)) ->
  find_cases_without_label d1 root = find_cases_without_label d root /\
  find_cases_with_label d1 root = find_cases_with_label d root.
Proof.
  intros Hnd Hnd1 Hfresh Hd1.
  assert (Hfile : forall q, is_file d1 q = is_file d q).
  { intros q. unfold is_file. destruct (Hd1 q) as [-> | [-> [r ->]]]; [reflexivity|].
    rewrite Hfresh. reflexivity. }
  assert (Hdir : forall q, is_dir d q = true -> is_dir d1 q = true).
  { intros q. unfold is_dir. destruct (Hd1 q) as [-> | [-> _]]; auto. }
  assert (Hdir1 : forall q r, is_dir d1 q = true -> is_file d (q ++ r) = true -> is_dir d q = true).
  { intros q r'. unfold is_dir, is_file. destruct (Hd1 q) as [-> | [_ [r ->]]]; [auto|].
    rewrite <- app_assoc, Hfresh. discriminate. }
  destruct (find_cases_spec d root Hnd) as (Hw & Hc & _ & Hs).
  destruct (find_cases_spec d1 root Hnd1) as (Hw1 & Hc1 & _ & Hs1).
  assert (Hwo : find_cases_without_label d1 root = find_cases_without_label d root).
  { apply strictly_sorted_unique; [exact Hs1 | exact Hs|]. intros c. rewrite Hc, Hc1, Hfile.
    split.
    - intros (Hr & [n ->] & Hcd & Hf). split; [|split; [exists n; reflexivity|split; [|exact Hf]]].
      + apply (Hdir1 _ [n; "preop.nii.gz"]); [exact Hr|].
        replace (root ++ [n; "preop.nii.gz"]) with ((root ++ [n]) ++ ["preop.nii.gz"])
          by (rewrite <- app_assoc; reflexivity). exact Hf.
      + apply (Hdir1 _ ["preop.nii.gz"]); assumption.
    - intros (Hr & [n ->] & Hcd & Hf). repeat split; auto. exists n. reflexivity. }
  split; [exact Hwo|]. rewrite Hw, Hw1, Hwo. apply filter_ext. intros c. apply Hfile.
Qed.

Lemma path_compare_app_l (p a b : PyPath) : path_compare (p ++ a) (p ++ b) = path_compare a b.
Proof. induction p as [|x p IH]; simpl; [reflexivity|]. rewrite string_compare_refl. exact IH. Qed.

Lemma path_eqb_app_l (p a b : PyPath) : path_eqb (p ++ a) (p ++ b) = path_eqb a b.
Proof. unfold path_eqb. rewrite path_compare_app_l. reflexivity. Qed.

Lemma path_eqb_length (a b : PyPath) : length a <> length b -> path_eqb a b = false.
Proof. intros H. apply path_eqb_neq. intros ->. apply H. reflexivity. Qed.

Lemma is_dir_write_other {C} (d : Disk C) q e x :
  x <> q -> is_dir (disk_write d q e) x = is_dir d x.
Proof. intros H. unfold is_dir. rewrite disk_lookup_write. apply path_eqb_neq in H. rewrite H. reflexivity. Qed.

Lemma ensure_dir_child {C} (d : Disk C) p n :
  is_dir d p = true ->
  (forall k, 0 < k < length p -> is_dir d (firstn k p) = true) ->
  disk_lookup d (p ++ [n]) = None ->
  ensure_dir d (p ++ [n]) = Ok (disk_write d (p ++ [n]) EDir).
Proof.
  intros Hp Hanc Hn. apply ensure_dir_new; [destruct p; discriminate| |exact Hn].
  intros k Hk. rewrite length_app in Hk. simpl in Hk.
  rewrite firstn_app. destruct (Nat.eq_dec k (length p)) as [->|Hne].
  - rewrite firstn_all, Nat.sub_diag. simpl. rewrite app_nil_r. exact Hp.
  - replace (k - length p) with 0 by lia. simpl. rewrite app_nil_r. apply Hanc. lia.
Qed.

Lemma firstn_length_lt (p : PyPath) k : k < length p -> length (firstn k p) = k.
Proof. intros H. rewrite length_firstn. lia. Qed.

Lemma nodup_pairs_snd {A B} (l : list (A * B)) s s' t :
  NoDup (map snd l) -> In (s, t) l -> In (s', t) l -> s = s'.
Proof.
  induction l as [|[a b] l IH]; simpl; [tauto|]. intros Hnd H1 H2. inversion Hnd; subst.
  destruct H1 as [E1|H1], H2 as [E2|H2].
  - congruence.
  - injection E1 as -> ->. exfalso. apply H3. apply (in_map snd _ (s', t)), H2.
  - injection E2 as -> ->. exfalso. apply H3. apply (in_map snd _ (s, t)), H1.
  - auto.
Qed.

Lemma nodup_flat_map2 {A} (t1 t2 : A -> PyPath) (l : list A) :
  NoDup l ->
  (forall x y, In x l -> In y l -> t1 x = t1 y -> x = y) ->
  (forall x y, In x l -> In y l -> t2 x = t2 y -> x = y) ->
  (forall x y, t1 x <> t2 y) ->
  NoDup (flat_map (fun x => [t1 x; t2 x]) l).
Proof.
  intros Hnd H1 H2 H12. induction l as [|x l IH]; simpl; [constructor|].
  inversion Hnd as [|? ? Hx Hnd']; subst.
  assert (Hnot : forall y, In y (flat_map (fun x => [t1 x; t2 x]) l) -> y <> t1 x /\ y <> t2 x).
  { intros y Hy. apply in_flat_map in Hy as [z [Hz [<- | [<- | []]]]]; split; intros E.
    - apply Hx. rewrite (H1 x z); auto; simpl; auto.
    - apply (H12 z x). auto.
    - apply (H12 x z). auto.
    - apply Hx. rewrite (H2 x z); auto; simpl; auto. }
  constructor.
  - intros [E | Hin]; [apply (H12 x x); auto|]. apply (proj1 (Hnot _ Hin)). reflexivity.
  - constructor; [intros Hin; apply (proj2 (Hnot _ Hin)); reflexivity|].
    apply IH; auto; intros; [apply H1 | apply H2]; simpl; auto.
Qed.

Lemma map_snd_flat_map2 {A X} (a b c d : A -> X) (l : list A) :
  map snd (flat_map (fun x => [(a x, b x); (c x, d x)]) l) = flat_map (fun x => [b x; d x]) l.
Proof. induction l as [|x l IH]; simpl; [reflexivity|]. rewrite IH. reflexivity. Qed.

Lemma bind_io_ext {C} (o : Outcome C) f g :
  (forall d, f d = g d) -> bind_io o f = bind_io o g.
Proof. intros H. destruct o; simpl; [apply H | reflexivity]. Qed.

Lemma bind_copy_all {C} (o : Outcome C) pairs k :
  bind_io o (fun d => bind_io (copy_all pairs (Ok d)) k) = bind_io (copy_all pairs o) k.
Proof. destruct o; simpl; [reflexivity|]. rewrite copy_all_raised. reflexivity. Qed.

Lemma nodup_map_inj {A} (t : A -> PyPath) (l : list A) :
  NoDup l -> (forall x y, In x l -> In y l -> t x = t y -> x = y) -> NoDup (map t l).
Proof.
  intros Hnd H. induction l as [|x l IH]; simpl; [constructor|].
  inversion Hnd; subst. constructor.
  - intros Hin. apply in_map_iff in Hin as [y [Hy Hin]]. apply H2.
    rewrite (H x y); simpl; auto.
  - apply IH; auto. intros. apply H; simpl; auto.
Qed.

(** X3: export_for_nnunet.py [main] with a source root holding a train
    directory and a fresh target whose ancestors are directories exits with
    status 0; it copies the preop image of every training case to
    imagesTr/<case>_0000.nii.gz and its mask to labelsTr/<case>.nii.gz, the
    preop image of every test case to imagesTs/<case>_0000.nii.gz, writes
    dataset.json with numTraining the number of training cases, leaves every
    path outside the target unchanged and creates nothing else under it. *)
Theorem export_main_exports {C} (resolve : String.string -> PyPath) (argv : list String.string)
    (disk : Disk C) (src tgt : PyPath) :
  3 <= length argv -> resolve (nth 1 argv "") = src -> resolve (nth 2 argv "") = tgt ->
  NoDup (map fst disk) ->
  is_dir disk src = true -> is_dir disk (src ++ ["train"]) = true ->
  (forall n, 0 < n < length tgt -> is_dir disk (firstn n tgt) = true) ->
  (forall r, disk_lookup disk (tgt ++ r) = None) ->
  let train_cases := find_cases_with_label disk (src ++ ["train"]) in
  let test_cases := find_cases_without_label disk (src ++ ["test"]) in
  exists final, export_main resolve argv disk = (ExitCode 0, final) /\
  (forall c, In c train_cases ->
     disk_lookup final (tgt ++ ["imagesTr"; String.append (path_name c) "_0000.nii.gz"])
       = disk_lookup disk (c ++ ["preop.nii.gz"]) /\
     disk_lookup final (tgt ++ ["labelsTr"; String.append (path_name c) ".nii.gz"])
       = disk_lookup disk (c ++ ["burrhole_mask_autoannot.nii.gz"])) /\
  (forall c, In c test_cases ->
     disk_lookup final (tgt ++ ["imagesTs"; String.append (path_name c) "_0000.nii.gz"])
       = disk_lookup disk (c ++ ["preop.nii.gz"])) /\
  disk_lookup final (tgt ++ ["dataset.json"])
    = Some (EJson (mkDatasetJson [("background", 0%Z); ("burrhole", 1%Z)] [("0", "CT")]
                                 (length train_cases) ".nii.gz")) /\
  (forall q, (forall r, q <> tgt ++ r) -> disk_lookup final q = disk_lookup disk q) /\
  (forall r, disk_lookup final (tgt ++ r) <> None ->
     In r [[]; ["imagesTr"]; ["labelsTr"]; ["imagesTs"]; ["dataset.json"]] \/
     (exists c, In c train_cases /\
        (r = ["imagesTr"; String.append (path_name c) "_0000.nii.gz"] \/
         r = ["labelsTr"; String.append (path_name c) ".nii.gz"])) \/
     (exists c, In c test_cases /\ r = ["imagesTs"; String.append (path_name c) "_0000.nii.gz"])).
Proof.
  intros Hargv Hsrc Htgt Hnd Hsd Htr Hanc Hfresh train_cases test_cases.
  assert (Hex : forall q, disk_lookup disk q <> None -> forall r, q <> tgt ++ r).
  { intros q Hq r ->. apply Hq, Hfresh. }
  assert (Htgt0 : tgt <> []).
  { intros ->. refine (Hex src _ src eq_refl).
    unfold is_dir in Hsd; destruct (disk_lookup disk src); congruence. }
  set (Tr := tgt ++ ["imagesTr"]). set (LTr := tgt ++ ["labelsTr"]). set (Ts := tgt ++ ["imagesTs"]).
  set (d1 := disk_write disk tgt EDir).
  set (d2 := disk_write d1 Tr EDir).
  set (d3 := disk_write d2 LTr EDir).
  set (d4 := disk_write d3 Ts EDir).
  (* the four directories *)
  assert (Hd4 : forall q, (disk_lookup d4 q = Some EDir /\
                           exists r, In r [[]; ["imagesTr"]; ["labelsTr"]; ["imagesTs"]] /\ q = tgt ++ r) \/
                          ((forall r, In r [[]; ["imagesTr"]; ["labelsTr"]; ["imagesTs"]] -> q <> tgt ++ r)
                           /\ disk_lookup d4 q = disk_lookup disk q)).
  { intros q. unfold d4, d3, d2, d1. rewrite !disk_lookup_write.
    destruct (path_eqb q Ts) eqn:E4;
      [left; apply path_eqb_eq in E4; split; [reflexivity|eexists; split; [|exact E4]; simpl; tauto]|].
    destruct (path_eqb q LTr) eqn:E3;
      [left; apply path_eqb_eq in E3; split; [reflexivity|eexists; split; [|exact E3]; simpl; tauto]|].
    destruct (path_eqb q Tr) eqn:E2;
      [left; apply path_eqb_eq in E2; split; [reflexivity|eexists; split; [|exact E2]; simpl; tauto]|].
    destruct (path_eqb q tgt) eqn:E1;
      [left; apply path_eqb_eq in E1; split; [reflexivity|exists []; split; [simpl; tauto|rewrite app_nil_r; exact E1]]|].
    right. split; [|reflexivity]. apply path_eqb_neq in E1, E2, E3, E4.
    intros r Hr ->. simpl in Hr. destruct Hr as [<-|[<-|[<-|[<-|[]]]]]; auto. apply E1, app_nil_r. }
  assert (Hd4dir : forall r, In r [[]; ["imagesTr"]; ["labelsTr"]; ["imagesTs"]] -> disk_lookup d4 (tgt ++ r) = Some EDir).
  { intros r Hr. unfold d4, d3, d2, d1. rewrite !disk_lookup_write.
    simpl in Hr. destruct Hr as [<-|[<-|[<-|[<-|[]]]]]; unfold Ts, LTr, Tr;
      rewrite ?path_eqb_app_l, ?app_nil_r, ?path_eqb_refl; try reflexivity.
    all: rewrite ?(path_eqb_length tgt) by (rewrite length_app; simpl; lia); reflexivity. }
  assert (Hw : forall (d : Disk C) r e q, (forall r', q <> tgt ++ r') ->
                disk_lookup (disk_write d (tgt ++ r) e) q = disk_lookup d q).
  { intros d r e q Hq. rewrite disk_lookup_write.
    destruct (path_eqb q (tgt ++ r)) eqn:E; [|reflexivity].
    apply path_eqb_eq in E. exfalso. exact (Hq r E). }
  assert (Hancq : forall k r, 0 < k < length tgt -> firstn k tgt <> tgt ++ r).
  { intros k r Hk E. apply (f_equal (@length _)) in E.
    rewrite length_app, firstn_length_lt in E by lia. lia. }
  assert (Hdirw : forall (d : Disk C) r e k, 0 < k < length tgt ->
            is_dir d (firstn k tgt) = true -> is_dir (disk_write d (tgt ++ r) e) (firstn k tgt) = true).
  { intros d r e k Hk H. unfold is_dir in *. rewrite Hw; [exact H|]. intros r'. apply Hancq, Hk. }
  assert (Hnone : forall (d : Disk C) r e q, q <> tgt ++ r ->
            disk_lookup d q = None -> disk_lookup (disk_write d (tgt ++ r) e) q = None).
  { intros d r e q Hq H. rewrite disk_lookup_write.
    apply path_eqb_neq in Hq. rewrite Hq. exact H. }
  assert (Hdir_keep : forall (d : Disk C) r e q, q <> tgt ++ r ->
            is_dir d q = true -> is_dir (disk_write d (tgt ++ r) e) q = true).
  { intros d r e q Hq H. unfold is_dir in *. rewrite disk_lookup_write.
    apply path_eqb_neq in Hq. rewrite Hq. exact H. }
  assert (Hne : forall a b : String.string, a <> b -> tgt ++ [a] <> tgt ++ [b]).
  { intros a b Hab E. apply app_inv_head in E. injection E. exact Hab. }
  assert (Hne0 : forall a, tgt ++ [a] <> tgt).
  { intros a E. apply (f_equal (@length _)) in E. rewrite length_app in E. simpl in E. lia. }
  assert (Hnil : forall k, 0 < k < length tgt -> firstn k tgt <> tgt).
  { intros k Hk E. apply (Hancq k [] Hk). rewrite app_nil_r. exact E. }
  assert (E1 : ensure_dir disk tgt = Ok d1).
  { apply ensure_dir_new; [exact Htgt0 | exact Hanc|]. rewrite <- (app_nil_r tgt) at 1. apply Hfresh. }
  assert (Hd1t : is_dir d1 tgt = true).
  { unfold is_dir, d1. rewrite disk_lookup_write, path_eqb_refl. reflexivity. }
  assert (Hd1a : forall k, 0 < k < length tgt -> is_dir d1 (firstn k tgt) = true).
  { intros k Hk. unfold d1. rewrite is_dir_write_other by (apply Hnil, Hk). apply Hanc, Hk. }
  assert (Hd1n : forall a, disk_lookup d1 (tgt ++ [a]) = None).
  { intros a. unfold d1. rewrite disk_lookup_write, (proj2 (path_eqb_neq _ _) (Hne0 a)). apply Hfresh. }
  assert (E2 : ensure_dir d1 Tr = Ok d2) by (apply ensure_dir_child; auto).
  assert (Hd2t : is_dir d2 tgt = true).
  { unfold d2. rewrite is_dir_write_other by (apply not_eq_sym, Hne0). exact Hd1t. }
  assert (Hd2a : forall k, 0 < k < length tgt -> is_dir d2 (firstn k tgt) = true).
  { intros k Hk. unfold d2, Tr. apply Hdir_keep; auto. }
  assert (Hd2n : forall a, a <> "imagesTr" -> disk_lookup d2 (tgt ++ [a]) = None).
  { intros a Ha. unfold d2, Tr. apply Hnone; auto. }
  assert (E3 : ensure_dir d2 LTr = Ok d3) by (apply ensure_dir_child; auto; apply Hd2n; discriminate).
  assert (Hd3t : is_dir d3 tgt = true).
  { unfold d3. rewrite is_dir_write_other by (apply not_eq_sym, Hne0). exact Hd2t. }
  assert (Hd3a : forall k, 0 < k < length tgt -> is_dir d3 (firstn k tgt) = true).
  { intros k Hk. unfold d3, LTr. apply Hdir_keep; auto. }
  assert (Hd3n : forall a, a <> "imagesTr" -> a <> "labelsTr" -> disk_lookup d3 (tgt ++ [a]) = None).
  { intros a Ha Hb. unfold d3, LTr. apply Hnone; auto. }
  assert (E4 : ensure_dir d3 Ts = Ok d4) by (apply ensure_dir_child; auto; apply Hd3n; discriminate).
  assert (Hnd4 : NoDup (map fst d4)) by (unfold d4, d3, d2, d1; repeat apply disk_write_nodup; exact Hnd).
  assert (Hgrow : forall root, find_cases_without_label d4 root = find_cases_without_label disk root /\
                               find_cases_with_label d4 root = find_cases_with_label disk root).
  { intros root. apply (find_cases_grow disk d4 tgt root Hnd Hnd4 Hfresh).
    intros q. destruct (Hd4 q) as [[H [r [_ Hr]]] | [_ H]]; [right; split; [exact H|exists r; exact Hr] | left; exact H]. }
  unfold export_main. rewrite Hsrc, Htgt, (proj2 (Nat.ltb_ge _ _) Hargv), Hsd, Htr.
  cbv zeta. cbn [negb]. fold Tr LTr Ts.
  rewrite E1. cbn [bind_io]. rewrite E2. cbn [bind_io]. rewrite E3. cbn [bind_io]. rewrite E4. cbn [bind_io].
  rewrite (proj2 (Hgrow _)), (proj1 (Hgrow _)). fold train_cases test_cases.
  set (P2 := map (fun c => (c ++ ["preop.nii.gz"], Ts ++ [String.append (path_name c) "_0000.nii.gz"]))
               test_cases).
  rewrite (train_fold_copies (fun c => c ++ ["preop.nii.gz"])
             (fun c => Tr ++ [String.append (path_name c) "_0000.nii.gz"])
             (fun c => c ++ ["burrhole_mask_autoannot.nii.gz"])
             (fun c => LTr ++ [String.append (path_name c) ".nii.gz"])).
  rewrite (bind_io_ext _ _ (fun d => bind_io (copy_all P2 (Ok d))
                                     (fun d1 => create_dataset_json d1 tgt (length train_cases))))
    by (intros dd; rewrite (test_fold_copies (fun c => c ++ ["preop.nii.gz"])
             (fun c => Ts ++ [String.append (path_name c) "_0000.nii.gz"])); reflexivity).
  set (P1 := flat_map _ train_cases). rewrite bind_copy_all, <- copy_all_app.
  (* the cases *)
  destruct (find_cases_spec disk (src ++ ["train"]) Hnd) as (Hwl & Hchar & Hndw & _).
  destruct (find_cases_spec disk (src ++ ["test"]) Hnd) as (_ & Hchar' & Hndt & _).
  assert (Htrc : forall c, In c train_cases -> c = (src ++ ["train"]) ++ [path_name c] /\
            is_file disk (c ++ ["preop.nii.gz"]) = true /\
            is_file disk (c ++ ["burrhole_mask_autoannot.nii.gz"]) = true).
  { intros c Hc. unfold train_cases in Hc. rewrite Hwl in Hc. apply filter_In in Hc as [Hc Hm].
    apply Hchar in Hc as (_ & [n ->] & _ & Hp). rewrite path_name_snoc. auto. }
  assert (Htec : forall c, In c test_cases -> c = (src ++ ["test"]) ++ [path_name c] /\
            is_file disk (c ++ ["preop.nii.gz"]) = true).
  { intros c Hc. apply Hchar' in Hc as (_ & [n ->] & _ & Hp). rewrite path_name_snoc. auto. }
  assert (Hndtr : NoDup train_cases) by (unfold train_cases; rewrite Hwl; apply NoDup_filter, Hndw).
  assert (Hinj : forall root sfx (f : PyPath -> Prop) c c',
            (forall c, f c -> c = root ++ [path_name c]) -> f c -> f c' ->
            String.append (path_name c) sfx = String.append (path_name c') sfx -> c = c').
  { intros root sfx f c c' Hf Hc Hc' E. apply string_append_cancel_r in E.
    rewrite (Hf c Hc), (Hf c' Hc'), E. reflexivity. }
  assert (HP : forall s t, In (s, t) (P1 ++ P2) ->
            is_file disk s = true /\
            exists X y, In X ["imagesTr"; "labelsTr"; "imagesTs"] /\ t = tgt ++ [X; y]).
  { intros s t Hin. apply in_app_or in Hin as [Hin | Hin].
    - apply in_flat_map in Hin as [c [Hc [E | [E | []]]]]; injection E as <- <-;
        destruct (Htrc c Hc) as (_ & H1 & H2); (split; [assumption|]); do 2 eexists;
        (split; [|unfold Tr, LTr; rewrite <- app_assoc; reflexivity]); simpl; tauto.
    - apply in_map_iff in Hin as [c [E Hc]]. injection E as <- <-.
      destruct (Htec c Hc) as (_ & H1). split; [assumption|]. do 2 eexists.
      split; [|unfold Ts; rewrite <- app_assoc; reflexivity]. simpl; tauto. }
  assert (Hfile_out : forall q, is_file disk q = true -> forall r, q <> tgt ++ r).
  { intros q Hq. apply Hex. unfold is_file in Hq. destruct (disk_lookup disk q); congruence. }
  assert (Hd4out : forall q, (forall r, q <> tgt ++ r) -> disk_lookup d4 q = disk_lookup disk q).
  { intros q Hq. destruct (Hd4 q) as [[_ [r [_ E]]] | [_ E]]; [exfalso; exact (Hq r E) | exact E]. }
  assert (Hlen2 : forall X y r, In r [[]; ["imagesTr"]; ["labelsTr"]; ["imagesTs"]] -> tgt ++ [X; y] <> tgt ++ r).
  { intros X y r Hr E. apply app_inv_head in E. subst r. simpl in Hr. intuition discriminate. }
  assert (Hnodup : NoDup (map snd (P1 ++ P2))).
  { rewrite map_app. unfold P1, P2. rewrite map_snd_flat_map2, map_map. simpl.
    apply NoDup_app.
    - apply nodup_flat_map2; [exact Hndtr| | |].
      + intros c c' Hc Hc' E. apply app_inv_head in E. injection E as E.
        exact (Hinj _ _ (fun c => In c train_cases) c c' (fun c H => proj1 (Htrc c H)) Hc Hc' E).
      + intros c c' Hc Hc' E. apply app_inv_head in E. injection E as E.
        exact (Hinj _ _ (fun c => In c train_cases) c c' (fun c H => proj1 (Htrc c H)) Hc Hc' E).
      + intros c c' E. unfold Tr, LTr in E. rewrite <- !app_assoc in E.
        apply app_inv_head in E. discriminate.
    - apply nodup_map_inj; [exact Hndt|].
      intros c c' Hc Hc' E. apply app_inv_head in E. injection E as E.
      exact (Hinj _ _ (fun c => In c test_cases) c c' (fun c H => proj1 (Htec c H)) Hc Hc' E).
    - intros t Ht Ht'. apply in_flat_map in Ht as [c [_ Ht]]. apply in_map_iff in Ht' as [c' [E _]].
      unfold Tr, LTr, Ts in *. rewrite <- app_assoc in E.
      destruct Ht as [<- | [<- | []]]; rewrite <- app_assoc in E; apply app_inv_head in E; discriminate. }
  destruct (copy_all_fresh d4 (P1 ++ P2)) as (d' & Hrun & Hlook & _).
  { intros s t Hin. destruct (HP s t Hin) as [Hs (X & y & HX & ->)]. split; [|split].
    - unfold is_file in *. rewrite Hd4out; [exact Hs | apply Hfile_out, Hs].
    - replace (tgt ++ [X; y]) with ((tgt ++ [X]) ++ [y]) by (rewrite <- app_assoc; reflexivity).
      rewrite removelast_last. unfold is_dir. rewrite Hd4dir; [reflexivity|].
      simpl in HX. destruct HX as [<-|[<-|[<-|[]]]]; simpl; tauto.
    - destruct (Hd4 (tgt ++ [X; y])) as [[_ [r [Hr E]]] | [_ E]];
        [exfalso; exact (Hlen2 X y r Hr E) | rewrite E; apply Hfresh]. }
  { intros s t s' t' Hin Hin'. destruct (HP s t Hin) as [_ (X & y & _ & ->)].
    destruct (HP s' t' Hin') as [Hs' (X' & y' & _ & ->)]. split.
    - intros E. apply (Hfile_out s' Hs' [X; y]). symmetry. exact E.
    - replace (tgt ++ [X'; y']) with ((tgt ++ [X']) ++ [y']) by (rewrite <- app_assoc; reflexivity).
      rewrite removelast_last. intros E. apply (f_equal (@length _)) in E.
      rewrite !length_app in E. simpl in E. lia. }
  { exact Hnodup. }
  rewrite Hrun. cbn [bind_io].
  assert (Hd'none : forall q, (forall s t, In (s, t) (P1 ++ P2) -> t <> q) ->
            disk_lookup d' q = disk_lookup d4 q).
  { intros q Hq. rewrite Hlook. rewrite find_none_intro; [reflexivity|].
    intros [s t] Hin. apply path_eqb_neq. apply (Hq s t Hin). }
  assert (Hd'some : forall s t, In (s, t) (P1 ++ P2) -> disk_lookup d' t = disk_lookup disk s).
  { intros s t Hin. rewrite Hlook.
    destruct (find (fun st : PyPath * PyPath => path_eqb (snd st) t) (P1 ++ P2)) as [[s' t']|] eqn:Ef.
    - apply find_some in Ef as [Hin' E]. simpl in E. apply path_eqb_eq in E. subst t'.
      rewrite (nodup_pairs_snd _ s' s t Hnodup Hin' Hin).
      destruct (HP s t Hin) as [Hs _]. apply Hd4out, Hfile_out, Hs.
    - pose proof (find_none _ _ Ef (s, t) Hin) as E. simpl in E.
      rewrite path_eqb_refl in E. discriminate. }
  assert (Hdst : forall q, (forall X y, q <> tgt ++ [X; y]) -> forall s t, In (s, t) (P1 ++ P2) -> t <> q).
  { intros q Hq s t Hin ->. destruct (HP s q Hin) as [_ (X & y & _ & E)]. exact (Hq X y E). }
  assert (Hlen : forall r, length r <> 2 -> forall X y, tgt ++ r <> tgt ++ [X; y]).
  { intros r Hr X y E. apply app_inv_head in E. subst r. apply Hr. reflexivity. }
  set (J := tgt ++ ["dataset.json"]).
  assert (HJ : disk_lookup d' J = None).
  { rewrite Hd'none; [|apply Hdst, Hlen; discriminate].
    destruct (Hd4 J) as [[_ [r [Hr E]]] | [_ E]].
    - exfalso. unfold J in E. apply app_inv_head in E. subst r. simpl in Hr. intuition discriminate.
    - rewrite E. apply Hfresh. }
  assert (Ht' : is_dir d' tgt = true).
  { unfold is_dir. rewrite Hd'none;
      [|apply Hdst; intros X y E; apply (Hlen [] ltac:(discriminate) X y); rewrite app_nil_r; exact E].
    rewrite <- (app_nil_r tgt) at 1. rewrite Hd4dir; [reflexivity | simpl; tauto]. }
  set (dj := mkDatasetJson [("background", 0%Z); ("burrhole", 1%Z)] [("0", "CT")]
                           (length train_cases) ".nii.gz").
  assert (Hcreate : create_dataset_json d' tgt (length train_cases) = Ok (disk_write d' J (EJson dj))).
  { unfold create_dataset_json, write_json. cbv zeta. fold J. unfold J at 1. rewrite removelast_last.
    unfold is_dir at 2. rewrite HJ, Ht'. reflexivity. }
  rewrite Hcreate. exists (disk_write d' J (EJson dj)). split; [reflexivity|].
  assert (Hfin : forall q, q <> J -> disk_lookup (disk_write d' J (EJson dj)) q = disk_lookup d' q).
  { intros q Hq. rewrite disk_lookup_write. apply path_eqb_neq in Hq. rewrite Hq. reflexivity. }
  assert (HJne : forall X y, tgt ++ [X; y] <> J).
  { intros X y E. unfold J in E. apply app_inv_head in E. discriminate. }
  split; [|split; [|split; [|split]]].
  - intros c Hc. rewrite !Hfin by apply HJne. split.
    + replace (tgt ++ ["imagesTr"; String.append (path_name c) "_0000.nii.gz"])
        with (Tr ++ [String.append (path_name c) "_0000.nii.gz"]) by (unfold Tr; rewrite <- app_assoc; reflexivity).
      apply Hd'some. apply in_or_app. left. apply in_flat_map. exists c. split; [exact Hc | simpl; tauto].
    + replace (tgt ++ ["labelsTr"; String.append (path_name c) ".nii.gz"])
        with (LTr ++ [String.append (path_name c) ".nii.gz"]) by (unfold LTr; rewrite <- app_assoc; reflexivity).
      apply Hd'some. apply in_or_app. left. apply in_flat_map. exists c. split; [exact Hc | simpl; tauto].
  - intros c Hc. rewrite Hfin by apply HJne.
    replace (tgt ++ ["imagesTs"; String.append (path_name c) "_0000.nii.gz"])
      with (Ts ++ [String.append (path_name c) "_0000.nii.gz"]) by (unfold Ts; rewrite <- app_assoc; reflexivity).
    apply Hd'some. apply in_or_app. right. unfold P2. apply in_map_iff. exists c. split; [reflexivity | exact Hc].
  - rewrite disk_lookup_write, path_eqb_refl. reflexivity.
  - intros q Hq. rewrite Hfin by (intros E; exact (Hq _ E)).
    rewrite Hd'none by (apply Hdst; intros X y E; exact (Hq _ E)). apply Hd4out, Hq.
  - intros r Hr. destruct (path_eqb (tgt ++ r) J) eqn:EJ.
    { left. apply path_eqb_eq in EJ. unfold J in EJ. apply app_inv_head in EJ. subst r. simpl. tauto. }
    apply path_eqb_neq in EJ. rewrite Hfin in Hr by exact EJ. rewrite Hlook in Hr.
    destruct (find (fun st : PyPath * PyPath => path_eqb (snd st) (tgt ++ r)) (P1 ++ P2))
      as [[s t]|] eqn:Ef.
    + apply find_some in Ef as [Hin E]. simpl in E. apply path_eqb_eq in E. subst t. right.
      apply in_app_or in Hin as [Hin | Hin].
      * left. apply in_flat_map in Hin as [c [Hc Hin]]. exists c. split; [exact Hc|].
        destruct Hin as [E | [E | []]]; injection E as _ E; [left|right];
          [unfold Tr in E | unfold LTr in E]; rewrite <- app_assoc in E; apply app_inv_head in E;
          symmetry; exact E.
      * right. unfold P2 in Hin. apply in_map_iff in Hin as [c [E Hc]]. exists c. split; [exact Hc|].
        injection E as _ E. unfold Ts in E. rewrite <- app_assoc in E. apply app_inv_head in E.
        symmetry. exact E.
    + destruct (Hd4 (tgt ++ r)) as [[_ [r' [Hr' E]]] | [_ E]].
      * left. apply app_inv_head in E. subst r'. simpl in Hr' |- *. tauto.
      * rewrite E, Hfresh in Hr. exfalso. apply Hr. reflexivity.
Qed.

Lemma nodup_paths_NoDup (l : list PyPath) : nodup_paths l = true -> NoDup l.
Proof.
  induction l as [|p l IH]; simpl; intros H; [constructor|].
  apply andb_prop in H as [H1 H2]. constructor; [|apply IH, H2].
  intros Hin. apply negb_true_iff in H1. rewrite <- not_true_iff_false in H1. apply H1.
  apply existsb_exists. exists p. split; [exact Hin | apply path_eqb_refl].
Qed.

Open Scope Q_scope.
Open Scope string_scope.

Lemma otsu_mask_two_classes_witness :
  (forall vs, @otsu_threshold_value itk_otsu_filters vs = itk_otsu_threshold vs) /\
  In 2 (pixels two_value_image) /\ In 7 (pixels two_value_image) /\ ~ 2 == 7 /\
  (let t := itk_otsu_threshold (pixels two_value_image) in
   histogram_minimum (pixels two_value_image) < t /\ t < histogram_maximum (pixels two_value_image) /\
   In 0%Z (pixels (@OtsuThreshold itk_otsu_filters two_value_image 0 1)) /\
   In 1%Z (pixels (@OtsuThreshold itk_otsu_filters two_value_image 0 1))).
Proof.
  assert (Hf : forall vs, @otsu_threshold_value itk_otsu_filters vs = itk_otsu_threshold vs)
    by reflexivity.
  assert (H2 : In 2 (pixels two_value_image)) by (simpl; tauto).
  assert (H7 : In 7 (pixels two_value_image)) by (simpl; tauto).
  assert (Hne : ~ 2 == 7) by (intros E; vm_compute in E; discriminate).
  split; [exact Hf|]. split; [exact H2|]. split; [exact H7|]. split; [exact Hne|].
  exact (@otsu_mask_two_classes itk_otsu_filters two_value_image 2 7 Hf H2 H7 Hne).
Defined.

Lemma resample_identity_reproduces_input_witness :
  size (geom oblique_volume) = [2; 1; 1]%nat /\
  ~ mat3_det (IndexToPhysicalPoint (geom oblique_volume)) == 0 /\
  (let out := Execute (mkResampleImageFilter (geom oblique_volume) (fun x => x) sitkLinear 0)
                oblique_volume in
   geom out = geom oblique_volume /\ length (pixels out) = npix (geom oblique_volume) /\
   forall p, (p < npix (geom oblique_volume))%nat -> px 0 out p == px 0 oblique_volume p).
Proof.
  assert (Hs : size (geom oblique_volume) = [2; 1; 1]%nat) by reflexivity.
  assert (Hd : ~ mat3_det (IndexToPhysicalPoint (geom oblique_volume)) == 0)
    by (intros E; vm_compute in E; discriminate).
  split; [exact Hs|]. split; [exact Hd|].
  exact (resample_identity_reproduces_input oblique_volume 2 1 1 Hs Hd).
Defined.

Lemma subtract_self_identity_is_zero_witness :
  size (geom oblique_volume) = [2; 1; 1]%nat /\
  length (pixels oblique_volume) = npix (geom oblique_volume) /\
  ~ mat3_det (IndexToPhysicalPoint (geom oblique_volume)) == 0 /\
  exists diff, subtract_postop_from_preop oblique_volume oblique_volume (fun x => x) = Some diff /\
    geom diff = geom oblique_volume /\ length (pixels diff) = npix (geom oblique_volume) /\
    forall p, px 0 diff p == 0.
Proof.
  assert (Hs : size (geom oblique_volume) = [2; 1; 1]%nat) by reflexivity.
  assert (Hl : length (pixels oblique_volume) = npix (geom oblique_volume)) by reflexivity.
  assert (Hd : ~ mat3_det (IndexToPhysicalPoint (geom oblique_volume)) == 0)
    by (intros E; vm_compute in E; discriminate).
  split; [exact Hs|]. split; [exact Hl|]. split; [exact Hd|].
  exact (subtract_self_identity_is_zero oblique_volume 2 1 1 Hs Hl Hd).
Defined.

Lemma drivers_rerun_does_nothing_witness :
  let mask := fun (_ : FileSystem nat) (_ : Path) => [Some 5%nat] in
  let reg := fun (_ : FileSystem nat) (_ : Path) => [Some 6%nat; Some 7%nat] in
  let diff := fun (_ : FileSystem nat) (_ : Path) => [Some 8%nat] in
  (forall fs d, exists c, mask fs d = [Some c]) /\
  (forall fs d, exists c1 c2, reg fs d = [Some c1; Some c2]) /\
  (forall fs d, exists c, diff fs d = [Some c]) /\
  (let fs1 := fst (binarize_main mask sample_files [1; 2; 3]%nat) in
   binarize_main mask fs1 [1; 2; 3]%nat = (fs1, [])) /\
  (let fs1 := fst (register_main reg sample_files [1; 2; 3]%nat) in
   register_main reg fs1 [1; 2; 3]%nat = (fs1, [])) /\
  (let fs1 := fst (subtract_main diff sample_files [1; 2; 3]%nat) in
   subtract_main diff fs1 [1; 2; 3]%nat = (fs1, [])).
Proof.
  intros mask reg diff.
  assert (H1 : forall fs d, exists c, mask fs d = [Some c]) by (intros; exists 5%nat; reflexivity).
  assert (H2 : forall fs d, exists c1 c2, reg fs d = [Some c1; Some c2])
    by (intros; exists 6%nat, 7%nat; reflexivity).
  assert (H3 : forall fs d, exists c, diff fs d = [Some c]) by (intros; exists 8%nat; reflexivity).
  split; [exact H1|]. split; [exact H2|]. split; [exact H3|].
  exact (drivers_rerun_does_nothing mask reg diff sample_files [1; 2; 3]%nat H1 H2 H3).
Defined.

Lemma sample_disk_nodup : NoDup (map fst sample_disk).
Proof. apply nodup_paths_NoDup. vm_compute. reflexivity. Qed.

Lemma find_case_dirs_correct_witness :
  NoDup (map fst sample_disk) /\
  (forall p, In p (binarize_find_case_dirs sample_disk ["data"]) <->
     is_dir sample_disk p = true /\ firstn (length ["data"]) p = ["data"] /\
     is_file sample_disk (p ++ ["preop.nii.gz"]) = true /\
     is_file sample_disk (p ++ ["diff.nii.gz"]) = true) /\
  (forall p, In p (register_find_case_dirs sample_disk ["data"]) <->
     is_dir sample_disk p = true /\ firstn (length ["data"]) p = ["data"] /\
     is_file sample_disk (p ++ ["preop.nii.gz"]) = true /\
     is_file sample_disk (p ++ ["postop.nii.gz"]) = true) /\
  (forall p, In p (subtract_find_case_dirs sample_disk ["data"]) <->
     is_dir sample_disk p = true /\ firstn (length ["data"]) p = ["data"] /\
     is_file sample_disk (p ++ ["preop.nii.gz"]) = true /\
     is_file sample_disk (p ++ ["postop.nii.gz"]) = true /\
     is_file sample_disk (p ++ ["postop_to_preop.tfm"]) = true) /\
  (NoDup (binarize_find_case_dirs sample_disk ["data"]) /\
   strictly_sorted (binarize_find_case_dirs sample_disk ["data"])) /\
  (NoDup (register_find_case_dirs sample_disk ["data"]) /\
   strictly_sorted (register_find_case_dirs sample_disk ["data"])) /\
  (NoDup (subtract_find_case_dirs sample_disk ["data"]) /\
   strictly_sorted (subtract_find_case_dirs sample_disk ["data"])).
Proof.
  split; [exact sample_disk_nodup|].
  exact (find_case_dirs_correct sample_disk ["data"] sample_disk_nodup).
Defined.

Lemma find_cases_correct_witness :
  NoDup (map fst sample_disk) /\
  find_cases_with_label sample_disk ["data"; "train"]
  = filter (fun c => is_file sample_disk (c ++ ["burrhole_mask_autoannot.nii.gz"]))
      (find_cases_without_label sample_disk ["data"; "train"]) /\
  (forall c, In c (find_cases_without_label sample_disk ["data"; "train"]) <->
     is_dir sample_disk ["data"; "train"] = true /\ (exists n, c = ["data"; "train"] ++ [n]) /\
     is_dir sample_disk c = true /\ is_file sample_disk (c ++ ["preop.nii.gz"]) = true) /\
  NoDup (find_cases_without_label sample_disk ["data"; "train"]) /\
  strictly_sorted (find_cases_without_label sample_disk ["data"; "train"]).
Proof.
  split; [exact sample_disk_nodup|].
  exact (find_cases_correct sample_disk ["data"; "train"] sample_disk_nodup).
Defined.

Lemma export_main_exports_witness :
  let argv := ["export_for_nnunet.py"; "data"; "out"] in
  (3 <= length argv)%nat /\ sample_resolve (nth 1 argv "") = ["data"] /\
  sample_resolve (nth 2 argv "") = ["out"] /\ NoDup (map fst sample_disk) /\
  is_dir sample_disk ["data"] = true /\ is_dir sample_disk (["data"] ++ ["train"]) = true /\
  (forall n, (0 < n < length ["out"])%nat -> is_dir sample_disk (firstn n ["out"]) = true) /\
  (forall r, disk_lookup sample_disk (["out"] ++ r) = None) /\
  (let train_cases := find_cases_with_label sample_disk (["data"] ++ ["train"]) in
   let test_cases := find_cases_without_label sample_disk (["data"] ++ ["test"]) in
   exists final, export_main sample_resolve argv sample_disk = (ExitCode 0, final) /\
   (forall c, In c train_cases ->
      disk_lookup final (["out"] ++ ["imagesTr"; String.append (path_name c) "_0000.nii.gz"])
        = disk_lookup sample_disk (c ++ ["preop.nii.gz"]) /\
      disk_lookup final (["out"] ++ ["labelsTr"; String.append (path_name c) ".nii.gz"])
        = disk_lookup sample_disk (c ++ ["burrhole_mask_autoannot.nii.gz"])) /\
   (forall c, In c test_cases ->
      disk_lookup final (["out"] ++ ["imagesTs"; String.append (path_name c) "_0000.nii.gz"])
        = disk_lookup sample_disk (c ++ ["preop.nii.gz"])) /\
   disk_lookup final (["out"] ++ ["dataset.json"])
     = Some (EJson (mkDatasetJson [("background", 0%Z); ("burrhole", 1%Z)] [("0", "CT")]
                                  (length train_cases) ".nii.gz")) /\
   (forall q, (forall r, q <> ["out"] ++ r) -> disk_lookup final q = disk_lookup sample_disk q) /\
   (forall r, disk_lookup final (["out"] ++ r) <> None ->
      In r [[]; ["imagesTr"]; ["labelsTr"]; ["imagesTs"]; ["dataset.json"]] \/
      (exists c, In c train_cases /\
         (r = ["imagesTr"; String.append (path_name c) "_0000.nii.gz"] \/
          r = ["labelsTr"; String.append (path_name c) ".nii.gz"])) \/
      (exists c, In c test_cases /\ r = ["imagesTs"; String.append (path_name c) "_0000.nii.gz"]))).
Proof.
  intros argv.
  assert (H1 : (3 <= length argv)%nat) by (simpl; lia).
  assert (H2 : sample_resolve (nth 1 argv "") = ["data"]) by reflexivity.
  assert (H3 : sample_resolve (nth 2 argv "") = ["out"]) by reflexivity.
  assert (H4 : is_dir sample_disk ["data"] = true) by reflexivity.
  assert (H5 : is_dir sample_disk (["data"] ++ ["train"]) = true) by reflexivity.
  assert (H6 : forall n, (0 < n < length ["out"])%nat -> is_dir sample_disk (firstn n ["out"]) = true)
    by (simpl; intros n Hn; lia).
  assert (H7 : forall r, disk_lookup sample_disk (["out"] ++ r) = None) by (intros r; reflexivity).
  split; [exact H1|]. split; [exact H2|]. split; [exact H3|]. split; [exact sample_disk_nodup|].
  split; [exact H4|]. split; [exact H5|]. split; [exact H6|]. split; [exact H7|].
  exact (export_main_exports sample_resolve argv sample_disk ["data"] ["out"]
           H1 H2 H3 sample_disk_nodup H4 H5 H6 H7).
Defined.
